(** * Gesture-driven particle tree: model and verified properties

    A shallow embedding of the TypeScript sources

    - [HandController.tsx]  the per-frame gesture classifier,
    - [Scene.tsx]           the owner of mode / focus / slideshow state,
    - [Tree.tsx]            needles, trunk, gold dust and photo ornaments,
    - [Atmosphere.tsx]      gifts, balls and lights,

    followed by the properties proved about them.  The later modules
    add the camera and overlay updates of [Scene.tsx], the generators
    that fill the particle arrays at start-up, the ribbon and the
    instance transforms of [Atmosphere.tsx].

    Conventions.  JavaScript numbers that the classifier compares
    (landmark coordinates) are exact rationals [Q]; [Date.now()]
    readings and array indices are integers [Z]; the particle buffers,
    whose update law involves [Math.sin] and [Math.cos], are real
    numbers [R].  A store into a [Float32Array] rounds to the nearest
    float32 ([Float32.fround]), so the buffers hold float32 numbers;
    the binary64 rounding of the arithmetic before a store is not
    modelled, and the bounds stated about computed values leave room
    for it.  An array read outside the bounds and a remainder by zero are made
    visible as faults, where JavaScript yields [undefined] (and a
    [TypeError] once a field of it is read) or [NaN].  [Math.random]
    is the sequence of numbers it returns, read in call order.  A
    [THREE.Color] built from the palette is kept as the palette
    entry, and the matrix [updateMatrix] composes as the position,
    rotation and scale it is composed from.  Refs to mounted objects
    (the meshes, the tree group) are taken to be set; the camera ref
    may be empty. *)

From Stdlib Require Import ZArith QArith Qabs List Bool String Psatz Reals.
Import ListNotations.

Set Implicit Arguments.

(** ** Faults and the outcome monad *)

Inductive Fault : Set :=
| OutOfRange   (* [a[i]] with [i] outside [0 .. a.length-1] *)
| ModByZero.   (* [n % 0] *)

Inductive Outcome (A : Type) : Type :=
| Done (a : A)
| Faulted (f : Fault).

Arguments Done {A} a.
Arguments Faulted {A} f.

Definition bind {A B : Type} (m : Outcome A) (k : A -> Outcome B) : Outcome B :=
  match m with
  | Done a => k a
  | Faulted f => Faulted f
  end.

Notation "x <- m ;; k" := (bind m (fun x => k))
  (at level 61, m at next level, right associativity).

Fixpoint mapM {A B : Type} (f : A -> Outcome B) (l : list A) : Outcome (list B) :=
  match l with
  | [] => Done []
  | a :: l' => b <- f a ;; bs <- mapM f l' ;; Done (b :: bs)
  end.

(** [a[i]] for an array [a] and a natural index. *)
Definition at_ {A : Type} (a : list A) (i : nat) : Outcome A :=
  match nth_error a i with
  | Some v => Done v
  | None => Faulted OutOfRange
  end.

(** [a[i]] for an integer index that may be negative. *)
Definition atZ {A : Type} (a : list A) (i : Z) : Outcome A :=
  if (i <? 0)%Z then Faulted OutOfRange else at_ a (Z.to_nat i).

(** [a % b] on integers: the sign follows the dividend. *)
Definition jsRem (a b : Z) : Outcome Z :=
  if (b =? 0)%Z then Faulted ModByZero else Done (Z.rem a b).

(** The type ['CHAOS' | 'FORMED'] shared by all components. *)
Inductive Mode : Set := CHAOS | FORMED.

Definition Mode_eqb (a b : Mode) : bool :=
  match a, b with
  | CHAOS, CHAOS | FORMED, FORMED => true
  | _, _ => false
  end.

(** The type ['left' | 'right']. *)
Module Direction.
Inductive t : Set := left | right.
End Direction.

(** [a < b] on rationals as a boolean. *)
Definition Qltb (a b : Q) : bool := negb (Qle_bool b a).

(** ** HandController.tsx *)

Module HandController.

Record Landmark : Set := { x : Q; y : Q; z : Q }.

(** The callbacks received as props, recorded in call order. *)
Inductive Call : Set :=
| setTreeState (state : Mode)
| setFocusMode (active : bool)
| onSwipe (direction : Direction.t)
| setRotation (delta : Q)
| setCameraZoom (delta : Q).

(** The three [useRef] cells. *)
Record Refs : Set := {
  lastHandX : option Q;
  lastSwipeTime : Z;
  lastVictoryTime : Z
}.

Definition initialRefs : Refs :=
  {| lastHandX := None; lastSwipeTime := 0; lastVictoryTime := 0 |}.

(** What one run of the frame callback reads from outside:
    [result.landmarks] (one entry per detected hand) and the two
    readings of [Date.now()], the first taken inside the victory
    branch and the second before the swipe test. *)
Record Detection : Set := {
  result_landmarks : list (list Landmark);
  nowVictory : Z;
  nowSwipe : Z
}.

Definition SWIPE_THRESHOLD : Q := 0.03.
Definition SWIPE_COOLDOWN : Z := 500.

(** [isExtended(tipIdx, pipIdx)] *)
Definition isExtended (landmarks : list Landmark) (tipIdx pipIdx : nat)
  : Outcome bool :=
  tip <- at_ landmarks tipIdx ;;
  pip <- at_ landmarks pipIdx ;;
  Done (Qltb (y tip) (y pip)).

(** [[indexExt, middleExt, ringExt, pinkyExt].filter(Boolean).length] *)
Definition fingersExtendedCount (indexExt middleExt ringExt pinkyExt : bool)
  : nat :=
  List.length (filter (fun b : bool => b) [indexExt; middleExt; ringExt; pinkyExt]).

(** 1. Fist vs Spread. *)
Definition fistOrSpread (count : nat) : list Call :=
  let isFist := (count <? 2)%nat in
  if isFist then [setTreeState FORMED] else [setTreeState CHAOS].

(** 2. Victory gesture: selection. *)
Definition victorySelect (isVictory : bool) (now : Z) (refs : Refs)
  : Refs * list Call :=
  if isVictory then
    if (800 <? now - lastVictoryTime refs)%Z then
      ({| lastHandX := lastHandX refs;
          lastSwipeTime := lastSwipeTime refs;
          lastVictoryTime := now |},
       [setFocusMode true])
    else (refs, [])
  else (refs, []).

(** 3. Swipe detection, followed by the update of [lastHandX]. *)
Definition swipeDetect (isVictory onSwipeGiven : bool) (currentHandX : Q)
  (now : Z) (refs : Refs) : Refs * list Call :=
  let fired :=
    match lastHandX refs with
    | Some last =>
        if isVictory && onSwipeGiven then
          let dx := (currentHandX - last)%Q in
          if Qltb SWIPE_THRESHOLD (Qabs dx)
             && (SWIPE_COOLDOWN <? now - lastSwipeTime refs)%Z
          then
            if Qltb 0 dx then Some Direction.right else Some Direction.left
          else None
        else None
    | None => None
    end in
  match fired with
  | Some direction =>
      ({| lastHandX := Some currentHandX;
          lastSwipeTime := now;
          lastVictoryTime := lastVictoryTime refs |},
       [onSwipe direction])
  | None =>
      ({| lastHandX := Some currentHandX;
          lastSwipeTime := lastSwipeTime refs;
          lastVictoryTime := lastVictoryTime refs |},
       [])
  end.

(** 4. Movement (rotate / zoom). *)
Definition movement (lm9 : Landmark) : list Call :=
  let handX := ((x lm9 - 0.5) * 2)%Q in
  let handY := ((y lm9 - 0.5) * 2)%Q in
  [setRotation (handX * 0.05)%Q; setCameraZoom handY].

(** The body of the [useFrame] callback once a detection result is
    available.  [onSwipeGiven] tells whether the optional [onSwipe]
    prop was passed. *)
Definition useFrame (onSwipeGiven : bool) (refs : Refs) (d : Detection)
  : Outcome (Refs * list Call) :=
  match result_landmarks d with
  | [] => Done (refs, [])
  | landmarks :: _ =>
      lm9 <- at_ landmarks 9 ;;
      let currentHandX := x lm9 in
      indexExt <- isExtended landmarks 8 6 ;;
      middleExt <- isExtended landmarks 12 10 ;;
      ringExt <- isExtended landmarks 16 14 ;;
      pinkyExt <- isExtended landmarks 20 18 ;;
      let count := fingersExtendedCount indexExt middleExt ringExt pinkyExt in
      let calls1 := fistOrSpread count in
      let isVictory := indexExt && middleExt && negb ringExt && negb pinkyExt in
      let '(refs2, calls2) := victorySelect isVictory (nowVictory d) refs in
      let '(refs3, calls3) :=
        swipeDetect isVictory onSwipeGiven currentHandX (nowSwipe d) refs2 in
      Done (refs3, calls1 ++ calls2 ++ calls3 ++ movement lm9)
  end.

End HandController.

(** [IMAGES] of constants.ts, the initial photo list held by [App]. *)
Definition IMAGES : list string := [].

(** ** Scene.tsx *)

Module Scene.
Import HandController.

(** The four [useState] cells of [Scene]. *)
Record State : Set := {
  treeState : Mode;
  focusMode : bool;
  rotation : Q;
  slideshowIndex : Z
}.

Definition initialState : State :=
  {| treeState := FORMED; focusMode := false; rotation := 0; slideshowIndex := 0 |}.

Definition with_treeState (v : Mode) (s : State) : State :=
  {| treeState := v; focusMode := focusMode s;
     rotation := rotation s; slideshowIndex := slideshowIndex s |}.
Definition with_focusMode (v : bool) (s : State) : State :=
  {| treeState := treeState s; focusMode := v;
     rotation := rotation s; slideshowIndex := slideshowIndex s |}.
Definition with_rotation (v : Q) (s : State) : State :=
  {| treeState := treeState s; focusMode := focusMode s;
     rotation := v; slideshowIndex := slideshowIndex s |}.
Definition with_slideshowIndex (v : Z) (s : State) : State :=
  {| treeState := treeState s; focusMode := focusMode s;
     rotation := rotation s; slideshowIndex := v |}.

(** [photos.length] *)
Definition len (photos : list string) : Z := Z.of_nat (List.length photos).

(** [handleSwipe], a callback memoised on [focusMode] and
    [photos.length]: both are the values of the render that created
    it.  The updater passed to [setSlideshowIndex] receives the
    pending index. *)
Definition handleSwipe (focusMode : bool) (photosLength : Z)
  (direction : Direction.t) (pending : State) : Outcome State :=
  if negb focusMode || (photosLength =? 0)%Z then Done pending
  else
    let prev := slideshowIndex pending in
    next <- match direction with
            | Direction.right => jsRem (prev + 1) photosLength
            | Direction.left => jsRem (prev - 1 + photosLength) photosLength
            end ;;
    Done (with_slideshowIndex next pending).

(** The callback of the 4-second [setInterval].  The interval only
    exists while the rendered [focusMode] holds and the list is not
    empty; otherwise nothing is scheduled and nothing happens. *)
Definition intervalTick (focusMode : bool) (photosLength : Z) (pending : State)
  : Outcome State :=
  if focusMode && (0 <? photosLength)%Z then
    next <- jsRem (slideshowIndex pending + 1) photosLength ;;
    Done (with_slideshowIndex next pending)
  else Done pending.

(** One call made by [HandController] through its props, as wired by
    [Scene]'s JSX.  [rendered] is the state of the last render, which
    the closures read; [pending] accumulates the queued updates.
    [handleZoom] only moves the three.js camera object, which is not
    part of this state. *)
Definition applyCall (rendered : State) (photosLength : Z) (pending : State)
  (c : Call) : Outcome State :=
  match c with
  | setTreeState v => Done (with_treeState v pending)
  | setFocusMode v => Done (with_focusMode v pending)
  | onSwipe direction =>
      handleSwipe (focusMode rendered) photosLength direction pending
  | setRotation v => Done (with_rotation v pending)
  | setCameraZoom _ => Done pending
  end.

Fixpoint applyCalls (rendered : State) (photosLength : Z) (pending : State)
  (cs : list Call) : Outcome State :=
  match cs with
  | [] => Done pending
  | c :: cs' =>
      pending' <- applyCall rendered photosLength pending c ;;
      applyCalls rendered photosLength pending' cs'
  end.

(** The effect with dependency list [[treeState]]: after a render in
    which [treeState] differs from the previous render it runs, and
    closes focus mode when the tree is formed.  The re-render caused
    by [setFocusMode(false)] leaves [treeState] alone, so the effect
    does not run again. *)
Definition commit (rendered next : State) : State :=
  if Mode_eqb (treeState next) (treeState rendered) then next
  else
    match treeState next with
    | FORMED => with_focusMode false next
    | CHAOS => next
    end.

(** [photos.length > 0 && <FocusedPhotoOverlay photoUrl={photos[slideshowIndex % photos.length]} />] *)
Definition overlayPhotoUrl (s : State) (photos : list string)
  : Outcome (option string) :=
  if (0 <? len photos)%Z then
    i <- jsRem (slideshowIndex s) (len photos) ;;
    url <- atZ photos i ;;
    Done (Some url)
  else Done None.

(** The whole of the interaction state: [Scene]'s state, the
    controller's refs and the [photos] prop owned by [App]. *)
Record System : Set := {
  scene : State;
  refs : Refs;
  photos : list string
}.

Definition initialSystem : System :=
  {| scene := initialState; refs := initialRefs; photos := IMAGES |}.

Inductive Event : Set :=
| Frame (d : Detection)             (* a [useFrame] run with a detection result *)
| IntervalTick                      (* the slideshow interval fires *)
| Close                             (* [onClose] of the overlay *)
| Upload (newPhotos : list string). (* [setUserPhotos(prev => [...newPhotos, ...prev])] *)

(** [<HandController ... onSwipe={handleSwipe} />]: the optional prop
    is always passed. *)
Definition onSwipeGiven : bool := true.

(** One event handled to completion: React applies the updates queued
    by the callback together, renders, and runs the effects of that
    render before the next event is handled. *)
Definition step (sys : System) (e : Event) : Outcome System :=
  let s := scene sys in
  let n := len (photos sys) in
  match e with
  | Frame d =>
      r <- useFrame onSwipeGiven (refs sys) d ;;
      next <- applyCalls s n s (snd r) ;;
      Done {| scene := commit s next; refs := fst r; photos := photos sys |}
  | IntervalTick =>
      next <- intervalTick (focusMode s) n s ;;
      Done {| scene := commit s next; refs := refs sys; photos := photos sys |}
  | Close =>
      Done {| scene := commit s (with_focusMode false s);
              refs := refs sys; photos := photos sys |}
  | Upload newPhotos =>
      Done {| scene := s; refs := refs sys; photos := newPhotos ++ photos sys |}
  end.

(** The states the running application can be in. *)
Inductive reachable : System -> Prop :=
| reachable_initial : reachable initialSystem
| reachable_step (sys sys' : System) (e : Event) :
    reachable sys -> step sys e = Done sys' -> reachable sys'.

End Scene.


(** ** Numeric buffers and three.js helpers *)

(** [THREE.MathUtils.lerp(x, y, t)], as three.js defines it. *)
Module MathUtils.
Definition lerp (x y t : R) : R := ((1 - t) * x + t * y)%R.
End MathUtils.

(** [a[i] = v] on a typed array: a write outside the bounds is dropped. *)
Fixpoint store {A : Type} (a : list A) (i : nat) (v : A) : list A :=
  match a, i with
  | [], _ => []
  | _ :: a', O => v :: a'
  | h :: a', S i' => h :: store a' i' v
  end.

(** ** [Float32Array]: numbers as a typed array holds them *)

Module Float32.
Local Open Scope R_scope.

(** [2^k] for an integer exponent. *)
Definition pow2 (k : Z) : R := powerRZ 2 k.

(** The binade of a positive number: the [k] with [2^k <= x < 2^(k+1)]. *)
Definition binade (x : R) : Z := Zfloor (ln x / ln 2).

(** The nearest integer, a tie going to the even neighbour. *)
Definition nearestEven (x : R) : Z :=
  let n := Zfloor x in
  if Rlt_dec (x - IZR n) (1 / 2) then n
  else if Rlt_dec (1 / 2) (x - IZR n) then (n + 1)%Z
  else if Z.even n then n else (n + 1)%Z.

(** Exponent of the last bit of the float32 numbers of the binade of
    [x]: 24 significant bits, and the fixed spacing [2^-149] of the
    subnormal numbers below [2^-126]. *)
Definition lastBit (x : R) : Z := Z.max (binade x - 23) (-149).

(** Rounding of a positive number to the nearest multiple of the last
    bit. *)
Definition roundPositive (x : R) : R :=
  IZR (nearestEven (x / pow2 (lastBit x))) * pow2 (lastBit x).

(** [Math.fround(x)], the number a [Float32Array] holds after
    [a[i] = x]: the nearest float32, ties to even.  Above the largest
    float32, where JavaScript stores [Infinity], this is still the
    rounding to 24 bits; the program stores no such number. *)
Definition fround (x : R) : R :=
  match total_order_T 0 x with
  | inleft (left _) => roundPositive x
  | inleft (right _) => 0
  | inright _ => - roundPositive (- x)
  end.

(** The numbers a [Float32Array] can hold. *)
Definition representable (x : R) : Prop := fround x = x.

(** [a[i] = v] on a [Float32Array]; a write outside the bounds is
    dropped. *)
Definition write (a : list R) (i : nat) (v : R) : list R :=
  store a i (fround v).

(** Every entry of the array is a float32. *)
Definition array (a : list R) : Prop :=
  forall j : nat, representable (nth j a 0).

(** Half the relative spacing of the float32 numbers, [2^-24]. *)
Definition eps : R := / 16777216.

(** Half the spacing of the subnormal float32 numbers, [2^-150]. *)
Definition tiny : R := pow2 (-150).

End Float32.

(** [for (let i = 0; i < n; i++) body], threading the mutated state. *)
Fixpoint forEach {A S : Type} (body : S -> A -> Outcome S) (l : list A) (s : S)
  : Outcome S :=
  match l with
  | [] => Done s
  | a :: l' => s' <- body s a ;; forEach body l' s'
  end.

Definition forLoop {S : Type} (n : nat) (body : S -> nat -> Outcome S) (s : S)
  : Outcome S :=
  forEach body (seq 0 n) s.

(** [positions[j] = THREE.MathUtils.lerp(positions[j], target, alpha)]
    on a [Float32Array]. *)
Definition blend (positions : list R) (j : nat) (target alpha : R)
  : Outcome (list R) :=
  p <- at_ positions j ;;
  Done (Float32.write positions j (MathUtils.lerp p target alpha)).

(** The three consecutive assignments to [positions[i*3]],
    [positions[i*3+1]] and [positions[i*3+2]]. *)
Definition blend3 (positions : list R) (i : nat) (target : R * R * R) (alpha : R)
  : Outcome (list R) :=
  let '(tx, ty, tz) := target in
  positions <- blend positions (i * 3) tx alpha ;;
  positions <- blend positions (i * 3 + 1) ty alpha ;;
  blend positions (i * 3 + 2) tz alpha.

(** ** constants.ts *)

Module CONFIG.
Definition treeHeight : R := 14.
Definition treeRadius : R := 4.5.
Definition particleCount : nat := Z.to_nat 40000.
Definition trunkCount : nat := Z.to_nat 6000.
End CONFIG.

(** ** Tree.tsx *)

Module Tree.
Local Open Scope R_scope.

(** The arrays filled once by the generator.  Their contents come from
    [Math.random] and are left arbitrary.  The [current] array of each
    group is the buffer its loop mutates; it is passed to the loop as
    [positions]. *)
Record NeedleData : Type := {
  needle_chaos : list R;
  needle_formed : list R
}.

Record TrunkData : Type := {
  trunk_formed : list R
}.

Record DustData : Type := {
  dust_chaos : list R;
  dust_formed : list R
}.

Definition lerpSpeed : R := 0.03.

Definition dustCount : nat := Z.to_nat 2000.

(** [isFormed ? 0 : Math.sin(t + i) * 0.05] *)
Definition needleNoise (isFormed : bool) (t : R) (i : nat) : R :=
  if isFormed then 0 else sin (t + INR i) * 0.05.

(** Body of the needle loop for particle [i]. *)
Definition needleBody (isFormed : bool) (t : R) (needleData : NeedleData)
  (positions : list R) (i : nat) : Outcome (list R) :=
  tx <- (if isFormed then at_ (needle_formed needleData) (i * 3)
         else at_ (needle_chaos needleData) (i * 3)) ;;
  ty <- (if isFormed then at_ (needle_formed needleData) (i * 3 + 1)
         else at_ (needle_chaos needleData) (i * 3 + 1)) ;;
  tz <- (if isFormed then at_ (needle_formed needleData) (i * 3 + 2)
         else at_ (needle_chaos needleData) (i * 3 + 2)) ;;
  let noise := needleNoise isFormed t i in
  blend3 positions i (tx + noise, ty + noise, tz + noise) lerpSpeed.

Definition needleLoop (count : nat) (mode : Mode) (t : R) (needleData : NeedleData)
  (positions : list R) : Outcome (list R) :=
  let isFormed := Mode_eqb mode FORMED in
  forLoop count (needleBody isFormed t needleData) positions.

(** "Update Needles": [positions] is [needleData.current]. *)
Definition updateNeedles : Mode -> R -> NeedleData -> list R -> Outcome (list R) :=
  needleLoop CONFIG.particleCount.

(** Body of the trunk loop for particle [i]. *)
Definition trunkBody (isFormed : bool) (trunkData : TrunkData)
  (positions : list R) (i : nat) : Outcome (list R) :=
  fx <- at_ (trunk_formed trunkData) (i * 3) ;;
  let tx := if isFormed then fx else fx * 5 in
  fy <- at_ (trunk_formed trunkData) (i * 3 + 1) ;;
  let ty := if isFormed then fy else fy * 0.1 in
  fz <- at_ (trunk_formed trunkData) (i * 3 + 2) ;;
  let tz := if isFormed then fz else fz * 5 in
  blend3 positions i (tx, ty, tz) lerpSpeed.

Definition trunkLoop (count : nat) (mode : Mode) (trunkData : TrunkData)
  (positions : list R) : Outcome (list R) :=
  let isFormed := Mode_eqb mode FORMED in
  forLoop count (trunkBody isFormed trunkData) positions.

(** "Update Trunk": [positions] is [trunkData.current]. *)
Definition updateTrunk : Mode -> TrunkData -> list R -> Outcome (list R) :=
  trunkLoop CONFIG.trunkCount.

(** The target [(tx, ty, tz)] of dust particle [i]. *)
Definition dustTarget (isFormed : bool) (t : R) (dustData : DustData) (i : nat)
  : Outcome (R * R * R) :=
  if isFormed then
    let angleOffset := t * 0.5 in
    baseX <- at_ (dust_formed dustData) (i * 3) ;;
    baseZ <- at_ (dust_formed dustData) (i * 3 + 2) ;;
    let tx := baseX * cos angleOffset - baseZ * sin angleOffset in
    fy <- at_ (dust_formed dustData) (i * 3 + 1) ;;
    let ty := fy + sin (t + INR i) * 0.2 in
    let tz := baseX * sin angleOffset + baseZ * cos angleOffset in
    Done (tx, ty, tz)
  else
    tx <- at_ (dust_chaos dustData) (i * 3) ;;
    ty <- at_ (dust_chaos dustData) (i * 3 + 1) ;;
    tz <- at_ (dust_chaos dustData) (i * 3 + 2) ;;
    Done (tx, ty, tz).

Definition dustBody (isFormed : bool) (t : R) (dustData : DustData)
  (positions : list R) (i : nat) : Outcome (list R) :=
  target <- dustTarget isFormed t dustData i ;;
  blend3 positions i target 0.02.

Definition dustLoop (count : nat) (mode : Mode) (t : R) (dustData : DustData)
  (positions : list R) : Outcome (list R) :=
  let isFormed := Mode_eqb mode FORMED in
  forLoop count (dustBody isFormed t dustData) positions.

(** "Update Gold Dust": [positions] is [dustData.current]. *)
Definition updateDust : Mode -> R -> DustData -> list R -> Outcome (list R) :=
  dustLoop dustCount.

(** One entry of [photoOrnaments]. *)
Record Ornament : Type := {
  position : R * R * R;
  photoIndex : Z;
  id : nat
}.

Definition ornamentCount : nat := 12.

Definition ornamentAt (photosLength : Z) (i : nat) : Outcome Ornament :=
  let t := INR i / INR ornamentCount in
  let h := 0.2 + t * 0.6 in
  let y := h * CONFIG.treeHeight - CONFIG.treeHeight / 2 in
  let r := ((1 - h) * CONFIG.treeRadius) * 0.8 in
  let angle := t * PI * 4 in
  let x := cos angle * r in
  let z := sin angle * r in
  index <- jsRem (Z.of_nat i) photosLength ;;
  Done {| position := (x, y, z); photoIndex := index; id := i |}.

(** The [useMemo] that builds [photoOrnaments]. *)
Definition photoOrnaments (photos : list string) : Outcome (list Ornament) :=
  if (Scene.len photos =? 0)%Z then Done []
  else mapM (ornamentAt (Scene.len photos)) (seq 0 ornamentCount).

(** [photoOrnaments.map(o => ...)]: the url handed to each ornament,
    [None] standing for the [null] element. *)
Definition ornamentUrl (photos : list string) (o : Ornament)
  : Outcome (option string) :=
  if (Scene.len photos =? 0)%Z then Done None
  else
    index <- jsRem (photoIndex o) (Scene.len photos) ;;
    url <- atZ photos index ;;
    Done (Some url).

Definition ornamentUrls (photos : list string) (ornaments : list Ornament)
  : Outcome (list (option string)) :=
  mapM (ornamentUrl photos) ornaments.

End Tree.

(** ** Atmosphere.tsx *)

Module Atmosphere.
Local Open Scope R_scope.

Record InstanceConfig : Type := { count : nat; size : R; weight : R }.

Definition gifts : InstanceConfig := {| count := 45; size := 0.35; weight := 0.02 |}.
Definition balls : InstanceConfig := {| count := 90; size := 0.25; weight := 0.05 |}.
Definition lights : InstanceConfig := {| count := 150; size := 0.08; weight := 0.15 |}.

(** The position arrays of one ornament group; [current] is mutated
    by [animateGroup] and is passed separately. *)
Record GroupData : Type := {
  formed : list R;
  chaos : list R
}.

(** Target selection and "Physics Lerp" for instance [i]. *)
Definition animateBody (isFormed : bool) (groupData : GroupData)
  (config : InstanceConfig) (current : list R) (i : nat) : Outcome (list R) :=
  let ix3 := (i * 3)%nat in
  targetX <- (if isFormed then at_ (formed groupData) ix3
              else at_ (chaos groupData) ix3) ;;
  targetY <- (if isFormed then at_ (formed groupData) (ix3 + 1)
              else at_ (chaos groupData) (ix3 + 1)) ;;
  targetZ <- (if isFormed then at_ (formed groupData) (ix3 + 2)
              else at_ (chaos groupData) (ix3 + 2)) ;;
  let lerpFactor := weight config in
  blend3 current i (targetX, targetY, targetZ) lerpFactor.

(** The part of [animateGroup] that writes [groupData.current].  The
    rest of the loop body (hover offset, rotation, scale) only fills
    the instance matrix handed to the renderer. *)
Definition animateGroup (mode : Mode) (groupData : GroupData)
  (config : InstanceConfig) (current : list R) : Outcome (list R) :=
  let isFormed := Mode_eqb mode FORMED in
  forLoop (count config) (animateBody isFormed groupData config) current.

End Atmosphere.


(** ** Vocabulary of the properties *)

Module Gesture.
Import HandController.

(** Keypoint [i] of a hand that has it. *)
Definition keypoint (landmarks : list Landmark) (i : nat) : Landmark :=
  nth i landmarks {| x := 0; y := 0; z := 0 |}.

(** A detection result whose first hand is [landmarks], with all 21
    keypoints. *)
Definition hand (d : Detection) (landmarks : list Landmark) : Prop :=
  (exists rest, result_landmarks d = landmarks :: rest)
  /\ (21 <= List.length landmarks)%nat.

(** The (tip, proximal joint) keypoints of index, middle, ring, pinky. *)
Definition fingerJoints : list (nat * nat) :=
  [(8, 6); (12, 10); (16, 14); (20, 18)]%nat.

(** The tip lies above the joint on screen: its [y] is smaller. *)
Definition tipAbove (landmarks : list Landmark) (tip pip : nat) : Prop :=
  (y (keypoint landmarks tip) < y (keypoint landmarks pip))%Q.

Definition tipAbove_dec (landmarks : list Landmark) (joint : nat * nat) : bool :=
  if Qlt_le_dec (y (keypoint landmarks (fst joint)))
                (y (keypoint landmarks (snd joint)))
  then true else false.

(** The boolean computed by [isExtended] on a complete hand. *)
Definition ext (landmarks : list Landmark) (tip pip : nat) : bool :=
  Qltb (y (keypoint landmarks tip)) (y (keypoint landmarks pip)).

(** How many of the four fingers are extended. *)
Definition extendedFingers (landmarks : list Landmark) : nat :=
  List.length (filter (tipAbove_dec landmarks) fingerJoints).

(** Index and middle extended, ring and pinky not. *)
Definition victoryPose (landmarks : list Landmark) : Prop :=
  tipAbove landmarks 8 6 /\ tipAbove landmarks 12 10
  /\ ~ tipAbove landmarks 16 14 /\ ~ tipAbove landmarks 20 18.

(** The arguments of the [setTreeState] calls, in order. *)
Fixpoint treeStateCalls (calls : list Call) : list Mode :=
  match calls with
  | [] => []
  | setTreeState m :: cs => m :: treeStateCalls cs
  | _ :: cs => treeStateCalls cs
  end.

(** The arguments of the [onSwipe] calls, in order. *)
Fixpoint swipeCalls (calls : list Call) : list Direction.t :=
  match calls with
  | [] => []
  | onSwipe dir :: cs => dir :: swipeCalls cs
  | _ :: cs => swipeCalls cs
  end.

(** Whether [setFocusMode(true)] is among the calls. *)
Fixpoint focusRequested (calls : list Call) : bool :=
  match calls with
  | [] => false
  | setFocusMode true :: _ => true
  | _ :: cs => focusRequested cs
  end.

(** The arguments of the [setFocusMode] calls, in order. *)
Fixpoint focusCalls (calls : list Call) : list bool :=
  match calls with
  | [] => []
  | setFocusMode b :: cs => b :: focusCalls cs
  | _ :: cs => focusCalls cs
  end.

(** The last element of a list of written values, or the old value. *)
Definition lastOr {A : Type} (writes : list A) (old : A) : A :=
  fold_left (fun _ v => v) writes old.

(** The controller run over successive detection results, keeping the
    calls of each frame. *)
Fixpoint frames (onSwipeGiven : bool) (refs : Refs) (ds : list Detection)
  : Outcome (Refs * list (list Call)) :=
  match ds with
  | [] => Done (refs, [])
  | d :: ds' =>
      r <- useFrame onSwipeGiven refs d ;;
      rs <- frames onSwipeGiven (fst r) ds' ;;
      Done (fst rs, snd r :: snd rs)
  end.

End Gesture.

Module Engine.
Local Open Scope R_scope.

(** Component [k] (0, 1 or 2 for x, y, z) of a triple. *)
Definition axis (k : nat) (t : R * R * R) : R :=
  match k with
  | O => fst (fst t)
  | S O => snd (fst t)
  | _ => snd t
  end.

(** [m] successive ticks, tick number [k] being the function [tick k]
    (it may read the clock of that frame). *)
Fixpoint ticks (tick : nat -> list R -> Outcome (list R)) (m : nat)
  (positions : list R) : Outcome (list R) :=
  match m with
  | O => Done positions
  | S m' => p <- ticks tick m' positions ;; tick m' p
  end.

(** Distance between entry [j] of a buffer and its target value. *)
Definition dist (positions : list R) (target : nat -> R) (j : nat) : R :=
  Rabs (nth j positions 0 - target j).

(** A run of ticks settles on [target] over the first [size] entries:
    from each tick to the next no distance grows and every non-zero
    distance shrinks, and for every tolerance there is a number of
    ticks after which all distances stay below it. *)
Definition settles (run : nat -> Outcome (list R)) (target : nat -> R)
  (size : nat) : Prop :=
  (forall m, exists p p',
      run m = Done p /\ run (S m) = Done p'
      /\ forall j, (j < size)%nat ->
           dist p' target j <= dist p target j
           /\ (dist p target j <> 0 -> dist p' target j < dist p target j))
  /\ (forall eps, 0 < eps ->
      exists bound : nat, forall m, (bound <= m)%nat ->
        exists p, run m = Done p
                  /\ forall j, (j < size)%nat -> dist p target j < eps).

(** The stored target array a group blends towards in a mode. *)
Definition needleTargets (mode : Mode) (d : Tree.NeedleData) : list R :=
  if Mode_eqb mode FORMED then Tree.needle_formed d else Tree.needle_chaos d.

Definition dustTargets (mode : Mode) (d : Tree.DustData) : list R :=
  if Mode_eqb mode FORMED then Tree.dust_formed d else Tree.dust_chaos d.

Definition groupTargets (mode : Mode) (d : Atmosphere.GroupData) : list R :=
  if Mode_eqb mode FORMED then Atmosphere.formed d else Atmosphere.chaos d.

(** The factor applied to the stored trunk position on axis [k]. *)
Definition trunkScale (mode : Mode) (k : nat) : R :=
  if Mode_eqb mode FORMED then 1
  else match k with S O => 0.1 | _ => 5 end.

(** Target of flat trunk entry [j]. *)
Definition trunkTarget (mode : Mode) (d : Tree.TrunkData) (j : nat) : R :=
  nth j (Tree.trunk_formed d) 0 * trunkScale mode (j mod 3).

(** The spun and bobbing target of the gold dust on axis [k] of
    particle [i] when formed, from the stored formed position. *)
Definition dustSpun (t : R) (d : Tree.DustData) (i k : nat) : R :=
  let baseX := nth (i * 3) (Tree.dust_formed d) 0 in
  let baseY := nth (i * 3 + 1) (Tree.dust_formed d) 0 in
  let baseZ := nth (i * 3 + 2) (Tree.dust_formed d) 0 in
  match k with
  | O => baseX * cos (t * 0.5) - baseZ * sin (t * 0.5)
  | S O => baseY + sin (t + INR i) * 0.2
  | _ => baseX * sin (t * 0.5) + baseZ * cos (t * 0.5)
  end.


(** Amplitude of the needle noise in a mode. *)
Definition needleNoiseBound (mode : Mode) : R :=
  match mode with FORMED => 0 | CHAOS => 0.05 end.

(** Entry [j] of an array, as a function of [j]. *)
Definition entry (a : list R) : nat -> R := fun j => nth j a 0.

(** Each of the first [size] values is at most [B] in size. *)
Definition bounded (B : R) (size : nat) (f : nat -> R) : Prop :=
  forall j, (j < size)%nat -> Rabs (f j) <= B.

(** Each of the first [size] values is a float32, as the entries of a
    [Float32Array] are. *)
Definition float32s (size : nat) (f : nat -> R) : Prop :=
  forall j, (j < size)%nat -> Float32.representable (f j).

(** A bound on the error of storing a number of size at most [v] in
    a [Float32Array]: twice the rounding to the nearest float32, which
    leaves room for the rounding of the arithmetic before the store. *)
Definition rounding (v : R) : R := 2 * Float32.eps * v + Float32.tiny.

(** A run of ticks closes in on [target] over the first [size]
    entries at the rate [1 - alpha] down to [floor]: no tick faults,
    and after [m] ticks every distance is at most [(1 - alpha)^m]
    times the distance at the start, plus [floor]. *)
Definition closesIn (run : nat -> Outcome (list R)) (target : nat -> R)
  (size : nat) (alpha floor : R) : Prop :=
  exists p0,
    run 0%nat = Done p0
    /\ forall m, exists p,
         run m = Done p
         /\ forall j, (j < size)%nat ->
              dist p target j <= (1 - alpha) ^ m * dist p0 target j + floor.

(** For every tolerance above [floor] there is a number of ticks
    after which all distances stay below it. *)
Definition comesWithin (run : nat -> Outcome (list R)) (target : nat -> R)
  (size : nat) (floor : R) : Prop :=
  forall tol, floor < tol ->
    exists bound : nat, forall m, (bound <= m)%nat ->
      exists p, run m = Done p
                /\ forall j, (j < size)%nat -> dist p target j < tol.

(** From each tick to the next no distance grows. *)
Definition neverRecedes (run : nat -> Outcome (list R)) (target : nat -> R)
  (size : nat) : Prop :=
  forall m, exists p p',
    run m = Done p /\ run (S m) = Done p'
    /\ forall j, (j < size)%nat -> dist p' target j <= dist p target j.

End Engine.

(** ** Sample inputs *)

Module Samples.
Import HandController.

Definition point (px py : Q) : Landmark := {| x := px; y := py; z := 0 |}.

(** A hand of 21 keypoints whose joints all lie at height 0.5, with
    the middle-finger base (keypoint 9) at horizontal position [cx]
    and the four fingertips (keypoints 8, 12, 16, 20) at the given
    heights. *)
Definition handWith (cx index middle ring pinky : Q) : list Landmark :=
  map (fun i : nat =>
         point (if (i =? 9)%nat then cx else 0.5)
               (if (i =? 8)%nat then index
                else if (i =? 12)%nat then middle
                else if (i =? 16)%nat then ring
                else if (i =? 20)%nat then pinky
                else 0.5))
      (seq 0 21).

Definition fist : list Landmark := handWith 0.5 0.8 0.8 0.8 0.8.
Definition openHand : list Landmark := handWith 0.5 0.2 0.2 0.2 0.2.
Definition victory (cx : Q) : list Landmark := handWith cx 0.2 0.2 0.8 0.8.

(** A detection result with one hand, both clock readings being [now]. *)
Definition frame (landmarks : list Landmark) (now : Z) : Detection :=
  {| result_landmarks := [landmarks]; nowVictory := now; nowSwipe := now |}.

(** The system after a first victory frame at clock 1000. *)
Definition focused : Scene.System :=
  match Scene.step Scene.initialSystem (Scene.Frame (frame (victory 0.5) 1000)) with
  | Done sys => sys
  | Faulted _ => Scene.initialSystem
  end.

(** Stored formed position of dust particle [i] as the generator
    computes and stores it when [Math.random()] returns 0 for the
    height: [h = 0], [y = -7], [radius = 4.5 * 1.5],
    [angle = i * 0.1]. *)
Definition dustFormedAt (i : nat) : list R :=
  [Float32.fround (6.75 * cos (INR i * 0.1)); -7;
   Float32.fround (6.75 * sin (INR i * 0.1))]%R.

(** Gold dust whose particle 0 is scattered to the very point where
    it is formed, the other particles being scattered to the origin. *)
Definition spinningDust : Tree.DustData :=
  {| Tree.dust_chaos := [6.75; -7; 0]%R ++ repeat 0%R (3 * (Tree.dustCount - 1));
     Tree.dust_formed := flat_map dustFormedAt (seq 0 Tree.dustCount) |}.

(** Needles all formed at the point the generator gives for [h = 0],
    [angle = 0] and a jitter factor of 1, and scattered to the origin. *)
Definition restingNeedles : Tree.NeedleData :=
  {| Tree.needle_chaos := repeat 0%R (3 * CONFIG.particleCount);
     Tree.needle_formed :=
       flat_map (fun _ : nat => [4.5; -7; 0]%R) (seq 0 CONFIG.particleCount) |}.

(** One needle with its two stored positions. *)
Definition oneNeedle : Tree.NeedleData :=
  {| Tree.needle_chaos := [4; 5; 6]%R; Tree.needle_formed := [1; 2; 3]%R |}.

End Samples.

(** ** Further parts of Scene.tsx and Tree.tsx driven by the scene state *)

Module View.
Import HandController.

(** [THREE.MathUtils.lerp] on the rational numbers of the controller. *)
Definition lerp (x y t : Q) : Q := ((1 - t) * x + t * y)%Q.

(** [handleZoom]: [cameraZ] is [cameraRef.current.position.z], or
    [None] while the ref is not attached. *)
Definition handleZoom (cameraZ : option Q) (delta : Q) : option Q :=
  match cameraZ with
  | Some z =>
      let targetZ := (18 + delta * 10)%Q in
      Some (lerp z targetZ 0.05)
  | None => None
  end.

(** [CONFIG.cameraPosition[2]] *)
Definition initialCameraZ : Q := 18.

(** The camera after the [setCameraZoom] calls of one frame. *)
Fixpoint zoomCalls (cameraZ : option Q) (calls : list Call) : option Q :=
  match calls with
  | [] => cameraZ
  | setCameraZoom delta :: cs => zoomCalls (handleZoom cameraZ delta) cs
  | _ :: cs => zoomCalls cameraZ cs
  end.

(** The camera after the calls of successive frames. *)
Definition zoomFrames (cameraZ : option Q) (outs : list (list Call)) : option Q :=
  fold_left zoomCalls outs cameraZ.

(** The frame callback of [FocusedPhotoOverlay]:
    [scale.setScalar(lerp(scale.x, active ? 1 : 0, 0.1))]. *)
Definition overlayScale (active : bool) (scale : Q) : Q :=
  let targetScale : Q := if active then 1 else 0 in
  lerp scale targetScale 0.1.

(** [!active && (!meshRef.current || meshRef.current.scale.x < 0.01)]:
    the overlay renders nothing.  [None] is the unattached ref. *)
Definition overlayHidden (active : bool) (scale : option Q) : bool :=
  negb active
  && match scale with
     | None => true
     | Some s => Qltb s 0.01
     end.

(** The rotation of the tree group in the frame callback of
    [LuxuryTree]; [Scene] passes [rotation + 0.2] as [rotationSpeed]
    and [focusMode] as [focused]. *)
Definition treeRotation (focused : bool) (rotationSpeed : Q) (rotationY : Q) : Q :=
  if negb focused then (rotationY + rotationSpeed * 0.1)%Q
  else lerp rotationY 0 0.05.

Definition rotationSpeed (s : Scene.State) : Q := (Scene.rotation s + 0.2)%Q.

(** A run of events. *)
Fixpoint run (sys : Scene.System) (es : list Scene.Event) : Outcome Scene.System :=
  match es with
  | [] => Done sys
  | e :: es' => sys' <- Scene.step sys e ;; run sys' es'
  end.

(** Whether a detection result carries a hand. *)
Definition hasHand (d : Detection) : bool :=
  match result_landmarks d with
  | [] => false
  | _ :: _ => true
  end.

(** The detection result shows a hand whose middle-finger base lies
    inside the image, as normalised coordinates do. *)
Definition normalised (landmarks : list Landmark) : Prop :=
  (0 <= x (Gesture.keypoint landmarks 9) <= 1)%Q
  /\ (0 <= y (Gesture.keypoint landmarks 9) <= 1)%Q.

(** Index [i] designates one of [n] photos, or is 0 without photos. *)
Definition validIndex (i n : Z) : Prop :=
  (0 <= i)%Z /\ ((i < n)%Z \/ (n = 0 /\ i = 0)%Z).

Definition indexValid (sys : Scene.System) : Prop :=
  validIndex (Scene.slideshowIndex (Scene.scene sys))
             (Scene.len (Scene.photos sys)).

End View.


(** ** [Math.random] and the numeric built-ins of the generators *)

Module Random.
Local Open Scope R_scope.

(** Code that calls [Math.random()]: it is given the sequence [rand]
    of the numbers the generator hands out and the number of calls
    made so far, and returns its result with the new number of calls.
    It may also fault on an array read. *)
Definition Gen (A : Type) : Type := (nat -> R) -> nat -> Outcome (A * nat).

Definition ret {A : Type} (a : A) : Gen A := fun _ k => Done (a, k).

Definition bindG {A B : Type} (m : Gen A) (f : A -> Gen B) : Gen B :=
  fun rand k =>
    match m rand k with
    | Done (a, k') => f a rand k'
    | Faulted e => Faulted e
    end.

(** [Math.random()] *)
Definition random : Gen R := fun rand k => Done (rand k, S k).

(** An array read inside a generator. *)
Definition read {A : Type} (m : Outcome A) : Gen A :=
  fun _ k =>
    match m with
    | Done a => Done (a, k)
    | Faulted e => Faulted e
    end.

(** [Math.random] returns a number from 0 (included) to 1 (excluded). *)
Definition inUnit (rand : nat -> R) : Prop := forall k, 0 <= rand k < 1.

End Random.

Notation "x <~ m ;; k" := (Random.bindG m (fun x => k))
  (at level 61, m at next level, right associativity).

Module Random_loops.
Import Random.

(** [for (let i = 0; i < n; i++) body] in generator code. *)
Fixpoint forEachG {A S : Type} (body : S -> A -> Gen S) (l : list A) (s : S)
  : Gen S :=
  match l with
  | [] => ret s
  | a :: l' => s' <~ body s a ;; forEachG body l' s'
  end.

Definition forLoopG {S : Type} (n : nat) (body : S -> nat -> Gen S) (s : S)
  : Gen S :=
  forEachG body (seq 0 n) s.

End Random_loops.

Module JsMath.
Local Open Scope R_scope.

(** [Math.cbrt] *)
Definition cbrt (x : R) : R :=
  match total_order_T 0 x with
  | inleft (left _) => exp (ln x / 3)
  | inleft (right _) => 0
  | inright _ => - exp (ln (- x) / 3)
  end.

(** [Math.floor] *)
Definition floor (x : R) : Z := Int_part x.

(** [Math.trunc] *)
Definition trunc (x : R) : Z :=
  if Rle_dec 0 x then Int_part x else (- Int_part (- x))%Z.

(** [a % b] on numbers: the sign follows the dividend. *)
Definition rem (a b : R) : R := a - b * IZR (trunc (a / b)).

End JsMath.

(** Entries [i*3 .. i*3+2] of a flat position array. *)
Definition block (a : list R) (i : nat) : R * R * R :=
  (nth (i * 3) a 0%R, nth (i * 3 + 1) a 0%R, nth (i * 3 + 2) a 0%R).

(** [new Float32Array(n)] *)
Definition Float32Array (n : nat) : list R := repeat 0%R n.

(** ** Tree.tsx: "Generate Particles" *)

Module TreeGenerator.
Import Random Random_loops.
Local Open Scope R_scope.

(** [nData] *)
Record NeedleArrays : Type := {
  n_chaos : list R;
  n_formed : list R;
  n_current : list R;
  n_random : list R
}.

(** [tData] *)
Record TrunkArrays : Type := {
  t_formed : list R;
  t_current : list R
}.

(** [dData] *)
Record DustArrays : Type := {
  d_chaos : list R;
  d_formed : list R;
  d_current : list R
}.

(** Body of the needle loop for particle [i]. *)
Definition needleBody (nData : NeedleArrays) (i : nat) : Gen NeedleArrays :=
  u <~ random ;;
  let r := 8 * JsMath.cbrt u in
  u <~ random ;;
  let theta := u * 2 * PI in
  u <~ random ;;
  let phi := acos (2 * u - 1) in
  let chaos := Float32.write (n_chaos nData) (i * 3) (r * sin phi * cos theta) in
  let chaos := Float32.write chaos (i * 3 + 1) (r * sin phi * sin theta) in
  let chaos := Float32.write chaos (i * 3 + 2) (r * cos phi) in
  u <~ random ;;
  let h := u * CONFIG.treeHeight in
  let y := h - CONFIG.treeHeight / 2 in
  let tierFactor := JsMath.rem h 2 / 2 in
  let radius := (1 - h / CONFIG.treeHeight) * CONFIG.treeRadius in
  let radius := radius + tierFactor * 0.5 in
  u <~ random ;;
  let radius := radius * (0.8 + u * 0.4) in
  u <~ random ;;
  let angle := u * PI * 2 in
  let formed := Float32.write (n_formed nData) (i * 3) (cos angle * radius) in
  let formed := Float32.write formed (i * 3 + 1) y in
  let formed := Float32.write formed (i * 3 + 2) (sin angle * radius) in
  c <~ read (at_ chaos (i * 3)) ;;
  let current := Float32.write (n_current nData) (i * 3) c in
  c <~ read (at_ chaos (i * 3 + 1)) ;;
  let current := Float32.write current (i * 3 + 1) c in
  c <~ read (at_ chaos (i * 3 + 2)) ;;
  let current := Float32.write current (i * 3 + 2) c in
  u <~ random ;;
  ret {| n_chaos := chaos; n_formed := formed; n_current := current;
         n_random := Float32.write (n_random nData) i u |}.

Definition needles (count : nat) : Gen NeedleArrays :=
  let nData := {| n_chaos := Float32Array (count * 3);
                  n_formed := Float32Array (count * 3);
                  n_current := Float32Array (count * 3);
                  n_random := Float32Array count |} in
  forLoopG count needleBody nData.

(** Body of the trunk loop for particle [i]. *)
Definition trunkBody (tData : TrunkArrays) (i : nat) : Gen TrunkArrays :=
  u <~ random ;;
  let h := u * CONFIG.treeHeight in
  let y := h - CONFIG.treeHeight / 2 in
  let r := 0.4 * (1 - h / CONFIG.treeHeight) + 0.1 in
  let r := if Rlt_dec y (- CONFIG.treeHeight / 2 + 2)
           then r * (1 + (2 - (y + CONFIG.treeHeight / 2)) * 0.5)
           else r in
  u <~ random ;;
  let angle := u * PI * 2 in
  let formed := Float32.write (t_formed tData) (i * 3) (cos angle * r) in
  let formed := Float32.write formed (i * 3 + 1) y in
  let formed := Float32.write formed (i * 3 + 2) (sin angle * r) in
  u <~ random ;;
  let current := Float32.write (t_current tData) (i * 3) ((u - 0.5) * 2) in
  u <~ random ;;
  let current := Float32.write current (i * 3 + 1) ((u - 0.5) * 10) in
  u <~ random ;;
  let current := Float32.write current (i * 3 + 2) ((u - 0.5) * 2) in
  ret {| t_formed := formed; t_current := current |}.

Definition trunk (count : nat) : Gen TrunkArrays :=
  let tData := {| t_formed := Float32Array (count * 3);
                  t_current := Float32Array (count * 3) |} in
  forLoopG count trunkBody tData.

(** Body of the gold dust loop for particle [i]. *)
Definition dustBody (dData : DustArrays) (i : nat) : Gen DustArrays :=
  u <~ random ;;
  let r := 10 * JsMath.cbrt u in
  u <~ random ;;
  let theta := u * 2 * PI in
  u <~ random ;;
  let phi := acos (2 * u - 1) in
  let chaos := Float32.write (d_chaos dData) (i * 3) (r * sin phi * cos theta) in
  let chaos := Float32.write chaos (i * 3 + 1) (r * sin phi * sin theta) in
  let chaos := Float32.write chaos (i * 3 + 2) (r * cos phi) in
  u <~ random ;;
  let h := u * CONFIG.treeHeight in
  let y := h - CONFIG.treeHeight / 2 in
  let radius := ((1 - h / CONFIG.treeHeight) * CONFIG.treeRadius) * 1.5 in
  let angle := INR i * 0.1 in
  let formed := Float32.write (d_formed dData) (i * 3) (cos angle * radius) in
  let formed := Float32.write formed (i * 3 + 1) y in
  let formed := Float32.write formed (i * 3 + 2) (sin angle * radius) in
  c <~ read (at_ chaos (i * 3)) ;;
  let current := Float32.write (d_current dData) (i * 3) c in
  c <~ read (at_ chaos (i * 3 + 1)) ;;
  let current := Float32.write current (i * 3 + 1) c in
  c <~ read (at_ chaos (i * 3 + 2)) ;;
  let current := Float32.write current (i * 3 + 2) c in
  ret {| d_chaos := chaos; d_formed := formed; d_current := current |}.

Definition dust (count : nat) : Gen DustArrays :=
  let dData := {| d_chaos := Float32Array (count * 3);
                  d_formed := Float32Array (count * 3);
                  d_current := Float32Array (count * 3) |} in
  forLoopG count dustBody dData.

(** The whole memoised generator: needles, then trunk, then dust. *)
Definition generate : Gen (NeedleArrays * TrunkArrays * DustArrays) :=
  nData <~ needles CONFIG.particleCount ;;
  tData <~ trunk CONFIG.trunkCount ;;
  dData <~ dust Tree.dustCount ;;
  ret (nData, tData, dData).

(** The parts of the generated arrays the frame loops read as data;
    the [current] arrays are the buffers they mutate. *)
Definition needleData (nData : NeedleArrays) : Tree.NeedleData :=
  {| Tree.needle_chaos := n_chaos nData; Tree.needle_formed := n_formed nData |}.

Definition trunkData (tData : TrunkArrays) : Tree.TrunkData :=
  {| Tree.trunk_formed := t_formed tData |}.

Definition dustData (dData : DustArrays) : Tree.DustData :=
  {| Tree.dust_chaos := d_chaos dData; Tree.dust_formed := d_formed dData |}.

(** A point within [radius] of the origin. *)
Definition inBall (radius : R) (p : R * R * R) : Prop :=
  let '(px, py, pz) := p in px * px + py * py + pz * pz <= radius * radius.

(** Distance of a point from the vertical axis. *)
Definition axisDistance (p : R * R * R) : R :=
  let '(px, _, pz) := p in sqrt (px * px + pz * pz).

(** A point at height [py] between the bottom and the top of the tree
    whose distance from the axis is between [lo py] and [hi py], up
    to [slack]. *)
Definition inShell (slack : R) (lo hi : R -> R) (p : R * R * R) : Prop :=
  let '(_, py, _) := p in
  - (CONFIG.treeHeight / 2) <= py <= CONFIG.treeHeight / 2
  /\ lo py - slack <= axisDistance p <= hi py + slack.

(** Radius of the cone of the tree at height [py]. *)
Definition coneRadius (py : R) : R :=
  (1 - (py + CONFIG.treeHeight / 2) / CONFIG.treeHeight) * CONFIG.treeRadius.

End TreeGenerator.

(** ** Atmosphere.tsx: the ribbon path and the ornament data *)

Module RIBBON_PARAMS.
Local Open Scope R_scope.
Definition particleCount : nat := Z.to_nat 8000.
Definition turns : R := 6.
Definition heightSpread : R := 14.
Definition radiusBase : R := 5.0.
Definition radiusTip : R := 0.2.
End RIBBON_PARAMS.

Module AtmosphereGenerator.
Import Random Random_loops.
Local Open Scope R_scope.

Definition getRibbonPoint (t : R) (isRibbonA : bool) : R * R * R :=
  let direction : R := if isRibbonA then 1 else -1 in
  let angle := (t * PI * (RIBBON_PARAMS.turns * 2) * direction)
               + (if isRibbonA then 0 else PI) in
  let heightPercent := t in
  let radius := (RIBBON_PARAMS.radiusBase * (1 - heightPercent))
                + RIBBON_PARAMS.radiusTip in
  let y := (heightPercent * RIBBON_PARAMS.heightSpread)
           - (RIBBON_PARAMS.heightSpread / 2) in
  (cos angle * radius, y, sin angle * radius).

Definition getSpiralPos (i total : nat) : Gen (R * R * R) :=
  let isRibbonA := (i mod 2 =? 0)%nat in
  let t := INR i / INR total in
  let '(px, py, pz) := getRibbonPoint t isRibbonA in
  u <~ random ;;
  let jitterX := (u - 0.5) * 0.2 in
  u <~ random ;;
  let jitterY := (u - 0.5) * 0.2 in
  u <~ random ;;
  let jitterZ := (u - 0.5) * 0.2 in
  ret (px + jitterX, py + jitterY, pz + jitterZ).

Definition getChaosPos (originalPos : R * R * R) : Gen (R * R * R) :=
  let '(px, py, pz) := originalPos in
  u <~ random ;;
  let s := 2.5 + u * 2 in
  u <~ random ;;
  let ox := (u - 0.5) * 5 in
  u <~ random ;;
  let oy := (u - 0.5) * 5 in
  u <~ random ;;
  let oz := (u - 0.5) * 5 in
  ret (px * s + ox, py * s + oy, pz * s + oz).

(** The ribbon particles: [positions] and [randoms] of [ribbonGeo]. *)
Definition ribbonBody (count : nat) (geo : list R * list R) (i : nat)
  : Gen (list R * list R) :=
  let '(positions, randoms) := geo in
  let t := INR i / INR count in
  let isRibbonA := (i mod 2 =? 0)%nat in
  let '(px, py, pz) := getRibbonPoint t isRibbonA in
  let jitter := 0.1 in
  u <~ random ;;
  let positions := Float32.write positions (i * 3) (px + (u - 0.5) * jitter) in
  u <~ random ;;
  let positions := Float32.write positions (i * 3 + 1) (py + (u - 0.5) * jitter) in
  u <~ random ;;
  let positions := Float32.write positions (i * 3 + 2) (pz + (u - 0.5) * jitter) in
  u <~ random ;;
  ret (positions, Float32.write randoms i u).

Definition ribbon (count : nat) : Gen (list R * list R) :=
  forLoopG count (ribbonBody count)
    (Float32Array (count * 3), Float32Array count).

Definition ribbonGeo : Gen (list R * list R) := ribbon RIBBON_PARAMS.particleCount.

Inductive Kind : Set := gift | ball | light.

(** The colours an ornament can get; [white] is what [THREE.Color]
    is when built from a missing palette entry. *)
Inductive Colour : Set := red | gold | white.

Definition palette : list Colour := [red; red; red; red; gold; gold].

(** The arrays of one ornament group.  Entry [i] of [g_colors] stands
    for the three channels written to [colors[i*3 .. i*3+2]]. *)
Record GroupArrays : Type := {
  g_formed : list R;
  g_chaos : list R;
  g_current : list R;
  g_rotations : list R;
  g_rotationSpeeds : list R;
  g_colors : list Colour;
  g_scales : list R
}.

(** Body of the loop of [generateData] for instance [i]. *)
Definition generateBody (count : nat) (type : Kind) (g : GroupArrays) (i : nat)
  : Gen GroupArrays :=
  targetPos <~ getSpiralPos i count ;;
  chaosPos <~ getChaosPos targetPos ;;
  let '(tx, ty, tz) := targetPos in
  let '(cx, cy, cz) := chaosPos in
  let formed := Float32.write (g_formed g) (i * 3) tx in
  let formed := Float32.write formed (i * 3 + 1) ty in
  let formed := Float32.write formed (i * 3 + 2) tz in
  let chaos := Float32.write (g_chaos g) (i * 3) cx in
  let chaos := Float32.write chaos (i * 3 + 1) cy in
  let chaos := Float32.write chaos (i * 3 + 2) cz in
  let current := Float32.write (g_current g) (i * 3) tx in
  let current := Float32.write current (i * 3 + 1) ty in
  let current := Float32.write current (i * 3 + 2) tz in
  u <~ random ;;
  let rotations := Float32.write (g_rotations g) (i * 3) (u * PI) in
  u <~ random ;;
  let rotations := Float32.write rotations (i * 3 + 1) (u * PI) in
  u <~ random ;;
  let rotations := Float32.write rotations (i * 3 + 2) (u * PI) in
  u <~ random ;;
  let rotationSpeeds := Float32.write (g_rotationSpeeds g) (i * 3) ((u - 0.5) * 0.02) in
  u <~ random ;;
  let rotationSpeeds := Float32.write rotationSpeeds (i * 3 + 1) ((u - 0.5) * 0.02) in
  u <~ random ;;
  let rotationSpeeds := Float32.write rotationSpeeds (i * 3 + 2) ((u - 0.5) * 0.02) in
  u <~ random ;;
  let scales := Float32.write (g_scales g) i (0.5 + u * 0.8) in
  u <~ random ;;
  let index := JsMath.floor (u * INR (List.length palette)) in
  let c := if (index <? 0)%Z then white
           else nth (Z.to_nat index) palette white in
  let c := match type with light => gold | _ => c end in
  ret {| g_formed := formed; g_chaos := chaos; g_current := current;
         g_rotations := rotations; g_rotationSpeeds := rotationSpeeds;
         g_colors := store (g_colors g) i c; g_scales := scales |}.

Definition generateData (count : nat) (type : Kind) : Gen GroupArrays :=
  let g := {| g_formed := Float32Array (count * 3);
              g_chaos := Float32Array (count * 3);
              g_current := Float32Array (count * 3);
              g_rotations := Float32Array (count * 3);
              g_rotationSpeeds := Float32Array (count * 3);
              g_colors := repeat white count;
              g_scales := Float32Array count |} in
  forLoopG count (generateBody count type) g.

(** [data]: the three groups, generated in this order. *)
Definition data : Gen (GroupArrays * GroupArrays * GroupArrays) :=
  gifts <~ generateData (Atmosphere.count Atmosphere.gifts) gift ;;
  balls <~ generateData (Atmosphere.count Atmosphere.balls) ball ;;
  lights <~ generateData (Atmosphere.count Atmosphere.lights) light ;;
  ret (gifts, balls, lights).

(** The arrays [animateGroup] reads as targets. *)
Definition groupData (g : GroupArrays) : Atmosphere.GroupData :=
  {| Atmosphere.formed := g_formed g; Atmosphere.chaos := g_chaos g |}.

(** Componentwise distance of two points is at most [d]. *)
Definition within (d : R) (p q : R * R * R) : Prop :=
  let '(px, py, pz) := p in
  let '(qx, qy, qz) := q in
  Rabs (px - qx) <= d /\ Rabs (py - qy) <= d /\ Rabs (pz - qz) <= d.

(** What [generateData] guarantees for instance [i] when the numbers
    drawn are in the range of [Math.random]; [u] is the last number
    drawn for the instance.  The bounds leave room for the rounding
    of the arithmetic and of the stores. *)
Definition ornamentOk (count : nat) (type : Kind) (g : GroupArrays)
  (i : nat) (u : R) : Prop :=
  within 0.100001 (block (g_formed g) i)
    (getRibbonPoint (INR i / INR count) (i mod 2 =? 0)%nat)
  /\ (exists s, 2.5 <= s <= 4.5
        /\ within 2.50001 (block (g_chaos g) i)
             (let '(fx, fy, fz) := block (g_formed g) i in
              (fx * s, fy * s, fz * s)))
  /\ (forall k, (k < 3)%nat ->
        0 <= nth (i * 3 + k) (g_rotations g) 0 <= PI + 0.000001
        /\ -0.010001 <= nth (i * 3 + k) (g_rotationSpeeds g) 0 <= 0.010001)
  /\ 0.5 <= nth i (g_scales g) 0 <= 1.300001
  /\ match type with
     | light => nth i (g_colors g) white = gold
     | _ => (u <= 0.666 -> nth i (g_colors g) white = red)
            /\ (0.667 <= u -> nth i (g_colors g) white = gold)
            /\ (nth i (g_colors g) white = red
                \/ nth i (g_colors g) white = gold)
     end.

End AtmosphereGenerator.

(** ** Atmosphere.tsx: the instance transforms *)

Module AtmosphereFrame.
Import Atmosphere.
Local Open Scope R_scope.

(** The part of a [THREE.Object3D] the loop sets; [updateMatrix]
    composes the matrix from exactly these three. *)
Record Object3D : Type := {
  position : R * R * R;
  rotation : R * R * R;
  scale : R * R * R
}.

(** [new THREE.Object3D()] *)
Definition newObject3D : Object3D :=
  {| position := (0, 0, 0); rotation := (0, 0, 0); scale := (1, 1, 1) |}.

(** [v.setScalar(s)] *)
Definition setScalar (s : R) : R * R * R := (s, s, s).

(** The arrays of a group that the loop only reads. *)
Record Fixed : Type := {
  data : GroupData;
  rotationSpeeds : list R;
  scales : list R
}.

(** What [animateGroup] mutates: the group's [current] and [rotations]
    arrays, the module-level [tempObj] shared by all groups, and the
    instance matrices of the mesh, entry [i] being the transform
    [tempObj] had when [setMatrixAt(i, tempObj.matrix)] ran. *)
Record Frame : Type := {
  current : list R;
  rotations : list R;
  tempObj : Object3D;
  matrices : list Object3D
}.

(** [Math.sin(time * 2 + i) * hoverStrength] *)
Definition hover (isLight : bool) (time : R) (i : nat) : R :=
  let hoverStrength := if isLight then 0.05 else 0.01 in
  sin (time * 2 + INR i) * hoverStrength.

(** Body of the loop of [animateGroup] for instance [i]. *)
Definition instanceBody (isFormed : bool) (time : R) (groupData : Fixed)
  (config : InstanceConfig) (isLight : bool) (s : Frame) (i : nat)
  : Outcome Frame :=
  let ix3 := (i * 3)%nat in
  current <- animateBody isFormed (data groupData) config (current s) i ;;
  let yOffset := hover isLight time i in
  cx <- at_ current ix3 ;;
  cy <- at_ current (ix3 + 1) ;;
  cz <- at_ current (ix3 + 2) ;;
  let pos := (cx, cy + yOffset, cz) in
  r <- (if negb isLight then
          r0 <- at_ (rotations s) ix3 ;;
          s0 <- at_ (rotationSpeeds groupData) ix3 ;;
          let rotations := Float32.write (rotations s) ix3 (r0 + s0) in
          r1 <- at_ rotations (ix3 + 1) ;;
          s1 <- at_ (rotationSpeeds groupData) (ix3 + 1) ;;
          let rotations := Float32.write rotations (ix3 + 1) (r1 + s1) in
          a <- at_ rotations ix3 ;;
          b <- at_ rotations (ix3 + 1) ;;
          c <- at_ rotations (ix3 + 2) ;;
          Done (rotations, (a, b, c))
        else Done (rotations s, rotation (tempObj s))) ;;
  sc <- at_ (scales groupData) i ;;
  let scl := setScalar (sc * size config) in
  let scl := if isLight
             then setScalar (size config * (0.8 + sin (time * 5 + INR i) * 0.3))
             else scl in
  let obj := {| position := pos; rotation := snd r; scale := scl |} in
  Done {| current := current; rotations := fst r; tempObj := obj;
          matrices := store (matrices s) i obj |}.

Definition animateGroup (mode : Mode) (time : R) (groupData : Fixed)
  (config : InstanceConfig) (isLight : bool) (s : Frame) : Outcome Frame :=
  let isFormed := Mode_eqb mode FORMED in
  forLoop (count config) (instanceBody isFormed time groupData config isLight) s.

(** A group handed the shared [tempObj] in its present state. *)
Definition withTemp (obj : Object3D) (s : Frame) : Frame :=
  {| current := current s; rotations := rotations s; tempObj := obj;
     matrices := matrices s |}.

(** The three calls at the end of the frame callback; [tempObj] goes
    from one to the next. *)
Definition useFrame (mode : Mode) (time : R) (giftsData ballsData lightsData : Fixed)
  (obj : Object3D) (s : Frame * Frame * Frame) : Outcome (Frame * Frame * Frame) :=
  let '(g, b, l) := s in
  g <- animateGroup mode time giftsData gifts false (withTemp obj g) ;;
  b <- animateGroup mode time ballsData balls false (withTemp (tempObj g) b) ;;
  l <- animateGroup mode time lightsData lights true (withTemp (tempObj b) l) ;;
  Done (g, b, l).

(** The arrays of a group have the sizes [generateData] and the mesh
    give them. *)
Definition fits (config : InstanceConfig) (groupData : Fixed) (s : Frame) : Prop :=
  List.length (formed (data groupData)) = (count config * 3)%nat
  /\ List.length (chaos (data groupData)) = (count config * 3)%nat
  /\ List.length (rotationSpeeds groupData) = (count config * 3)%nat
  /\ List.length (scales groupData) = count config
  /\ List.length (current s) = (count config * 3)%nat
  /\ List.length (rotations s) = (count config * 3)%nat
  /\ List.length (matrices s) = count config.

(** A group of instances all at the origin, for an instance count. *)
Definition restingGroup (n : nat) : Fixed * Frame :=
  ({| data := {| formed := repeat 0 (n * 3); chaos := repeat 0 (n * 3) |};
      rotationSpeeds := repeat 0.0078125 (n * 3);
      scales := repeat 1 n |},
   {| current := repeat 0 (n * 3); rotations := repeat 0 (n * 3);
      tempObj := newObject3D; matrices := repeat newObject3D n |}).

End AtmosphereFrame.

(** * Properties *)

(** ** Arrays and outcomes *)

Lemma at_nth {A : Type} (a : list A) (i : nat) (dflt : A) :
  (i < List.length a)%nat -> at_ a i = Done (nth i a dflt).
Proof.
  intros Hi. unfold at_.
  destruct (nth_error a i) as [v|] eqn:E.
  - now rewrite (nth_error_nth a i dflt E).
  - apply nth_error_None in E. lia.
Qed.

Lemma Qltb_lt (a b : Q) : Qltb a b = true <-> (a < b)%Q.
Proof.
  unfold Qltb. rewrite negb_true_iff, <- not_true_iff_false, Qle_bool_iff.
  split; [apply Qnot_le_lt | apply Qlt_not_le].
Qed.

Lemma Qltb_ge (a b : Q) : Qltb a b = false <-> (b <= a)%Q.
Proof.
  unfold Qltb. now rewrite negb_false_iff, Qle_bool_iff.
Qed.

(** ** The gesture classifier *)

Section Classifier.
Import HandController Gesture.

Variable onSwipeGiven : bool.
Variable refs : Refs.
Variable d : Detection.
Variable landmarks : list Landmark.
Hypothesis Hhand : hand d landmarks.

Lemma isExtended_hand (tip pip : nat) :
  (tip < 21)%nat -> (pip < 21)%nat ->
  isExtended landmarks tip pip = Done (ext landmarks tip pip).
Proof.
  intros Ht Hp. destruct Hhand as [_ Hlen].
  unfold isExtended, Gesture.ext, keypoint.
  rewrite (@at_nth _ landmarks _ {| x := 0; y := 0; z := 0 |}) by lia. simpl.
  rewrite (@at_nth _ landmarks _ {| x := 0; y := 0; z := 0 |}) by lia. reflexivity.
Qed.

Lemma ext_tipAbove (tip pip : nat) :
  ext landmarks tip pip = true <-> tipAbove landmarks tip pip.
Proof. apply Qltb_lt. Qed.

Lemma ext_tipAbove_dec (tip pip : nat) :
  tipAbove_dec landmarks (tip, pip) = ext landmarks tip pip.
Proof.
  unfold tipAbove_dec, Gesture.ext. simpl.
  destruct (Qlt_le_dec _ _) as [H|H].
  - symmetry. now apply Qltb_lt.
  - symmetry. now apply Qltb_ge.
Qed.

Lemma extendedFingers_count :
  extendedFingers landmarks =
  fingersExtendedCount (ext landmarks 8 6) (ext landmarks 12 10) (ext landmarks 16 14) (ext landmarks 20 18).
Proof.
  unfold extendedFingers, fingersExtendedCount, fingerJoints. simpl filter.
  rewrite !ext_tipAbove_dec.
  now destruct (ext landmarks 8 6), (ext landmarks 12 10), (ext landmarks 16 14), (ext landmarks 20 18).
Qed.

(** The frame callback on a complete hand never faults; its result is
    the four numbered stages applied in order. *)
Lemma useFrame_hand :
  useFrame onSwipeGiven refs d =
  let isVictory := ext landmarks 8 6 && ext landmarks 12 10 && negb (ext landmarks 16 14) && negb (ext landmarks 20 18) in
  let sel := victorySelect isVictory (nowVictory d) refs in
  let swp := swipeDetect isVictory onSwipeGiven (x (keypoint landmarks 9))
               (nowSwipe d) (fst sel) in
  Done (fst swp,
        fistOrSpread
          (fingersExtendedCount (ext landmarks 8 6) (ext landmarks 12 10) (ext landmarks 16 14) (ext landmarks 20 18))
        ++ snd sel ++ snd swp ++ movement (keypoint landmarks 9)).
Proof.
  pose proof Hhand as [[rest Hres] Hlen].
  unfold useFrame. rewrite Hres.
  rewrite (@at_nth _ landmarks _ {| x := 0; y := 0; z := 0 |}) by lia.
  cbn [bind].
  rewrite !isExtended_hand by lia. cbn [bind].
  fold (keypoint landmarks 9).
  destruct (victorySelect _ _ _) as [refs2 calls2].
  destruct (swipeDetect _ _ _ _ _) as [refs3 calls3].
  reflexivity.
Qed.

Lemma victoryPose_ext :
  victoryPose landmarks <->
  ext landmarks 8 6 && ext landmarks 12 10 && negb (ext landmarks 16 14) && negb (ext landmarks 20 18) = true.
Proof.
  unfold victoryPose. rewrite <- !ext_tipAbove.
  destruct (ext landmarks 8 6), (ext landmarks 12 10), (ext landmarks 16 14), (ext landmarks 20 18); simpl;
    intuition congruence.
Qed.

Lemma victoryPose_two_fingers :
  victoryPose landmarks -> extendedFingers landmarks = 2%nat.
Proof.
  intros Hpose. apply victoryPose_ext in Hpose.
  rewrite extendedFingers_count.
  destruct (ext landmarks 8 6), (ext landmarks 12 10),
    (ext landmarks 16 14), (ext landmarks 20 18);
    simpl in Hpose; try discriminate; reflexivity.
Qed.

End Classifier.

Section Calls.
Import HandController Gesture.

Lemma treeStateCalls_app (a b : list Call) :
  treeStateCalls (a ++ b) = treeStateCalls a ++ treeStateCalls b.
Proof.
  induction a as [|c a IH]; [reflexivity|].
  destruct c; simpl; now rewrite IH.
Qed.

Lemma swipeCalls_app (a b : list Call) :
  swipeCalls (a ++ b) = swipeCalls a ++ swipeCalls b.
Proof.
  induction a as [|c a IH]; [reflexivity|].
  destruct c; simpl; now rewrite IH.
Qed.

Lemma focusRequested_app (a b : list Call) :
  focusRequested (a ++ b) = focusRequested a || focusRequested b.
Proof.
  induction a as [|c a IH]; [reflexivity|].
  destruct c as [m|[|]|dir|q|q]; simpl; now rewrite ?IH.
Qed.

Lemma fistOrSpread_calls (n : nat) :
  treeStateCalls (fistOrSpread n) = [if (n <? 2)%nat then FORMED else CHAOS]
  /\ swipeCalls (fistOrSpread n) = []
  /\ focusRequested (fistOrSpread n) = false.
Proof. unfold fistOrSpread. now destruct (n <? 2)%nat. Qed.

Lemma victorySelect_calls (isVictory : bool) (now : Z) (refs : Refs) :
  let fire := isVictory && (800 <? now - lastVictoryTime refs)%Z in
  victorySelect isVictory now refs =
  (if fire then {| lastHandX := lastHandX refs;
                   lastSwipeTime := lastSwipeTime refs;
                   lastVictoryTime := now |} else refs,
   if fire then [setFocusMode true] else []).
Proof.
  unfold victorySelect.
  now destruct isVictory, (800 <? now - lastVictoryTime refs)%Z.
Qed.

Lemma swipeDetect_calls (isVictory given : bool) (cx : Q) (now : Z) (refs : Refs) :
  treeStateCalls (snd (swipeDetect isVictory given cx now refs)) = []
  /\ focusRequested (snd (swipeDetect isVictory given cx now refs)) = false
  /\ lastHandX (fst (swipeDetect isVictory given cx now refs)) = Some cx
  /\ lastVictoryTime (fst (swipeDetect isVictory given cx now refs))
     = lastVictoryTime refs.
Proof.
  unfold swipeDetect.
  destruct (lastHandX refs) as [last|]; [|now simpl].
  destruct (isVictory && given); [|now simpl].
  destruct (Qltb SWIPE_THRESHOLD _ && _); [|now simpl].
  now destruct (Qltb 0 _).
Qed.

Lemma movement_calls (lm9 : Landmark) :
  treeStateCalls (movement lm9) = []
  /\ swipeCalls (movement lm9) = []
  /\ focusRequested (movement lm9) = false.
Proof. now unfold movement. Qed.

(** What a frame with a complete hand tells about the tree state. *)
Lemma useFrame_treeState (given : bool) (refs : Refs) (d : Detection)
  (landmarks : list Landmark) :
  hand d landmarks ->
  exists refs' calls,
    useFrame given refs d = Done (refs', calls)
    /\ treeStateCalls calls =
       [if (extendedFingers landmarks <? 2)%nat then FORMED else CHAOS]
    /\ lastHandX refs' = Some (x (keypoint landmarks 9)).
Proof.
  intros Hhand. rewrite (useFrame_hand given refs Hhand). cbv zeta.
  set (v := ext landmarks 8 6 && _ && _ && _).
  set (sel := victorySelect v (nowVictory d) refs).
  set (swp := swipeDetect v given _ _ (fst sel)).
  eexists _, _. split; [reflexivity|].
  rewrite !treeStateCalls_app.
  destruct (swipeDetect_calls v given (x (keypoint landmarks 9)) (nowSwipe d)
              (fst sel)) as (Ht & _ & Hx & _).
  fold swp in Ht, Hx. rewrite Ht, Hx.
  destruct (movement_calls (keypoint landmarks 9)) as (-> & _ & _).
  destruct (fistOrSpread_calls
              (fingersExtendedCount (ext landmarks 8 6) (ext landmarks 12 10)
                 (ext landmarks 16 14) (ext landmarks 20 18))) as (-> & _ & _).
  rewrite <- extendedFingers_count.
  split; [|reflexivity].
  subst sel. rewrite victorySelect_calls. cbn [snd].
  now destruct (v && _).
Qed.

End Calls.

(** C3: a finger is extended exactly when the [y] of its tip keypoint
    is smaller than the [y] of its proximal joint; a frame with a hand
    calls [setTreeState('FORMED')] exactly when fewer than two of
    index, middle, ring and pinky are extended and
    [setTreeState('CHAOS')] otherwise.  In particular four tips below
    their joints give FORMED and four tips above give CHAOS. *)
Theorem C3_extension_and_fist_classification
  (onSwipeGiven : bool) (refs : HandController.Refs)
  (d : HandController.Detection) (landmarks : list HandController.Landmark)
  (Hhand : Gesture.hand d landmarks) :
  (forall tip pip, In (tip, pip) Gesture.fingerJoints ->
     (HandController.isExtended landmarks tip pip = Done true
      <-> Gesture.tipAbove landmarks tip pip)
     /\ (HandController.isExtended landmarks tip pip = Done false
         <-> ~ Gesture.tipAbove landmarks tip pip))
  /\ exists refs' calls,
       HandController.useFrame onSwipeGiven refs d = Done (refs', calls)
       /\ (Gesture.treeStateCalls calls = [FORMED]
           <-> (Gesture.extendedFingers landmarks < 2)%nat)
       /\ (Gesture.treeStateCalls calls = [CHAOS]
           <-> (2 <= Gesture.extendedFingers landmarks)%nat)
       /\ ((forall tip pip, In (tip, pip) Gesture.fingerJoints ->
              (HandController.y (Gesture.keypoint landmarks pip)
               < HandController.y (Gesture.keypoint landmarks tip))%Q) ->
           Gesture.treeStateCalls calls = [FORMED])
       /\ ((forall tip pip, In (tip, pip) Gesture.fingerJoints ->
              Gesture.tipAbove landmarks tip pip) ->
           Gesture.treeStateCalls calls = [CHAOS]).
Proof.
  split.
  - intros tip pip Hin.
    assert (Hlt : (tip < 21 /\ pip < 21)%nat).
    { simpl in Hin.
      repeat (destruct Hin as [Hin|Hin]; [inversion Hin; subst; lia|]).
      contradiction. }
    rewrite (isExtended_hand Hhand) by lia.
    rewrite <- (ext_tipAbove landmarks tip pip).
    destruct (Gesture.ext landmarks tip pip); split; split;
      congruence || (intros; exfalso; auto) || auto.
  - destruct (useFrame_treeState onSwipeGiven refs Hhand)
      as (refs' & calls & Hrun & Hts & _).
    exists refs', calls. split; [exact Hrun|]. rewrite Hts.
    assert (Hall : forall b : bool,
               (forall tip pip, In (tip, pip) Gesture.fingerJoints ->
                  Gesture.ext landmarks tip pip = b) ->
               Gesture.extendedFingers landmarks = if b then 4%nat else 0%nat).
    { intros b Hb. rewrite extendedFingers_count.
      rewrite !Hb by (simpl; auto 6). now destruct b. }
    destruct (Nat.ltb_spec (Gesture.extendedFingers landmarks) 2) as [Hn|Hn].
    + repeat split; try congruence; try lia.
      intros Habove. rewrite (Hall true) in Hn; [lia|].
      intros tip pip Hin. now apply ext_tipAbove, Habove.
    + repeat split; try congruence; try lia.
      intros Hbelow. rewrite (Hall false) in Hn; [lia|].
      intros tip pip Hin. apply Qltb_ge, Qlt_le_weak, Hbelow, Hin.
Qed.

Section Victory.
Import HandController Gesture.

Lemma victorySelect_keeps (isVictory : bool) (now : Z) (refs : Refs) :
  lastHandX (fst (victorySelect isVictory now refs)) = lastHandX refs
  /\ lastSwipeTime (fst (victorySelect isVictory now refs)) = lastSwipeTime refs
  /\ swipeCalls (snd (victorySelect isVictory now refs)) = []
  /\ focusRequested (snd (victorySelect isVictory now refs))
     = isVictory && (800 <? now - lastVictoryTime refs)%Z
  /\ lastVictoryTime (fst (victorySelect isVictory now refs))
     = if isVictory && (800 <? now - lastVictoryTime refs)%Z
       then now else lastVictoryTime refs.
Proof.
  rewrite victorySelect_calls. cbv zeta.
  now destruct (isVictory && _).
Qed.

(** The swipe stage spelled out when the pose is held and a handler
    and an earlier sample exist. *)
Lemma swipeDetect_fired (cx last : Q) (now : Z) (refs : Refs) :
  lastHandX refs = Some last ->
  let fire := Qltb SWIPE_THRESHOLD (Qabs (cx - last))
              && (SWIPE_COOLDOWN <? now - lastSwipeTime refs)%Z in
  swipeCalls (snd (swipeDetect true true cx now refs))
  = (if fire
     then [if Qltb 0 (cx - last) then Direction.right else Direction.left]
     else [])
  /\ lastSwipeTime (fst (swipeDetect true true cx now refs))
     = if fire then now else lastSwipeTime refs.
Proof.
  intros Hlast fire. unfold swipeDetect. rewrite Hlast. cbn [andb].
  fold fire. destruct fire; [|now simpl].
  now destruct (Qltb 0 (cx - last)).
Qed.

(** Without the pose, without a handler or without an earlier sample
    the swipe stage stays silent. *)
Lemma swipeDetect_silent (isVictory given : bool) (cx : Q) (now : Z) (refs : Refs) :
  isVictory && given = false \/ lastHandX refs = None ->
  swipeCalls (snd (swipeDetect isVictory given cx now refs)) = []
  /\ lastSwipeTime (fst (swipeDetect isVictory given cx now refs))
     = lastSwipeTime refs.
Proof.
  unfold swipeDetect. intros [H|H]; rewrite H.
  - now destruct (lastHandX refs).
  - now simpl.
Qed.

(** Summary of a frame with a complete hand: what is requested and
    what the refs hold afterwards, but for the swipe. *)
Lemma useFrame_summary (given : bool) (refs : Refs) (d : Detection)
  (landmarks : list Landmark) :
  hand d landmarks ->
  let v := ext landmarks 8 6 && ext landmarks 12 10
           && negb (ext landmarks 16 14) && negb (ext landmarks 20 18) in
  let fire := v && (800 <? nowVictory d - lastVictoryTime refs)%Z in
  exists refs' calls,
    useFrame given refs d = Done (refs', calls)
    /\ focusRequested calls = fire
    /\ lastVictoryTime refs' = (if fire then nowVictory d else lastVictoryTime refs)
    /\ swipeCalls calls
       = swipeCalls (snd (swipeDetect v given (x (keypoint landmarks 9)) (nowSwipe d)
                            (fst (victorySelect v (nowVictory d) refs))))
    /\ lastSwipeTime refs'
       = lastSwipeTime (fst (swipeDetect v given (x (keypoint landmarks 9)) (nowSwipe d)
                               (fst (victorySelect v (nowVictory d) refs)))).
Proof.
  intros Hhand v fire. rewrite (useFrame_hand given refs Hhand). cbv zeta.
  fold v.
  set (sel := victorySelect v (nowVictory d) refs).
  set (swp := swipeDetect v given _ _ (fst sel)).
  eexists _, _. split; [reflexivity|].
  destruct (victorySelect_keeps v (nowVictory d) refs) as (_ & _ & Hs & Hf & Hv).
  fold sel in Hs, Hf, Hv. fold fire in Hf, Hv.
  destruct (swipeDetect_calls v given (x (keypoint landmarks 9)) (nowSwipe d)
              (fst sel)) as (_ & Hfs & _ & Hvs).
  fold swp in Hfs, Hvs.
  destruct (movement_calls (keypoint landmarks 9)) as (_ & Hms & Hmf).
  destruct (fistOrSpread_calls
              (fingersExtendedCount (ext landmarks 8 6) (ext landmarks 12 10)
                 (ext landmarks 16 14) (ext landmarks 20 18))) as (_ & Hfos & Hfof).
  rewrite !focusRequested_app, !swipeCalls_app.
  rewrite Hfof, Hf, Hfs, Hmf, Hfos, Hs, Hms, Hvs, Hv.
  rewrite app_nil_r, !orb_false_r. simpl. auto.
Qed.

End Victory.

(** C9: in every frame that shows the victory pose exactly two of the
    four fingers are extended, so the same frame calls
    [setTreeState('CHAOS')]; whenever a frame requests focus it also
    commands the scattered mode. *)
Theorem C9_victory_commands_chaos
  (onSwipeGiven : bool) (refs : HandController.Refs)
  (d : HandController.Detection) (landmarks : list HandController.Landmark)
  (Hhand : Gesture.hand d landmarks) :
  exists refs' calls,
    HandController.useFrame onSwipeGiven refs d = Done (refs', calls)
    /\ (Gesture.victoryPose landmarks ->
        Gesture.extendedFingers landmarks = 2%nat
        /\ Gesture.treeStateCalls calls = [CHAOS])
    /\ (Gesture.focusRequested calls = true ->
        Gesture.victoryPose landmarks
        /\ Gesture.treeStateCalls calls = [CHAOS]).
Proof.
  destruct (useFrame_treeState onSwipeGiven refs Hhand)
    as (refs' & calls & Hrun & Hts & _).
  destruct (useFrame_summary onSwipeGiven refs Hhand)
    as (refs'' & calls' & Hrun' & Hfocus & _).
  rewrite Hrun in Hrun'. injection Hrun' as <- <-.
  exists refs', calls. split; [exact Hrun|].
  assert (Hv : Gesture.victoryPose landmarks ->
               Gesture.extendedFingers landmarks = 2%nat
               /\ Gesture.treeStateCalls calls = [CHAOS]).
  { intros Hpose.
    assert (Hn : Gesture.extendedFingers landmarks = 2%nat).
    { now apply victoryPose_two_fingers. }
    split; [exact Hn|]. now rewrite Hts, Hn. }
  split; [exact Hv|].
  intros Hreq. rewrite Hfocus in Hreq. apply andb_true_iff in Hreq as [Hpose _].
  apply victoryPose_ext in Hpose. split; [exact Hpose | now apply Hv].
Qed.

(** C2: with the pose held and an earlier sample [last] of the hand's
    x, the controller as [Scene] mounts it calls [onSwipe] if and only
    if [|currentX - last| > 0.03] and
    [now - lastSwipeTime > 500]; the direction is right when
    [currentX - last > 0] and left otherwise, and a swipe stores [now]
    in [lastSwipeTime].  Every frame with a hand stores [currentX] in
    [lastHandX], swipe or not. *)
Theorem C2_swipe_detection
  (refs : HandController.Refs) (d : HandController.Detection)
  (landmarks : list HandController.Landmark)
  (Hhand : Gesture.hand d landmarks) :
  let currentX := HandController.x (Gesture.keypoint landmarks 9) in
  (forall last : Q,
     Gesture.victoryPose landmarks ->
     HandController.lastHandX refs = Some last ->
     let dx := (currentX - last)%Q in
     exists refs' calls,
       HandController.useFrame Scene.onSwipeGiven refs d = Done (refs', calls)
       /\ (Gesture.swipeCalls calls <> []
           <-> (0.03 < Qabs dx)%Q
               /\ (500 < HandController.nowSwipe d
                         - HandController.lastSwipeTime refs)%Z)
       /\ (Gesture.swipeCalls calls <> [] ->
           ((0 < dx)%Q -> Gesture.swipeCalls calls = [Direction.right])
           /\ (~ (0 < dx)%Q -> Gesture.swipeCalls calls = [Direction.left])
           /\ HandController.lastSwipeTime refs' = HandController.nowSwipe d)
       /\ (Gesture.swipeCalls calls = [] ->
           HandController.lastSwipeTime refs' = HandController.lastSwipeTime refs)
       /\ HandController.lastHandX refs' = Some currentX)
  /\ (forall onSwipeGiven : bool,
        exists refs' calls,
          HandController.useFrame onSwipeGiven refs d = Done (refs', calls)
          /\ HandController.lastHandX refs' = Some currentX).
Proof.
  intros currentX. split.
  - intros last Hpose Hlast dx.
    destruct (useFrame_treeState Scene.onSwipeGiven refs Hhand)
      as (refs' & calls & Hrun & _ & Hx).
    destruct (useFrame_summary Scene.onSwipeGiven refs Hhand)
      as (refs'' & calls' & Hrun' & _ & _ & Hsw & Hst).
    rewrite Hrun in Hrun'. injection Hrun' as <- <-.
    exists refs', calls. split; [exact Hrun|].
    apply victoryPose_ext in Hpose. rewrite Hpose in Hsw, Hst.
    unfold Scene.onSwipeGiven in Hsw, Hst.
    destruct (victorySelect_keeps true (HandController.nowVictory d) refs)
      as (Hkx & Hkt & _).
    rewrite <- Hkx in Hlast.
    destruct (swipeDetect_fired currentX (HandController.nowSwipe d) _ Hlast)
      as [Hcalls Htime].
    fold currentX in Hsw, Hst. rewrite Hcalls in Hsw. rewrite Htime in Hst.
    rewrite Hkt in Hsw, Hst. clear Hcalls Htime. fold dx in Hsw, Hst.
    unfold HandController.SWIPE_THRESHOLD, HandController.SWIPE_COOLDOWN in Hsw, Hst.
    rewrite Hsw, Hst.
    assert (Hfire : Qltb 0.03 (Qabs dx)
                    && (500 <? HandController.nowSwipe d
                               - HandController.lastSwipeTime refs)%Z = true
                    <-> (0.03 < Qabs dx)%Q
                        /\ (500 < HandController.nowSwipe d
                                  - HandController.lastSwipeTime refs)%Z).
    { now rewrite andb_true_iff, Qltb_lt, Z.ltb_lt. }
    destruct (Qltb 0.03 (Qabs dx) && _)%bool.
    + split; [|split; [|split; [discriminate | exact Hx]]].
      * split; [intros _; now apply Hfire | intros _; now destruct (Qltb 0 dx)].
      * intros _. destruct (Qltb 0 dx) eqn:Edx;
          [apply Qltb_lt in Edx | apply Qltb_ge in Edx].
        -- split; [reflexivity|]. split; [|reflexivity].
           intros Hn. now elim Hn.
        -- split; [|split; reflexivity].
           intros Hpos. exfalso. apply (Qlt_not_le _ _ Hpos Edx).
    + split; [|split; [|split; [reflexivity | exact Hx]]].
      * split; [intros Hn; now elim Hn|].
        intros Hc. apply Hfire in Hc. discriminate.
      * intros Hn. now elim Hn.
  - intros given.
    destruct (useFrame_treeState given refs Hhand)
      as (refs' & calls & Hrun & _ & Hx).
    now exists refs', calls.
Qed.

Section Debounce.
Import HandController Gesture.

(** Over any run of frames with complete hands, each focus request
    comes more than 800 ms after the stored timestamp the run started
    with, and two requests are more than 800 ms apart. *)
Lemma frames_spacing (given : bool) (ds : list Detection) :
  forall refs : Refs,
    Forall (fun d => exists landmarks, hand d landmarks) ds ->
    exists refs' outs,
      frames given refs ds = Done (refs', outs)
      /\ List.length outs = List.length ds
      /\ (lastVictoryTime refs <= lastVictoryTime refs')%Z
      /\ (forall k dk ck,
            nth_error ds k = Some dk -> nth_error outs k = Some ck ->
            focusRequested ck = true ->
            (800 < nowVictory dk - lastVictoryTime refs)%Z)
      /\ (forall j k dj dk cj ck,
            (j < k)%nat ->
            nth_error ds j = Some dj -> nth_error outs j = Some cj ->
            nth_error ds k = Some dk -> nth_error outs k = Some ck ->
            focusRequested cj = true -> focusRequested ck = true ->
            (800 < nowVictory dk - nowVictory dj)%Z).
Proof.
  induction ds as [|d ds IH]; intros refs Hall.
  - exists refs, []. simpl. repeat split; try lia.
    + intros [|k] dk ck H; discriminate H.
    + intros [|j] k dj dk cj ck _ H; discriminate H.
  - inversion Hall as [|d0 ds0 [landmarks Hhand] Hrest]; subst.
    destruct (useFrame_summary given refs Hhand)
      as (refs1 & calls & Hrun & Hfocus & Hlast & _).
    destruct (IH refs1 Hrest) as (refs' & outs & Hruns & Hlen & Hmono & Hfirst & Hpair).
    exists refs', (calls :: outs).
    assert (Hstep : (lastVictoryTime refs <= lastVictoryTime refs1)%Z
                    /\ (focusRequested calls = true ->
                        (800 < nowVictory d - lastVictoryTime refs)%Z
                        /\ lastVictoryTime refs1 = nowVictory d)).
    { rewrite Hfocus, Hlast.
      destruct (ext landmarks 8 6 && ext landmarks 12 10
                && negb (ext landmarks 16 14) && negb (ext landmarks 20 18));
        cbn [andb]; [|split; [lia | discriminate]].
      destruct (Z.ltb_spec 800 (nowVictory d - lastVictoryTime refs));
        split; try lia; try discriminate; auto. }
    destruct Hstep as [Hle Hfire].
    split; [simpl; rewrite Hrun; cbn [bind fst snd]; rewrite Hruns; reflexivity|].
    split; [simpl; lia|]. split; [lia|]. split.
    + intros [|k] dk ck Hd Hc Hreq; simpl in Hd, Hc.
      * injection Hd as <-. injection Hc as <-. now apply Hfire.
      * specialize (Hfirst k dk ck Hd Hc Hreq). lia.
    + intros [|j] [|k] dj dk cj ck Hjk Hdj Hcj Hdk Hck Hrj Hrk;
        simpl in Hdj, Hcj, Hdk, Hck; try lia.
      * injection Hdj as <-. injection Hcj as <-.
        destruct (Hfire Hrj) as [_ Heq].
        specialize (Hfirst k dk ck Hdk Hck Hrk). lia.
      * apply (Hpair j k dj dk cj ck); auto; lia.
Qed.

End Debounce.

(** C4: while the victory pose is held, a frame calls
    [setFocusMode(true)] exactly when
    [now - lastVictoryTime > 800], and doing so stores [now] in
    [lastVictoryTime]; hence over a sequence of victory frames no two
    focus requests carry readings of the clock that fit in one window
    of 800 ms. *)
Theorem C4_selection_debounce :
  (forall (onSwipeGiven : bool) (refs : HandController.Refs)
          (d : HandController.Detection)
          (landmarks : list HandController.Landmark),
     Gesture.hand d landmarks -> Gesture.victoryPose landmarks ->
     exists refs' calls,
       HandController.useFrame onSwipeGiven refs d = Done (refs', calls)
       /\ (Gesture.focusRequested calls = true
           <-> (800 < HandController.nowVictory d
                      - HandController.lastVictoryTime refs)%Z)
       /\ (Gesture.focusRequested calls = true ->
           HandController.lastVictoryTime refs' = HandController.nowVictory d)
       /\ (Gesture.focusRequested calls = false ->
           HandController.lastVictoryTime refs'
           = HandController.lastVictoryTime refs))
  /\ (forall (onSwipeGiven : bool) (refs : HandController.Refs)
             (ds : list HandController.Detection),
        Forall (fun d => exists landmarks,
                           Gesture.hand d landmarks
                           /\ Gesture.victoryPose landmarks) ds ->
        exists refs' outs,
          Gesture.frames onSwipeGiven refs ds = Done (refs', outs)
          /\ List.length outs = List.length ds
          /\ forall (window : Z) j k dj dk cj ck,
               nth_error ds j = Some dj -> nth_error outs j = Some cj ->
               nth_error ds k = Some dk -> nth_error outs k = Some ck ->
               Gesture.focusRequested cj = true ->
               Gesture.focusRequested ck = true ->
               (window <= HandController.nowVictory dj <= window + 800)%Z ->
               (window <= HandController.nowVictory dk <= window + 800)%Z ->
               j = k).
Proof.
  split.
  - intros given refs d landmarks Hhand Hpose.
    destruct (useFrame_summary given refs Hhand)
      as (refs' & calls & Hrun & Hfocus & Hlast & _).
    exists refs', calls. split; [exact Hrun|].
    apply victoryPose_ext in Hpose. rewrite Hpose in Hfocus, Hlast.
    cbn [andb] in Hfocus, Hlast. rewrite Hfocus, Hlast.
    destruct (Z.ltb_spec 800 (HandController.nowVictory d
                              - HandController.lastVictoryTime refs));
      repeat split; try congruence; try lia; auto.
  - intros given refs ds Hall.
    assert (Hhands : Forall (fun d => exists landmarks, Gesture.hand d landmarks) ds).
    { eapply Forall_impl; [|exact Hall]. intros d (lm & Hh & _). now exists lm. }
    destruct (frames_spacing given refs Hhands)
      as (refs' & outs & Hrun & Hlen & _ & _ & Hpair).
    exists refs', outs. split; [exact Hrun|]. split; [exact Hlen|].
    intros window j k dj dk cj ck Hdj Hcj Hdk Hck Hrj Hrk Hwj Hwk.
    destruct (Nat.lt_trichotomy j k) as [Hlt|[Heq|Hgt]]; [|exact Heq|].
    + specialize (Hpair j k dj dk cj ck Hlt Hdj Hcj Hdk Hck Hrj Hrk). lia.
    + specialize (Hpair k j dk dj ck cj Hgt Hdk Hck Hdj Hcj Hrk Hrj). lia.
Qed.

(** ** The scene state machine *)

Section SceneCalls.
Import HandController Gesture Scene.

Lemma focusCalls_app (a b : list Call) :
  focusCalls (a ++ b) = focusCalls a ++ focusCalls b.
Proof.
  induction a as [|c a IH]; [reflexivity|].
  destruct c; simpl; now rewrite IH.
Qed.

Lemma useFrame_focusCalls (given : bool) (refs : Refs) (d : Detection)
  (landmarks : list Landmark) :
  hand d landmarks ->
  exists refs' calls,
    useFrame given refs d = Done (refs', calls)
    /\ focusCalls calls = if focusRequested calls then [true] else [].
Proof.
  intros Hhand. rewrite (useFrame_hand given refs Hhand). cbv zeta.
  set (v := ext landmarks 8 6 && _ && _ && _).
  set (sel := victorySelect v (nowVictory d) refs).
  set (swp := swipeDetect v given _ _ (fst sel)).
  eexists _, _. split; [reflexivity|].
  rewrite !focusCalls_app, !focusRequested_app.
  destruct (swipeDetect_calls v given (x (keypoint landmarks 9)) (nowSwipe d)
              (fst sel)) as (_ & Hf & _).
  fold swp in Hf. rewrite Hf.
  assert (Hswp : focusCalls (snd swp) = []).
  { subst swp. unfold swipeDetect.
    destruct (lastHandX (fst sel)); [|reflexivity].
    destruct (v && given); [|reflexivity].
    destruct (Qltb SWIPE_THRESHOLD _ && _); [|reflexivity].
    now destruct (Qltb 0 _). }
  rewrite Hswp. subst sel. rewrite victorySelect_calls. cbv zeta. cbn [snd].
  unfold fistOrSpread, movement.
  now destruct (_ <? 2)%nat, (v && _).
Qed.

(** A swipe through [handleSwipe] never faults; it leaves everything
    but the slideshow index alone, and the index too unless the
    rendered focus flag is set and there are photos. *)
Lemma handleSwipe_spec (focus : bool) (n : Z) (dir : Direction.t) (pending : State) :
  exists next,
    handleSwipe focus n dir pending = Done next
    /\ treeState next = treeState pending
    /\ focusMode next = focusMode pending
    /\ rotation next = rotation pending
    /\ (focus = false \/ n = 0%Z -> next = pending).
Proof.
  unfold handleSwipe.
  destruct focus; cbn [negb orb].
  - destruct (Z.eqb_spec n 0) as [Hn|Hn].
    + exists pending. repeat split; auto.
    + unfold jsRem. rewrite (proj2 (Z.eqb_neq n 0) Hn).
      destruct dir; cbn [bind]; eexists; repeat split;
        intros [H|H]; congruence.
  - exists pending. repeat split; auto.
Qed.

(** The calls of one frame applied to the pending state. *)
Lemma applyCalls_spec (rendered : State) (n : Z) (calls : list Call) :
  forall pending : State,
    exists next,
      applyCalls rendered n pending calls = Done next
      /\ treeState next = lastOr (treeStateCalls calls) (treeState pending)
      /\ focusMode next = lastOr (focusCalls calls) (focusMode pending)
      /\ (focusMode rendered = false \/ n = 0%Z ->
          slideshowIndex next = slideshowIndex pending).
Proof.
  induction calls as [|c calls IH]; intros pending.
  - exists pending. now repeat split.
  - destruct c as [m|b|dir|q|q]; cbn [applyCalls applyCall bind].
    + destruct (IH (with_treeState m pending)) as (next & H1 & H2 & H3 & H4).
      exists next. repeat split; auto.
    + destruct (IH (with_focusMode b pending)) as (next & H1 & H2 & H3 & H4).
      exists next. repeat split; auto.
    + destruct (handleSwipe_spec (focusMode rendered) n dir pending)
        as (mid & Hs & Ht & Hf & _ & Hsame).
      rewrite Hs. cbn [bind].
      destruct (IH mid) as (next & H1 & H2 & H3 & H4).
      exists next. repeat split; auto.
      * now rewrite H2, Ht.
      * now rewrite H3, Hf.
      * intros Hoff. rewrite (H4 Hoff). now rewrite (Hsame Hoff).
    + destruct (IH (with_rotation q pending)) as (next & H1 & H2 & H3 & H4).
      exists next. repeat split; auto.
    + destruct (IH pending) as (next & H1 & H2 & H3 & H4).
      exists next. repeat split; auto.
Qed.

(** A frame with a complete hand always yields a next system state:
    the tree state commanded by the frame, and the focus flag as left
    by the request and by the closing effect. *)
Lemma step_frame (sys : System) (d : Detection) (landmarks : list Landmark) :
  hand d landmarks ->
  let m := if (extendedFingers landmarks <? 2)%nat then FORMED else CHAOS in
  exists refs' calls next,
    useFrame Scene.onSwipeGiven (refs sys) d = Done (refs', calls)
    /\ applyCalls (scene sys) (len (photos sys)) (scene sys) calls = Done next
    /\ step sys (Frame d)
       = Done {| scene := commit (scene sys) next; refs := refs';
                 photos := photos sys |}
    /\ treeState next = m
    /\ focusMode next = (focusRequested calls || focusMode (scene sys))
    /\ (focusRequested calls = true -> m = CHAOS)
    /\ (focusMode (scene sys) = false \/ len (photos sys) = 0%Z ->
        slideshowIndex next = slideshowIndex (scene sys)).
Proof.
  intros Hhand m.
  destruct (useFrame_treeState Scene.onSwipeGiven (refs sys) Hhand)
    as (refs' & calls & Hrun & Hts & _).
  destruct (useFrame_focusCalls Scene.onSwipeGiven (refs sys) Hhand)
    as (r2 & c2 & Hrun2 & Hfc).
  rewrite Hrun in Hrun2. injection Hrun2 as <- <-.
  destruct (useFrame_summary Scene.onSwipeGiven (refs sys) Hhand)
    as (r3 & c3 & Hrun3 & Hfire & _).
  rewrite Hrun in Hrun3. injection Hrun3 as <- <-.
  destruct (applyCalls_spec (scene sys) (len (photos sys)) calls (scene sys))
    as (next & Happ & Ht & Hf & Hidx).
  exists refs', calls, next.
  split; [exact Hrun|]. split; [exact Happ|].
  split; [unfold step; rewrite Hrun; cbn [bind fst snd]; now rewrite Happ|].
  split; [now rewrite Ht, Hts|].
  split; [rewrite Hf, Hfc; now destruct (focusRequested calls)|].
  split; [|exact Hidx].
  intros Hreq. rewrite Hfire in Hreq. apply andb_true_iff in Hreq as [Hpose _].
  apply victoryPose_ext in Hpose. subst m.
  now rewrite (victoryPose_two_fingers Hpose).
Qed.

End SceneCalls.

Section SceneInvariant.
Import HandController Gesture Scene.

(** A frame that does not fault either saw no hand, and then did
    nothing, or saw a hand with all 21 keypoints. *)
Lemma useFrame_Done_hand (given : bool) (refs0 : Refs) (d : Detection)
  (r : Refs * list Call) :
  useFrame given refs0 d = Done r ->
  (result_landmarks d = [] /\ r = (refs0, []))
  \/ exists landmarks, hand d landmarks.
Proof.
  unfold useFrame. destruct (result_landmarks d) as [|landmarks rest] eqn:Eres.
  - intros H. injection H as <-. now left.
  - intros H. right. exists landmarks. split; [now exists rest|].
    destruct (at_ landmarks 9); [cbn [bind] in H | discriminate].
    destruct (isExtended landmarks 8 6); [cbn [bind] in H | discriminate].
    destruct (isExtended landmarks 12 10); [cbn [bind] in H | discriminate].
    destruct (isExtended landmarks 16 14); [cbn [bind] in H | discriminate].
    destruct (isExtended landmarks 20 18) eqn:E20; [|discriminate].
    unfold isExtended, at_ in E20.
    destruct (nth_error landmarks 20) eqn:En; [|discriminate].
    assert (Hlt : (20 < List.length landmarks)%nat).
    { apply nth_error_Some. congruence. }
    lia.
Qed.

Lemma commit_treeState (rendered next : State) :
  treeState (commit rendered next) = treeState next.
Proof.
  unfold commit. destruct (Mode_eqb _ _); [reflexivity|].
  destruct (treeState next) eqn:E; [exact E | exact E].
Qed.

Lemma commit_same_tree (rendered next : State) :
  treeState next = treeState rendered -> commit rendered next = next.
Proof.
  unfold commit. intros ->. now destruct (treeState rendered).
Qed.

Lemma commit_formed (rendered next : State) :
  treeState rendered = CHAOS -> treeState next = FORMED ->
  commit rendered next = with_focusMode false next.
Proof. unfold commit. now intros -> ->. Qed.

Lemma intervalTick_spec (focus : bool) (n : Z) (pending : State) :
  exists next,
    intervalTick focus n pending = Done next
    /\ treeState next = treeState pending
    /\ focusMode next = focusMode pending
    /\ (focus = false \/ n = 0%Z -> next = pending).
Proof.
  unfold intervalTick. destruct focus; cbn [andb].
  - destruct (Z.ltb_spec 0 n) as [Hn|Hn].
    + unfold jsRem. rewrite (proj2 (Z.eqb_neq n 0)) by lia. cbn [bind].
      eexists. repeat split. intros [H|H]; [discriminate | lia].
    + exists pending. now repeat split.
  - exists pending. now repeat split.
Qed.

(** In every reachable state, an open focus mode means that the tree
    is scattered. *)
Lemma reachable_focus_chaos (sys : System) :
  reachable sys -> focusMode (scene sys) = true -> treeState (scene sys) = CHAOS.
Proof.
  induction 1 as [|sys sys' e Hreach IH Hstep]; [discriminate|].
  destruct e as [d| | |newPhotos]; unfold step in Hstep.
  - destruct (useFrame onSwipeGiven (refs sys) d) as [r|] eqn:Hrun;
      [|discriminate].
    destruct (useFrame_Done_hand _ _ _ Hrun) as [[_ ->]|[landmarks Hhand]].
    + cbn [bind applyCalls snd fst] in Hstep. injection Hstep as <-.
      cbn [scene]. now rewrite commit_same_tree.
    + destruct (step_frame sys Hhand)
        as (refs' & calls & next & Hrun' & Happ & _ & Ht & Hf & Hc & _).
      rewrite Hrun in Hrun'. injection Hrun' as ->.
      cbn [bind snd fst] in Hstep. rewrite Happ in Hstep. cbn [bind] in Hstep.
      injection Hstep as <-. cbn [scene]. rewrite commit_treeState, Ht.
      destruct (extendedFingers landmarks <? 2)%nat; [|reflexivity].
      destruct (focusRequested calls); [now discriminate Hc|].
      cbn [orb] in Hf. intros Hfocus.
      destruct (treeState (scene sys)) eqn:Eold.
      * rewrite commit_formed in Hfocus by assumption. discriminate Hfocus.
      * rewrite commit_same_tree in Hfocus by congruence.
        rewrite Hf in Hfocus. specialize (IH Hfocus). discriminate IH.
  - destruct (intervalTick_spec (focusMode (scene sys)) (len (photos sys))
                (scene sys)) as (next & Htick & Ht & Hf & _).
    rewrite Htick in Hstep. cbn [bind] in Hstep. injection Hstep as <-.
    cbn [scene]. rewrite commit_same_tree by assumption.
    rewrite Ht, Hf. exact IH.
  - injection Hstep as <-. cbn [scene].
    rewrite commit_same_tree by reflexivity. discriminate.
  - injection Hstep as <-. exact IH.
Qed.

End SceneInvariant.

(** C1: in every reachable state with the focus flag set, a
    [setTreeState('FORMED')] event, alone or as part of a fist frame,
    leads to a state whose mode is FORMED and whose focus flag is
    false. *)
Theorem C1_formed_closes_focus (sys : Scene.System)
  (Hreach : Scene.reachable sys)
  (Hfocus : Scene.focusMode (Scene.scene sys) = true) :
  let s := Scene.scene sys in
  let n := Scene.len (Scene.photos sys) in
  (exists next,
     Scene.applyCalls s n s [HandController.setTreeState FORMED] = Done next
     /\ Scene.treeState (Scene.commit s next) = FORMED
     /\ Scene.focusMode (Scene.commit s next) = false)
  /\ (forall (d : HandController.Detection)
             (landmarks : list HandController.Landmark),
        Gesture.hand d landmarks ->
        (Gesture.extendedFingers landmarks < 2)%nat ->
        exists sys',
          Scene.step sys (Scene.Frame d) = Done sys'
          /\ Scene.treeState (Scene.scene sys') = FORMED
          /\ Scene.focusMode (Scene.scene sys') = false).
Proof.
  intros s n. pose proof (reachable_focus_chaos Hreach Hfocus) as Hchaos.
  fold s in Hchaos. split.
  - eexists. split; [reflexivity|].
    rewrite commit_formed by (exact Hchaos || reflexivity).
    now split.
  - intros d landmarks Hhand Hfist.
    destruct (step_frame sys Hhand)
      as (refs' & calls & next & _ & _ & Hstep & Ht & _).
    apply Nat.ltb_lt in Hfist. rewrite Hfist in Ht.
    eexists. split; [exact Hstep|]. cbn [Scene.scene].
    rewrite commit_formed by assumption. now split.
Qed.

(** The reachability premise of C1 cannot be dropped: from the
    (unreachable) state that is FORMED with the focus flag set, a
    further FORMED event changes nothing, since the closing effect
    only runs when [treeState] changes. *)
Remark formed_event_without_change :
  let s := {| Scene.treeState := FORMED; Scene.focusMode := true;
              Scene.rotation := 0; Scene.slideshowIndex := 0 |} in
  exists next,
    Scene.applyCalls s 0 s [HandController.setTreeState FORMED] = Done next
    /\ Scene.focusMode (Scene.commit s next) = true.
Proof. eexists. split; reflexivity. Qed.

(** C10: with the focus flag off, a swipe in either direction leaves
    the whole scene state as it was; a swipe that does change the
    slideshow index was handled with the focus flag on and a
    non-empty photo list, and changes nothing else. *)
Theorem C10_swipe_needs_focus (s : Scene.State) (n : Z) (dir : Direction.t) :
  (Scene.focusMode s = false ->
   exists next,
     Scene.applyCalls s n s [HandController.onSwipe dir] = Done next
     /\ Scene.commit s next = s)
  /\ (forall pending : Scene.State,
        exists next,
          Scene.handleSwipe (Scene.focusMode s) n dir pending = Done next
          /\ Scene.treeState next = Scene.treeState pending
          /\ Scene.focusMode next = Scene.focusMode pending
          /\ Scene.rotation next = Scene.rotation pending
          /\ (Scene.slideshowIndex next <> Scene.slideshowIndex pending ->
              Scene.focusMode s = true /\ n <> 0%Z)).
Proof.
  split.
  - intros Hoff.
    destruct (handleSwipe_spec (Scene.focusMode s) n dir s)
      as (next & Hs & _ & _ & _ & Hsame).
    exists s. cbn [Scene.applyCalls Scene.applyCall].
    rewrite Hs. cbn [bind]. rewrite (Hsame (or_introl Hoff)).
    split; [reflexivity|]. now apply commit_same_tree.
  - intros pending.
    destruct (handleSwipe_spec (Scene.focusMode s) n dir pending)
      as (next & Hs & Ht & Hf & Hr & Hsame).
    exists next. repeat split; auto.
    + destruct (Scene.focusMode s); [reflexivity|].
      elim H. now rewrite Hsame by now left.
    + intros ->. elim H. now rewrite Hsame by now right.
Qed.

Lemma commit_slideshowIndex (rendered next : Scene.State) :
  Scene.slideshowIndex (Scene.commit rendered next) = Scene.slideshowIndex next.
Proof.
  unfold Scene.commit. destruct (Mode_eqb _ _); [reflexivity|].
  now destruct (Scene.treeState next).
Qed.

(** C8: with an empty photo list a swipe and a tick of the slideshow
    interval finish without fault and leave the slideshow index (for
    the tick: the whole system) as it was, whatever the focus flag;
    so does every frame of the controller; rendering reads no photo
    and takes no remainder; and the set of photo ornaments is empty. *)
Theorem C8_empty_photo_list (sys : Scene.System)
  (Hempty : Scene.photos sys = []) :
  let s := Scene.scene sys in
  (forall (focus : bool) (dir : Direction.t) (pending : Scene.State),
     Scene.handleSwipe focus (Scene.len (Scene.photos sys)) dir pending
     = Done pending)
  /\ (forall (focus : bool) (pending : Scene.State),
        Scene.intervalTick focus (Scene.len (Scene.photos sys)) pending
        = Done pending)
  /\ Scene.step sys Scene.IntervalTick = Done sys
  /\ (forall (d : HandController.Detection)
             (landmarks : list HandController.Landmark),
        Gesture.hand d landmarks ->
        exists sys',
          Scene.step sys (Scene.Frame d) = Done sys'
          /\ Scene.slideshowIndex (Scene.scene sys') = Scene.slideshowIndex s
          /\ Scene.photos sys' = [])
  /\ Scene.overlayPhotoUrl s (Scene.photos sys) = Done None
  /\ Tree.photoOrnaments (Scene.photos sys) = Done []
  /\ (forall ornaments : list Tree.Ornament,
        Tree.ornamentUrls (Scene.photos sys) ornaments
        = Done (map (fun _ => None) ornaments)).
Proof.
  intros s. rewrite Hempty. cbn [Scene.len List.length Z.of_nat].
  split; [|split; [|split; [|split; [|split; [|split]]]]].
  - intros focus dir pending. unfold Scene.handleSwipe.
    now rewrite orb_true_r.
  - intros focus pending. unfold Scene.intervalTick.
    now rewrite andb_false_r.
  - unfold Scene.step. rewrite Hempty.
    cbn [Scene.len List.length Z.of_nat]. unfold Scene.intervalTick.
    rewrite andb_false_r. cbn [bind].
    rewrite commit_same_tree by reflexivity.
    destruct sys; cbn in *; now subst.
  - intros d landmarks Hhand.
    destruct (step_frame sys Hhand)
      as (refs' & calls & next & _ & _ & Hstep & _ & _ & _ & Hidx).
    eexists. split; [exact Hstep|]. cbn [Scene.scene Scene.photos].
    rewrite commit_slideshowIndex. split; [|exact Hempty].
    apply Hidx. right. now rewrite Hempty.
  - reflexivity.
  - reflexivity.
  - intros ornaments. unfold Tree.ornamentUrls.
    induction ornaments as [|o os IH]; [reflexivity|].
    cbn [mapM map]. rewrite IH. reflexivity.
Qed.

(** ** Rounding to float32 *)

Unset Implicit Arguments.

Section Float32Facts.
Import Float32.
Local Open Scope R_scope.

Lemma pow2_pos (k : Z) : 0 < pow2 k.
Proof. apply powerRZ_lt. lra. Qed.

Lemma pow2_add (a b : Z) : pow2 (a + b) = pow2 a * pow2 b.
Proof. apply powerRZ_add. lra. Qed.

Lemma pow2_opp (k : Z) : pow2 (- k) = / pow2 k.
Proof. apply powerRZ_neg'. Qed.

Lemma pow2_sub (a b : Z) : pow2 (a - b) = pow2 a / pow2 b.
Proof.
  unfold Z.sub, Rdiv. now rewrite pow2_add, pow2_opp.
Qed.

Lemma pow2_succ (k : Z) : pow2 (k + 1) = 2 * pow2 k.
Proof. rewrite pow2_add. unfold pow2 at 2. simpl. lra. Qed.

Lemma pow2_nat (k : Z) : (0 <= k)%Z -> pow2 k = IZR (2 ^ k).
Proof.
  intros Hk. unfold pow2. rewrite <- (Z2Nat.id k Hk), <- pow_powerRZ.
  now rewrite pow_IZR.
Qed.

Lemma pow2_lt_succ (k : Z) : pow2 k < pow2 (k + 1).
Proof. rewrite pow2_succ. pose proof (pow2_pos k). lra. Qed.

Lemma pow2_le (a b : Z) : (a <= b)%Z -> pow2 a <= pow2 b.
Proof.
  intros Hab. replace b with (a + (b - a))%Z by lia.
  rewrite pow2_add, (pow2_nat (b - a)) by lia.
  assert (H1 : (1 <= 2 ^ (b - a))%Z).
  { apply (Z.pow_le_mono_r 2 0 (b - a)); lia. }
  apply IZR_le in H1. pose proof (pow2_pos a). nra.
Qed.

Lemma pow2_lt (a b : Z) : (a < b)%Z -> pow2 a < pow2 b.
Proof.
  intros Hab. apply Rlt_le_trans with (pow2 (a + 1)); [apply pow2_lt_succ|].
  apply pow2_le. lia.
Qed.

Lemma pow2_lt_inv (a b : Z) : pow2 a < pow2 b -> (a < b)%Z.
Proof.
  intros H. destruct (Z_lt_le_dec a b) as [Hlt|Hge]; [exact Hlt|].
  pose proof (pow2_le b a Hge). lra.
Qed.

Lemma binade_spec (x : R) : 0 < x -> pow2 (binade x) <= x < pow2 (binade x + 1).
Proof.
  intros Hx. unfold binade, pow2.
  set (k := Zfloor (ln x / ln 2)).
  pose proof (Zfloor_bound (ln x / ln 2)) as [Hlo Hhi]. fold k in Hlo, Hhi.
  pose proof ln_lt_2 as Hln2.
  assert (H2 : 0 < ln 2) by lra.
  rewrite !powerRZ_Rpower by lra. unfold Rpower. rewrite plus_IZR.
  assert (Hlo' : IZR k * ln 2 <= ln x).
  { apply (Rmult_le_compat_r (ln 2)) in Hlo; [|lra].
    unfold Rdiv in Hlo. rewrite Rmult_assoc, Rinv_l, Rmult_1_r in Hlo; lra. }
  assert (Hhi' : ln x < (IZR k + 1) * ln 2).
  { apply (Rmult_lt_compat_r (ln 2)) in Hhi; [|lra].
    unfold Rdiv in Hhi. rewrite Rmult_assoc, Rinv_l, Rmult_1_r in Hhi; lra. }
  pose proof (exp_ln x Hx) as Hex. split.
  - rewrite <- Hex at 1.
    destruct Hlo' as [Hlt|Heq]; [left; now apply exp_increasing | right; now rewrite Heq].
  - rewrite <- Hex at 1. now apply exp_increasing.
Qed.

Lemma binade_unique (x : R) (k : Z) :
  pow2 k <= x < pow2 (k + 1) -> binade x = k.
Proof.
  intros [Hlo Hhi].
  assert (Hx : 0 < x) by (pose proof (pow2_pos k); lra).
  destruct (binade_spec x Hx) as [Blo Bhi].
  assert (H1 : (binade x < k + 1)%Z) by (apply pow2_lt_inv; lra).
  assert (H2 : (k < binade x + 1)%Z) by (apply pow2_lt_inv; lra).
  lia.
Qed.

Lemma binade_mono (x y : R) : 0 < x -> x <= y -> (binade x <= binade y)%Z.
Proof.
  intros Hx Hxy.
  destruct (binade_spec x Hx) as [Xlo Xhi].
  destruct (binade_spec y ltac:(lra)) as [Ylo Yhi].
  assert (H : (binade x < binade y + 1)%Z) by (apply pow2_lt_inv; lra).
  lia.
Qed.

Lemma nearestEven_cases (z : R) :
  (nearestEven z = Zfloor z /\ z - IZR (Zfloor z) <= 1 / 2)
  \/ (nearestEven z = (Zfloor z + 1)%Z /\ 1 / 2 <= z - IZR (Zfloor z)).
Proof.
  unfold nearestEven.
  destruct (Rlt_dec (z - IZR (Zfloor z)) (1 / 2)); [left; split; [reflexivity | lra]|].
  destruct (Rlt_dec (1 / 2) (z - IZR (Zfloor z))); [right; split; [reflexivity | lra]|].
  destruct (Z.even (Zfloor z)); [left | right]; split; auto; lra.
Qed.

Lemma nearestEven_error (z : R) : Rabs (IZR (nearestEven z) - z) <= 1 / 2.
Proof.
  pose proof (Zfloor_bound z) as [Hlo Hhi].
  destruct (nearestEven_cases z) as [[-> H]|[-> H]];
    rewrite ?plus_IZR; apply Rabs_le; lra.
Qed.

Lemma nearestEven_unique (z : R) (n : Z) :
  Rabs (z - IZR n) < 1 / 2 -> nearestEven z = n.
Proof.
  intros H. apply Rabs_def2 in H as [H1 H2].
  pose proof (Zfloor_bound z) as [Hlo Hhi].
  destruct (nearestEven_cases z) as [[-> Hc]|[-> Hc]].
  - assert (Ha : (Zfloor z < n + 1)%Z) by (apply lt_IZR; rewrite plus_IZR; lra).
    assert (Hb : (n < Zfloor z + 1)%Z) by (apply lt_IZR; rewrite plus_IZR; lra).
    lia.
  - assert (Ha : (Zfloor z + 1 < n + 1)%Z) by (apply lt_IZR; rewrite !plus_IZR; lra).
    assert (Hb : (n < Zfloor z + 1 + 1)%Z) by (apply lt_IZR; rewrite !plus_IZR; lra).
    lia.
Qed.

Lemma nearestEven_IZR (n : Z) : nearestEven (IZR n) = n.
Proof.
  apply nearestEven_unique. replace (IZR n - IZR n) with 0 by ring.
  rewrite Rabs_R0. lra.
Qed.

Lemma nearestEven_mono (a b : R) : a <= b -> (nearestEven a <= nearestEven b)%Z.
Proof.
  intros Hab. pose proof (Zfloor_le a b Hab) as Hfl.
  pose proof (Zfloor_bound a) as [Alo Ahi].
  pose proof (Zfloor_bound b) as [Blo Bhi].
  destruct (Z.eq_dec (Zfloor a) (Zfloor b)) as [Heq|Hne].
  - unfold nearestEven. rewrite <- Heq in *.
    destruct (Rlt_dec (a - IZR (Zfloor a)) (1 / 2));
      destruct (Rlt_dec (b - IZR (Zfloor a)) (1 / 2));
      destruct (Rlt_dec (1 / 2) (a - IZR (Zfloor a)));
      destruct (Rlt_dec (1 / 2) (b - IZR (Zfloor a)));
      destruct (Z.even (Zfloor a)); try lia; lra.
  - destruct (nearestEven_cases a) as [[-> _]|[-> _]];
      destruct (nearestEven_cases b) as [[-> _]|[-> _]]; lia.
Qed.

(** The rounding of a positive number: its integer multiple of the
    last bit. *)
Lemma roundPositive_shape (x : R) :
  0 < x ->
  exists n : Z,
    roundPositive x = IZR n * pow2 (lastBit x)
    /\ (0 <= n <= 2 ^ 24)%Z
    /\ ((-126 <= binade x)%Z -> (2 ^ 23 <= n)%Z)
    /\ Rabs (roundPositive x - x) <= pow2 (lastBit x) / 2.
Proof.
  intros Hx. unfold roundPositive.
  set (e := lastBit x). set (z := x / pow2 e).
  pose proof (pow2_pos e) as He.
  destruct (binade_spec x Hx) as [Blo Bhi].
  assert (Hz0 : 0 <= z) by (apply Rlt_le, Rdiv_lt_0_compat; lra).
  assert (Hze : z * pow2 e = x) by (unfold z; field; lra).
  exists (nearestEven z). split; [reflexivity|]. split; [|split].
  - split.
    + rewrite <- (nearestEven_IZR 0). now apply nearestEven_mono.
    + rewrite <- (nearestEven_IZR (2 ^ 24)). apply nearestEven_mono.
      rewrite <- (pow2_nat 24) by lia.
      apply Rmult_le_reg_r with (pow2 e); [exact He|].
      rewrite Hze, <- pow2_add.
      apply Rle_trans with (pow2 (binade x + 1)); [lra|].
      apply pow2_le. unfold e, lastBit. lia.
  - intros Hb. rewrite <- (nearestEven_IZR (2 ^ 23)). apply nearestEven_mono.
    rewrite <- (pow2_nat 23) by lia.
    apply Rmult_le_reg_r with (pow2 e); [exact He|].
    rewrite Hze, <- pow2_add.
    replace (23 + e)%Z with (binade x) by (unfold e, lastBit; lia). exact Blo.
  - pose proof (nearestEven_error z) as Herr.
    replace (IZR (nearestEven z) * pow2 e - x)
      with ((IZR (nearestEven z) - z) * pow2 e) by (rewrite <- Hze; ring).
    rewrite Rabs_mult, (Rabs_pos_eq (pow2 e)) by lra. nra.
Qed.

Lemma roundPositive_nonneg (x : R) : 0 < x -> 0 <= roundPositive x.
Proof.
  intros Hx. destruct (roundPositive_shape x Hx) as (n & -> & [Hn _] & _).
  apply IZR_le in Hn. pose proof (pow2_pos (lastBit x)). nra.
Qed.

Lemma roundPositive_mono (x y : R) :
  0 < x -> x <= y -> roundPositive x <= roundPositive y.
Proof.
  intros Hx Hxy. assert (Hy : 0 < y) by lra.
  pose proof (binade_mono x y Hx Hxy) as Hb.
  destruct (Z.eq_dec (lastBit x) (lastBit y)) as [Heq|Hne].
  - unfold roundPositive. rewrite Heq.
    pose proof (pow2_pos (lastBit y)) as He.
    apply Rmult_le_compat_r; [lra|]. apply IZR_le, nearestEven_mono.
    unfold Rdiv. apply Rmult_le_compat_r; [|exact Hxy].
    left. now apply Rinv_0_lt_compat.
  - assert (Hlt : (lastBit x < lastBit y)%Z) by (unfold lastBit in *; lia).
    assert (Hey : lastBit y = (binade y - 23)%Z) by (unfold lastBit in *; lia).
    assert (Hby : (-126 <= binade y)%Z) by (unfold lastBit in *; lia).
    assert (Hbx : (binade x < binade y)%Z) by (unfold lastBit in *; lia).
    apply Rle_trans with (pow2 (binade y)).
    + destruct (binade_spec x Hx) as [_ Xhi].
      unfold roundPositive. set (e := lastBit x).
      pose proof (pow2_pos e) as He.
      replace (pow2 (binade y)) with (IZR (2 ^ (binade y - e)) * pow2 e).
      2:{ rewrite <- pow2_nat by lia. rewrite <- pow2_add. f_equal. lia. }
      apply Rmult_le_compat_r; [lra|]. apply IZR_le.
      rewrite <- (nearestEven_IZR (2 ^ (binade y - e))). apply nearestEven_mono.
      rewrite <- pow2_nat by lia.
      apply Rmult_le_reg_r with (pow2 e); [exact He|].
      replace (x / pow2 e * pow2 e) with x by (field; lra).
      rewrite <- pow2_add. replace (binade y - e + e)%Z with (binade y) by lia.
      apply Rle_trans with (pow2 (binade x + 1)); [lra|]. apply pow2_le. lia.
    + destruct (roundPositive_shape y Hy) as (n & -> & _ & Hn & _).
      specialize (Hn Hby). apply IZR_le in Hn.
      rewrite Hey. pose proof (pow2_pos (binade y - 23)) as He.
      replace (pow2 (binade y)) with (IZR (2 ^ 23) * pow2 (binade y - 23)).
      2:{ rewrite <- (pow2_nat 23) by lia. rewrite <- pow2_add. f_equal. lia. }
      apply Rmult_le_compat_r; lra.
Qed.

Lemma fround_pos (x : R) : 0 < x -> fround x = roundPositive x.
Proof.
  intros Hx. unfold fround.
  destruct (total_order_T 0 x) as [[H|H]|H]; [reflexivity | lra | lra].
Qed.

Lemma fround_0 : fround 0 = 0.
Proof.
  unfold fround. destruct (total_order_T 0 0) as [[H|H]|H]; [lra | reflexivity | lra].
Qed.

Lemma fround_neg (x : R) : x < 0 -> fround x = - roundPositive (- x).
Proof.
  intros Hx. unfold fround.
  destruct (total_order_T 0 x) as [[H|H]|H]; [lra | lra | reflexivity].
Qed.

Lemma fround_opp (x : R) : fround (- x) = - fround x.
Proof.
  destruct (Rtotal_order x 0) as [H|[->|H]].
  - rewrite (fround_pos (- x)) by lra. rewrite (fround_neg x H). ring.
  - rewrite Ropp_0, fround_0. ring.
  - rewrite (fround_neg (- x)) by lra. rewrite (fround_pos x) by lra.
    now rewrite Ropp_involutive.
Qed.

Lemma fround_nonneg (x : R) : 0 <= x -> 0 <= fround x.
Proof.
  intros [Hx|<-]; [|rewrite fround_0; lra].
  rewrite fround_pos by exact Hx. now apply roundPositive_nonneg.
Qed.

(** Rounding keeps the order. *)
Lemma fround_mono (x y : R) : x <= y -> fround x <= fround y.
Proof.
  intros Hxy.
  destruct (Rtotal_order x 0) as [Hx|[->|Hx]];
    destruct (Rtotal_order y 0) as [Hy|[->|Hy]]; try lra.
  - rewrite (fround_neg x Hx), (fround_neg y Hy).
    apply Ropp_le_contravar. apply roundPositive_mono; lra.
  - rewrite fround_0, (fround_neg x Hx).
    pose proof (roundPositive_nonneg (- x) ltac:(lra)). lra.
  - rewrite (fround_neg x Hx).
    pose proof (roundPositive_nonneg (- x) ltac:(lra)).
    pose proof (fround_nonneg y ltac:(lra)). lra.
  - rewrite fround_0. apply fround_nonneg. lra.
  - rewrite !fround_pos by lra. now apply roundPositive_mono.
Qed.

(** The rounding error: at most [2^-24] of the number, or half the
    subnormal spacing. *)
Lemma fround_error (x : R) :
  Rabs (fround x - x) <= eps * Rabs x + tiny.
Proof.
  assert (Hpos : forall y, 0 < y -> Rabs (roundPositive y - y) <= eps * y + tiny).
  { intros y Hy. destruct (roundPositive_shape y Hy) as (n & _ & _ & _ & Herr).
    destruct (binade_spec y Hy) as [Blo _].
    eapply Rle_trans; [exact Herr|]. unfold lastBit, eps, tiny.
    pose proof (pow2_pos (-150)) as Ht.
    destruct (Z.max_spec (binade y - 23) (-149)) as [[_ ->]|[_ ->]].
    - replace (pow2 (-149)) with (2 * pow2 (-150))
        by (rewrite <- pow2_succ; reflexivity).
      assert (0 <= / 16777216 * y) by nra. lra.
    - replace (pow2 (binade y - 23) / 2) with (/ 16777216 * pow2 (binade y)).
      + assert (/ 16777216 * pow2 (binade y) <= / 16777216 * y) by nra. lra.
      + rewrite pow2_sub. unfold pow2 at 3. simpl.
        field; apply Rgt_not_eq, pow2_pos. }
  destruct (Rtotal_order x 0) as [Hx|[->|Hx]].
  - rewrite (fround_neg x Hx), (Rabs_left x Hx).
    replace (- roundPositive (- x) - x) with (- (roundPositive (- x) - - x)) by ring.
    rewrite Rabs_Ropp. apply Hpos. lra.
  - rewrite fround_0, Rminus_0_r, Rabs_R0.
    pose proof (pow2_pos (-150)). unfold tiny. lra.
  - rewrite (fround_pos x Hx), (Rabs_pos_eq x) by lra. now apply Hpos.
Qed.

(** An integer of at most 24 bits times a power of two not below the
    subnormal spacing is a float32. *)
Lemma representable_dyadic (n e : Z) :
  (Z.abs n <= 2 ^ 24)%Z -> (-149 <= e)%Z -> representable (IZR n * pow2 e).
Proof.
  assert (Hstrict : forall m k, (0 < m < 2 ^ 24)%Z -> (-149 <= k)%Z ->
            roundPositive (IZR m * pow2 k) = IZR m * pow2 k).
  { intros m k Hm Hk. set (v := IZR m * pow2 k).
    pose proof (pow2_pos k) as Hpk.
    assert (Hm1 : 1 <= IZR m) by (apply IZR_le; lia).
    assert (Hm2 : IZR m < IZR (2 ^ 24)) by (apply IZR_lt; lia).
    assert (Hv : 0 < v) by (unfold v; nra).
    destruct (binade_spec v Hv) as [Blo Bhi].
    assert (Hb : (binade v < k + 24)%Z).
    { apply pow2_lt_inv. apply Rle_lt_trans with v; [exact Blo|].
      rewrite Z.add_comm, pow2_add, (pow2_nat 24) by lia. unfold v. nra. }
    unfold roundPositive. set (e' := lastBit v).
    assert (He' : (e' <= k)%Z) by (unfold e', lastBit; lia).
    pose proof (pow2_pos e') as Hpe.
    assert (Hz : v / pow2 e' = IZR (m * 2 ^ (k - e'))).
    { rewrite mult_IZR, <- pow2_nat by lia. rewrite pow2_sub. unfold v.
      field. lra. }
    rewrite Hz, nearestEven_IZR, <- Hz. field. lra. }
  assert (Hpositive : forall m k, (0 < m <= 2 ^ 24)%Z -> (-149 <= k)%Z ->
            roundPositive (IZR m * pow2 k) = IZR m * pow2 k).
  { intros m k Hm Hk.
    destruct (Z.eq_dec m (2 ^ 24)) as [->|Hne]; [|apply Hstrict; lia].
    replace (IZR (2 ^ 24) * pow2 k) with (IZR (2 ^ 23) * pow2 (k + 1)).
    - apply Hstrict; lia.
    - rewrite pow2_succ.
      replace (2 ^ 24)%Z with (2 * 2 ^ 23)%Z by reflexivity.
      rewrite mult_IZR. ring. }
  intros Hn He. unfold representable.
  pose proof (pow2_pos e) as Hpe.
  destruct (Z.lt_trichotomy n 0) as [Hneg|[->|Hposn]].
  - assert (IZR n < 0) by (apply IZR_lt; lia).
    rewrite fround_neg by nra.
    replace (- (IZR n * pow2 e)) with (IZR (- n) * pow2 e)
      by (rewrite opp_IZR; ring).
    rewrite Hpositive by lia. rewrite opp_IZR. ring.
  - rewrite Rmult_0_l. apply fround_0.
  - assert (0 < IZR n) by (apply IZR_lt; lia).
    rewrite fround_pos by nra. apply Hpositive; lia.
Qed.

(** What has been rounded is a float32. *)
Lemma fround_representable (x : R) : representable (fround x).
Proof.
  assert (Hpos : forall y, 0 < y -> representable (roundPositive y)).
  { intros y Hy. destruct (roundPositive_shape y Hy) as (n & -> & Hn & _).
    apply representable_dyadic; [lia | unfold lastBit; lia]. }
  destruct (Rtotal_order x 0) as [Hx|[->|Hx]].
  - rewrite (fround_neg x Hx). unfold representable.
    rewrite fround_opp. f_equal. apply Hpos. lra.
  - rewrite fround_0. unfold representable. apply fround_0.
  - rewrite (fround_pos x Hx). now apply Hpos.
Qed.

Lemma representable_0 : representable 0.
Proof. apply fround_0. Qed.

Lemma representable_opp (x : R) : representable x -> representable (- x).
Proof. unfold representable. intros H. now rewrite fround_opp, H. Qed.

(** An integer below [2^24] in size is a float32. *)
Lemma representable_IZR (n : Z) : (Z.abs n <= 2 ^ 24)%Z -> representable (IZR n).
Proof.
  intros Hn. replace (IZR n) with (IZR n * pow2 0) by (unfold pow2; simpl; ring).
  apply representable_dyadic; [exact Hn | lia].
Qed.

(** Rounding stays between two float32 numbers that enclose the
    number. *)
Lemma fround_between (a b x : R) :
  representable a -> representable b -> a <= x <= b -> a <= fround x <= b.
Proof.
  unfold representable. intros Ha Hb [H1 H2].
  split; [rewrite <- Ha | rewrite <- Hb]; now apply fround_mono.
Qed.

Lemma fround_bound (B x : R) :
  representable B -> Rabs x <= B -> Rabs (fround x) <= B.
Proof.
  intros HB Hx. apply Rabs_le.
  assert (Hx' : - B <= x <= B).
  { unfold Rabs in Hx. destruct (Rcase_abs x); lra. }
  apply fround_between; [now apply representable_opp | exact HB | exact Hx'].
Qed.

(** The value of a rounding, from the binade of the number and the
    integer nearest to its multiple of the last bit. *)
Lemma fround_eval (x : R) (b n : Z) :
  pow2 b <= x < pow2 (b + 1) -> (-126 <= b)%Z ->
  Rabs (x / pow2 (b - 23) - IZR n) < 1 / 2 ->
  fround x = IZR n * pow2 (b - 23).
Proof.
  intros Hx Hb Hn. assert (Hpos : 0 < x) by (pose proof (pow2_pos b); lra).
  rewrite (fround_pos x Hpos). unfold roundPositive, lastBit.
  rewrite (binade_unique x b Hx). rewrite Z.max_l by lia.
  now rewrite (nearestEven_unique _ n Hn).
Qed.

End Float32Facts.

Set Implicit Arguments.

(** ** The interpolation engine *)

Section Buffers.
Local Open Scope R_scope.
Import Engine.

Lemma store_length {A : Type} (a : list A) (i : nat) (v : A) :
  List.length (store a i v) = List.length a.
Proof.
  revert i. induction a as [|h a IH]; intros [|i]; simpl; auto.
Qed.

Lemma store_nth_same {A : Type} (a : list A) (i : nat) (v dflt : A) :
  (i < List.length a)%nat -> nth i (store a i v) dflt = v.
Proof.
  revert i. induction a as [|h a IH]; intros [|i] Hi; simpl in *;
    try lia; auto. apply IH. lia.
Qed.

Lemma store_nth_other {A : Type} (a : list A) (i j : nat) (v dflt : A) :
  i <> j -> nth j (store a i v) dflt = nth j a dflt.
Proof.
  revert i j. induction a as [|h a IH]; intros [|i] [|j] Hij; simpl;
    try congruence; auto.
Qed.

Lemma blend_spec (positions : list R) (j : nat) (target alpha : R) :
  (j < List.length positions)%nat ->
  blend positions j target alpha
  = Done (store positions j
            (Float32.fround (MathUtils.lerp (nth j positions 0) target alpha))).
Proof.
  intros Hj. unfold blend, Float32.write.
  now rewrite (@at_nth _ positions j 0 Hj).
Qed.

(** The three writes for particle [i]: entries [i*3 .. i*3+2] are
    blended towards the target and rounded by the store, all others
    are untouched. *)
Lemma blend3_spec (positions : list R) (i : nat) (target : R * R * R) (alpha : R) :
  (i * 3 + 2 < List.length positions)%nat ->
  exists positions',
    blend3 positions i target alpha = Done positions'
    /\ List.length positions' = List.length positions
    /\ (forall k, (k < 3)%nat ->
          nth (i * 3 + k) positions' 0
          = Float32.fround
              (MathUtils.lerp (nth (i * 3 + k) positions 0) (axis k target) alpha))
    /\ (forall j, (j < i * 3 \/ i * 3 + 3 <= j)%nat ->
          nth j positions' 0 = nth j positions 0).
Proof.
  intros Hlen. destruct target as [[tx ty] tz]. unfold blend3.
  rewrite blend_spec by lia. cbn [bind].
  rewrite blend_spec by (rewrite store_length; lia). cbn [bind].
  rewrite blend_spec by (rewrite !store_length; lia).
  eexists. split; [reflexivity|].
  split; [now rewrite !store_length|]. split.
  - intros k Hk.
    destruct k as [|[|[|k]]]; [| | |lia]; cbn [axis fst snd].
    + rewrite Nat.add_0_r.
      rewrite !(store_nth_other _ (i:=i * 3 + 2)) by lia.
      rewrite !(store_nth_other _ (i:=i * 3 + 1)) by lia.
      now rewrite store_nth_same by lia.
    + rewrite !(store_nth_other _ (i:=i * 3 + 2)) by lia.
      rewrite store_nth_same by (rewrite store_length; lia).
      now rewrite store_nth_other by lia.
    + rewrite store_nth_same by (rewrite !store_length; lia).
      now rewrite !store_nth_other by lia.
  - intros j Hj. now rewrite !store_nth_other by lia.
Qed.

Lemma forEach_app {A S : Type} (body : S -> A -> Outcome S) (l1 l2 : list A) (s : S) :
  forEach body (l1 ++ l2) s = (s' <- forEach body l1 s ;; forEach body l2 s').
Proof.
  revert s. induction l1 as [|a l1 IH]; intros s; [reflexivity|].
  simpl. destruct (body s a); [apply IH | reflexivity].
Qed.

(** A loop whose body blends particle [i] towards [target i]: every
    particle below [n] is blended once from its old position, the
    rest of the buffer is untouched, and no read is out of range. *)
Lemma forLoop_blend3 (alpha : R) (target : nat -> R * R * R)
  (body : list R -> nat -> Outcome (list R)) (n : nat) (positions : list R) :
  (forall p i, (i < n)%nat -> List.length p = List.length positions ->
     body p i = blend3 p i (target i) alpha) ->
  (n * 3 <= List.length positions)%nat ->
  exists positions',
    forLoop n body positions = Done positions'
    /\ List.length positions' = List.length positions
    /\ (forall i k, (i < n)%nat -> (k < 3)%nat ->
          nth (i * 3 + k) positions' 0
          = Float32.fround
              (MathUtils.lerp (nth (i * 3 + k) positions 0)
                 (axis k (target i)) alpha))
    /\ (forall j, (n * 3 <= j)%nat -> nth j positions' 0 = nth j positions 0).
Proof.
  intros Hbody Hlen. unfold forLoop.
  assert (Hprefix : forall m, (m <= n)%nat ->
    exists positions',
      forEach body (seq 0 m) positions = Done positions'
      /\ List.length positions' = List.length positions
      /\ (forall i k, (i < m)%nat -> (k < 3)%nat ->
            nth (i * 3 + k) positions' 0
            = Float32.fround
                (MathUtils.lerp (nth (i * 3 + k) positions 0)
                   (axis k (target i)) alpha))
      /\ (forall j, (m * 3 <= j)%nat -> nth j positions' 0 = nth j positions 0)).
  { induction m as [|m IH]; intros Hm.
    - exists positions. repeat split; auto. intros i k Hi. lia.
    - destruct IH as (p & Hrun & Hlp & Hdone & Hrest); [lia|].
      rewrite seq_S, forEach_app, Hrun. cbn [bind forEach Nat.add].
      rewrite Hbody by (lia || assumption).
      destruct (blend3_spec p m (target m) alpha) as (p' & Hb & Hlp' & Hnew & Hold);
        [lia|].
      rewrite Hb. cbn [bind]. exists p'.
      split; [reflexivity|]. split; [lia|]. split.
      + intros i k Hi Hk. destruct (Nat.eq_dec i m) as [->|Hne].
        * rewrite Hnew by assumption. now rewrite Hrest by lia.
        * rewrite Hold by lia. apply Hdone; lia.
      + intros j Hj. rewrite Hold by lia. apply Hrest. lia. }
  now apply Hprefix.
Qed.

End Buffers.

(** Case split on an axis number below 3. *)
Ltac axis_cases k :=
  destruct k as [|[|[|k]]]; [| | |lia]; cbn [Engine.axis fst snd];
  rewrite ?Nat.add_0_r.

Section Groups.
Local Open Scope R_scope.
Import Engine.

(** One tick of the needles. *)
Lemma needleLoop_spec (n : nat) (mode : Mode) (t : R) (d : Tree.NeedleData)
  (positions : list R) :
  (n * 3 <= List.length (needleTargets mode d))%nat ->
  (n * 3 <= List.length positions)%nat ->
  exists positions',
    Tree.needleLoop n mode t d positions = Done positions'
    /\ List.length positions' = List.length positions
    /\ forall i k, (i < n)%nat -> (k < 3)%nat ->
         nth (i * 3 + k) positions' 0
         = Float32.fround
             (MathUtils.lerp (nth (i * 3 + k) positions 0)
                (nth (i * 3 + k) (needleTargets mode d) 0
                 + Tree.needleNoise (Mode_eqb mode FORMED) t i)
                Tree.lerpSpeed).
Proof.
  intros Hd Hp. unfold Tree.needleLoop.
  set (noise := Tree.needleNoise (Mode_eqb mode FORMED) t).
  destruct (@forLoop_blend3 Tree.lerpSpeed
              (fun i => (nth (i * 3) (needleTargets mode d) 0 + noise i,
                         nth (i * 3 + 1) (needleTargets mode d) 0 + noise i,
                         nth (i * 3 + 2) (needleTargets mode d) 0 + noise i))
              (Tree.needleBody (Mode_eqb mode FORMED) t d) n positions)
    as (p' & Hrun & Hlen & Hnew & _); [|assumption|].
  - intros p i Hi _. unfold Tree.needleBody, needleTargets in *.
    destruct (Mode_eqb mode FORMED);
      rewrite !(@at_nth _ _ _ 0) by lia; reflexivity.
  - exists p'. split; [exact Hrun|]. split; [exact Hlen|].
    intros i k Hi Hk. rewrite (Hnew i k Hi Hk).
    axis_cases k; reflexivity.
Qed.

(** One tick of the trunk. *)
Lemma trunkLoop_spec (n : nat) (mode : Mode) (d : Tree.TrunkData)
  (positions : list R) :
  (n * 3 <= List.length (Tree.trunk_formed d))%nat ->
  (n * 3 <= List.length positions)%nat ->
  exists positions',
    Tree.trunkLoop n mode d positions = Done positions'
    /\ List.length positions' = List.length positions
    /\ forall i k, (i < n)%nat -> (k < 3)%nat ->
         nth (i * 3 + k) positions' 0
         = Float32.fround
             (MathUtils.lerp (nth (i * 3 + k) positions 0)
                (nth (i * 3 + k) (Tree.trunk_formed d) 0 * trunkScale mode k)
                Tree.lerpSpeed).
Proof.
  intros Hd Hp. unfold Tree.trunkLoop.
  destruct (@forLoop_blend3 Tree.lerpSpeed
              (fun i => (nth (i * 3) (Tree.trunk_formed d) 0 * trunkScale mode 0,
                         nth (i * 3 + 1) (Tree.trunk_formed d) 0 * trunkScale mode 1,
                         nth (i * 3 + 2) (Tree.trunk_formed d) 0 * trunkScale mode 2))
              (Tree.trunkBody (Mode_eqb mode FORMED) d) n positions)
    as (p' & Hrun & Hlen & Hnew & _); [|assumption|].
  - intros p i Hi _. unfold Tree.trunkBody, trunkScale.
    rewrite !(@at_nth _ _ _ 0) by lia. cbn [bind].
    destruct (Mode_eqb mode FORMED); [|reflexivity].
    now rewrite !Rmult_1_r.
  - exists p'. split; [exact Hrun|]. split; [exact Hlen|].
    intros i k Hi Hk. rewrite (Hnew i k Hi Hk).
    axis_cases k; reflexivity.
Qed.

(** One tick of the gold dust. *)
Lemma dustLoop_spec (n : nat) (mode : Mode) (t : R) (d : Tree.DustData)
  (positions : list R) :
  (n * 3 <= List.length (dustTargets mode d))%nat ->
  (n * 3 <= List.length positions)%nat ->
  exists positions',
    Tree.dustLoop n mode t d positions = Done positions'
    /\ List.length positions' = List.length positions
    /\ forall i k, (i < n)%nat -> (k < 3)%nat ->
         nth (i * 3 + k) positions' 0
         = Float32.fround
             (MathUtils.lerp (nth (i * 3 + k) positions 0)
                (if Mode_eqb mode FORMED then dustSpun t d i k
                 else nth (i * 3 + k) (Tree.dust_chaos d) 0)
                0.02).
Proof.
  intros Hd Hp. unfold Tree.dustLoop.
  destruct (@forLoop_blend3 0.02
              (fun i => if Mode_eqb mode FORMED
                        then (dustSpun t d i 0, dustSpun t d i 1, dustSpun t d i 2)
                        else (nth (i * 3) (Tree.dust_chaos d) 0,
                              nth (i * 3 + 1) (Tree.dust_chaos d) 0,
                              nth (i * 3 + 2) (Tree.dust_chaos d) 0))
              (Tree.dustBody (Mode_eqb mode FORMED) t d) n positions)
    as (p' & Hrun & Hlen & Hnew & _); [|assumption|].
  - intros p i Hi _. unfold Tree.dustBody, Tree.dustTarget, dustTargets, dustSpun in *.
    destruct (Mode_eqb mode FORMED);
      rewrite !(@at_nth _ _ _ 0) by lia; reflexivity.
  - exists p'. split; [exact Hrun|]. split; [exact Hlen|].
    intros i k Hi Hk. rewrite (Hnew i k Hi Hk).
    destruct (Mode_eqb mode FORMED); axis_cases k; reflexivity.
Qed.

(** One tick of an ornament group (gifts, balls, lights). *)
Lemma animateGroup_spec (mode : Mode) (d : Atmosphere.GroupData)
  (config : Atmosphere.InstanceConfig) (current : list R) :
  (Atmosphere.count config * 3 <= List.length (groupTargets mode d))%nat ->
  (Atmosphere.count config * 3 <= List.length current)%nat ->
  exists current',
    Atmosphere.animateGroup mode d config current = Done current'
    /\ List.length current' = List.length current
    /\ forall i k, (i < Atmosphere.count config)%nat -> (k < 3)%nat ->
         nth (i * 3 + k) current' 0
         = Float32.fround
             (MathUtils.lerp (nth (i * 3 + k) current 0)
                (nth (i * 3 + k) (groupTargets mode d) 0)
                (Atmosphere.weight config)).
Proof.
  intros Hd Hp. unfold Atmosphere.animateGroup.
  destruct (@forLoop_blend3 (Atmosphere.weight config)
              (fun i => (nth (i * 3) (groupTargets mode d) 0,
                         nth (i * 3 + 1) (groupTargets mode d) 0,
                         nth (i * 3 + 2) (groupTargets mode d) 0))
              (Atmosphere.animateBody (Mode_eqb mode FORMED) d config)
              (Atmosphere.count config) current)
    as (p' & Hrun & Hlen & Hnew & _); [|assumption|].
  - intros p i Hi _. unfold Atmosphere.animateBody, groupTargets in *.
    destruct (Mode_eqb mode FORMED);
      rewrite !(@at_nth _ _ _ 0) by lia; reflexivity.
  - exists p'. split; [exact Hrun|]. split; [exact Hlen|].
    intros i k Hi Hk. rewrite (Hnew i k Hi Hk).
    axis_cases k; reflexivity.
Qed.

End Groups.

Section Convergence.
Local Open Scope R_scope.
Import Engine.

Lemma Rabs_le_between (x r : R) : Rabs x <= r -> - r <= x <= r.
Proof. intros H. unfold Rabs in H. destruct (Rcase_abs x); lra. Qed.

Lemma lerp_towards (c target alpha : R) :
  MathUtils.lerp c target alpha - target = (1 - alpha) * (c - target).
Proof. unfold MathUtils.lerp. ring. Qed.


(** A blend lies between the two numbers blended. *)
Lemma lerp_size (c target alpha B : R) :
  0 <= alpha <= 1 -> Rabs c <= B -> Rabs target <= B ->
  Rabs (MathUtils.lerp c target alpha) <= B.
Proof.
  intros Ha Hc Ht. unfold MathUtils.lerp.
  eapply Rle_trans; [apply Rabs_triang|].
  rewrite !Rabs_mult, (Rabs_pos_eq (1 - alpha)), (Rabs_pos_eq alpha) by lra.
  pose proof (Rabs_pos c). pose proof (Rabs_pos target). nra.
Qed.

Lemma rounding_covers (x v : R) :
  Rabs x <= v -> Rabs (Float32.fround x - x) <= rounding v.
Proof.
  intros Hx. eapply Rle_trans; [apply fround_error|]. unfold rounding.
  pose proof (Rabs_pos x).
  assert (0 < Float32.eps) by (unfold Float32.eps; lra). nra.
Qed.

Lemma rounding_nonneg (v : R) : 0 <= v -> 0 <= rounding v.
Proof.
  intros Hv. unfold rounding, Float32.tiny, Float32.eps.
  pose proof (pow2_pos (-150)). nra.
Qed.

Lemma rounding_mono (u v : R) : u <= v -> rounding u <= rounding v.
Proof. intros H. unfold rounding, Float32.eps. lra. Qed.

(** One stored blend: the new value is no larger than the bound of
    the old value and the target, and its distance to the target is
    the old one times [1 - alpha], up to the rounding of the store. *)
Lemma stored_blend (c target alpha B : R) :
  0 < alpha < 1 -> Float32.representable B ->
  Rabs c <= B -> Rabs target <= B ->
  let c' := Float32.fround (MathUtils.lerp c target alpha) in
  Rabs c' <= B
  /\ Rabs (c' - target) <= (1 - alpha) * Rabs (c - target) + rounding B.
Proof.
  intros Ha HB Hc Ht c'. subst c'.
  pose proof (@lerp_size c target alpha B ltac:(lra) Hc Ht) as Hl.
  split; [now apply fround_bound|].
  set (x := MathUtils.lerp c target alpha) in *.
  replace (Float32.fround x - target)
    with ((Float32.fround x - x) + (x - target)) by ring.
  eapply Rle_trans; [apply Rabs_triang|].
  unfold x at 3. rewrite lerp_towards, Rabs_mult, (Rabs_pos_eq (1 - alpha)) by lra.
  pose proof (@rounding_covers x _ Hl). lra.
Qed.

(** A stored blend of a float32 towards a float32 ends between the
    two, so no further from the target. *)
Lemma stored_blend_no_further (c target alpha : R) :
  0 < alpha < 1 -> Float32.representable c -> Float32.representable target ->
  Rabs (Float32.fround (MathUtils.lerp c target alpha) - target)
  <= Rabs (c - target).
Proof.
  intros Ha Hc Ht. set (x := MathUtils.lerp c target alpha).
  assert (Hx : x = c + alpha * (target - c)) by (unfold x, MathUtils.lerp; ring).
  destruct (Rle_dec c target) as [Hle|Hgt].
  - destruct (@fround_between c target x Hc Ht) as [H1 H2]; [nra|].
    rewrite (Rabs_left1 (c - target)), Rabs_left1 by lra. lra.
  - destruct (@fround_between target c x Ht Hc) as [H1 H2]; [nra|].
    rewrite (Rabs_pos_eq (c - target)), Rabs_pos_eq by lra. lra.
Qed.

(** Entries [i*3+k] with [i < n] and [k < 3] are the entries below [n*3]. *)
Lemma flat_index (n : nat) (P : nat -> Prop) :
  (forall i k, (i < n)%nat -> (k < 3)%nat -> P (i * 3 + k)%nat) ->
  forall j, (j < n * 3)%nat -> P j.
Proof.
  intros H j Hj.
  replace j with ((j / 3) * 3 + j mod 3)%nat
    by (rewrite (Nat.div_mod_eq j 3) at 3; lia).
  apply H.
  - apply Nat.Div0.div_lt_upper_bound. lia.
  - apply Nat.mod_upper_bound. lia.
Qed.

(** Ticks that keep the buffer length can be iterated without fault. *)
Lemma ticks_length (tick : nat -> list R -> Outcome (list R)) (size : nat) :
  (forall k p, List.length p = size ->
     exists p', tick k p = Done p' /\ List.length p' = size) ->
  forall m p0, List.length p0 = size ->
    exists p, ticks tick m p0 = Done p /\ List.length p = size.
Proof.
  intros Htick m p0 Hp0. induction m as [|m (p & Hrun & Hlen)].
  - now exists p0.
  - destruct (Htick m p Hlen) as (p' & Hp' & Hlen').
    exists p'. simpl. rewrite Hrun. now split.
Qed.

Lemma finite_bound (f : nat -> R) (size : nat) :
  exists bound, 0 < bound /\ forall j, (j < size)%nat -> Rabs (f j) <= bound.
Proof.
  induction size as [|size (b & Hb & Hall)].
  - exists 1. split; [lra|]. intros j Hj. lia.
  - exists (b + Rabs (f size)). pose proof (Rabs_pos (f size)).
    split; [lra|]. intros j Hj.
    destruct (Nat.eq_dec j size) as [->|Hne]; [lra|].
    specialize (Hall j ltac:(lia)). lra.
Qed.

(** Ticks that store a blend of the first [size] entries towards a
    target that does not move: what [m] of them give. *)
Lemma stored_ticks (tick : nat -> list R -> Outcome (list R))
  (target : nat -> R) (alpha B : R) (size len : nat) (p0 : list R) :
  0 < alpha < 1 -> Float32.representable B ->
  (forall k p, List.length p = len ->
     exists p', tick k p = Done p' /\ List.length p' = len
                /\ forall j, (j < size)%nat ->
                     nth j p' 0
                     = Float32.fround
                         (MathUtils.lerp (nth j p 0) (target j) alpha)) ->
  List.length p0 = len ->
  bounded B size (entry p0) -> bounded B size target ->
  forall m, exists p,
    ticks tick m p0 = Done p /\ List.length p = len
    /\ bounded B size (entry p)
    /\ (float32s size (entry p0) -> float32s size (entry p))
    /\ forall j, (j < size)%nat ->
         dist p target j
         <= (1 - alpha) ^ m * dist p0 target j
            + rounding B / alpha * (1 - (1 - alpha) ^ m).
Proof.
  intros Ha HB Htick Hp0 Hb0 Hbt m.
  induction m as [|m (p & Hrun & Hlen & Hb & Hf & Hd)].
  - exists p0. split; [reflexivity|]. split; [exact Hp0|].
    split; [exact Hb0|]. split; [auto|]. intros j Hj. simpl. lra.
  - destruct (Htick m p Hlen) as (p' & Hp' & Hlen' & Hnew).
    exists p'. simpl ticks. rewrite Hrun. cbn [bind].
    split; [exact Hp'|]. split; [exact Hlen'|].
    assert (Hstep : forall j, (j < size)%nat ->
              Rabs (nth j p' 0) <= B
              /\ dist p' target j <= (1 - alpha) * dist p target j + rounding B).
    { intros j Hj. unfold dist. rewrite (Hnew j Hj).
      apply stored_blend; auto. apply (Hb j Hj). }
    split; [intros j Hj; apply (Hstep j Hj)|]. split.
    + intros _ j Hj. unfold entry. rewrite (Hnew j Hj).
      apply fround_representable.
    + intros j Hj. destruct (Hstep j Hj) as [_ Hs]. specialize (Hd j Hj).
      eapply Rle_trans; [exact Hs|].
      apply Rle_trans
        with ((1 - alpha)
              * ((1 - alpha) ^ m * dist p0 target j
                 + rounding B / alpha * (1 - (1 - alpha) ^ m))
              + rounding B); [nra|].
      right. simpl. field. lra.
Qed.

(** The three facts about such ticks. *)
Lemma stored_ticks_close_in (tick : nat -> list R -> Outcome (list R))
  (target : nat -> R) (alpha B : R) (size len : nat) (p0 : list R) :
  0 < alpha < 1 -> Float32.representable B ->
  (forall k p, List.length p = len ->
     exists p', tick k p = Done p' /\ List.length p' = len
                /\ forall j, (j < size)%nat ->
                     nth j p' 0
                     = Float32.fround
                         (MathUtils.lerp (nth j p 0) (target j) alpha)) ->
  List.length p0 = len ->
  bounded B size (entry p0) -> bounded B size target ->
  closesIn (fun m => ticks tick m p0) target size alpha (rounding B / alpha)
  /\ comesWithin (fun m => ticks tick m p0) target size (rounding B / alpha)
  /\ (float32s size (entry p0) -> float32s size target ->
      neverRecedes (fun m => ticks tick m p0) target size).
Proof.
  intros Ha HB Htick Hp0 Hb0 Hbt.
  pose proof (@stored_ticks tick target alpha B size len p0 Ha HB Htick Hp0 Hb0 Hbt)
    as Hall.
  assert (Hpow : forall m, 0 <= (1 - alpha) ^ m <= 1).
  { intros m. induction m as [|m [IH1 IH2]]; simpl; [lra|]. split; nra. }
  assert (Hclose : forall m, exists p,
            ticks tick m p0 = Done p
            /\ forall j, (j < size)%nat ->
                 dist p target j
                 <= (1 - alpha) ^ m * dist p0 target j + rounding B / alpha).
  { intros m. destruct (Hall m) as (p & Hrun & _ & _ & _ & Hd).
    exists p. split; [exact Hrun|]. intros j Hj.
    eapply Rle_trans; [apply (Hd j Hj)|].
    assert (HB0 : 0 <= B).
    { pose proof (Hb0 j Hj). pose proof (Rabs_pos (entry p0 j)). lra. }
    pose proof (@rounding_nonneg B HB0) as Hr.
    assert (Hq : 0 <= rounding B / alpha)
      by (apply Rmult_le_pos; [exact Hr | left; apply Rinv_0_lt_compat; lra]).
    specialize (Hpow m). nra. }
  split; [|split].
  - exists p0. split; [reflexivity | exact Hclose].
  - intros tol Htol.
    destruct (finite_bound (fun j => nth j p0 0 - target j) size) as (b & Hb & Hbound).
    destruct (pow_lt_1_zero (1 - alpha)) with (y := (tol - rounding B / alpha) / b)
      as [bound Hbound'].
    { rewrite Rabs_pos_eq; lra. }
    { apply Rdiv_lt_0_compat; lra. }
    exists bound. intros m Hm. destruct (Hclose m) as (p & Hrun & Hd).
    exists p. split; [exact Hrun|]. intros j Hj.
    eapply Rle_lt_trans; [apply (Hd j Hj)|].
    specialize (Hbound' m ltac:(lia)). specialize (Hbound j Hj).
    rewrite Rabs_pos_eq in Hbound' by apply Hpow.
    assert (Hd0 : dist p0 target j <= b) by exact Hbound.
    pose proof (Rabs_pos (nth j p0 0 - target j)) as Hd1. fold (dist p0 target j) in Hd1.
    assert (Hlt : (1 - alpha) ^ m * b < tol - rounding B / alpha).
    { apply Rmult_lt_compat_r with (r := b) in Hbound'; [|exact Hb].
      replace ((tol - rounding B / alpha) / b * b)
        with (tol - rounding B / alpha) in Hbound' by (field; lra).
      exact Hbound'. }
    specialize (Hpow m). nra.
  - intros Hf0 Hft m.
    destruct (Hall m) as (p & Hrun & Hlen & _ & Hf & _).
    destruct (Htick m p Hlen) as (p' & Hp' & _ & Hnew).
    exists p, p'. split; [exact Hrun|].
    split; [simpl ticks; rewrite Hrun; exact Hp'|].
    intros j Hj. unfold dist. rewrite (Hnew j Hj).
    apply stored_blend_no_further; [exact Ha | apply (Hf Hf0 j Hj) | apply (Hft j Hj)].
Qed.

End Convergence.

Section FlatTicks.
Local Open Scope R_scope.
Import Engine.

Lemma needleNoise_bound (mode : Mode) (t : R) (i : nat) :
  Rabs (Tree.needleNoise (Mode_eqb mode FORMED) t i) <= needleNoiseBound mode.
Proof.
  destruct mode; cbn [Mode_eqb Tree.needleNoise needleNoiseBound].
  - apply Rabs_le. pose proof (SIN_bound (t + INR i)). lra.
  - rewrite Rabs_R0. lra.
Qed.

(** A needle tick on flat indices. *)
Lemma needleLoop_flat (n : nat) (mode : Mode) (t : R) (d : Tree.NeedleData)
  (len : nat) (p : list R) :
  (n * 3 <= List.length (needleTargets mode d))%nat ->
  (n * 3 <= len)%nat -> List.length p = len ->
  exists p',
    Tree.needleLoop n mode t d p = Done p' /\ List.length p' = len
    /\ forall j, (j < n * 3)%nat ->
         nth j p' 0
         = Float32.fround
             (MathUtils.lerp (nth j p 0)
                (nth j (needleTargets mode d) 0
                 + Tree.needleNoise (Mode_eqb mode FORMED) t (j / 3))
                Tree.lerpSpeed).
Proof.
  intros Hd Hlen Hp.
  destruct (needleLoop_spec n mode t d p Hd) as (p' & Hrun & Hl & Hnew); [lia|].
  exists p'. split; [exact Hrun|]. split; [lia|].
  apply flat_index. intros i k Hi Hk. rewrite (Hnew i k Hi Hk).
  replace ((i * 3 + k) / 3)%nat with i; [reflexivity|].
  apply Nat.div_unique with k; lia.
Qed.

(** A trunk tick on flat indices. *)
Lemma trunkLoop_flat (n : nat) (mode : Mode) (d : Tree.TrunkData)
  (len : nat) (p : list R) :
  (n * 3 <= List.length (Tree.trunk_formed d))%nat ->
  (n * 3 <= len)%nat -> List.length p = len ->
  exists p',
    Tree.trunkLoop n mode d p = Done p' /\ List.length p' = len
    /\ forall j, (j < n * 3)%nat ->
         nth j p' 0
         = Float32.fround
             (MathUtils.lerp (nth j p 0) (trunkTarget mode d j) Tree.lerpSpeed).
Proof.
  intros Hd Hlen Hp.
  destruct (trunkLoop_spec n mode d p Hd) as (p' & Hrun & Hl & Hnew); [lia|].
  exists p'. split; [exact Hrun|]. split; [lia|].
  apply flat_index. intros i k Hi Hk. rewrite (Hnew i k Hi Hk).
  unfold trunkTarget.
  replace ((i * 3 + k) mod 3)%nat with k; [reflexivity|].
  apply Nat.mod_unique with i; lia.
Qed.

(** A tick of the scattered gold dust on flat indices. *)
Lemma dustLoop_chaos_flat (n : nat) (t : R) (d : Tree.DustData)
  (len : nat) (p : list R) :
  (n * 3 <= List.length (Tree.dust_chaos d))%nat ->
  (n * 3 <= len)%nat -> List.length p = len ->
  exists p',
    Tree.dustLoop n CHAOS t d p = Done p' /\ List.length p' = len
    /\ forall j, (j < n * 3)%nat ->
         nth j p' 0
         = Float32.fround
             (MathUtils.lerp (nth j p 0) (nth j (Tree.dust_chaos d) 0) 0.02).
Proof.
  intros Hd Hlen Hp.
  destruct (dustLoop_spec n CHAOS t d p Hd) as (p' & Hrun & Hl & Hnew); [lia|].
  exists p'. split; [exact Hrun|]. split; [lia|].
  apply flat_index. intros i k Hi Hk. now rewrite (Hnew i k Hi Hk).
Qed.

(** A tick of an ornament group on flat indices. *)
Lemma animateGroup_flat (mode : Mode) (d : Atmosphere.GroupData)
  (config : Atmosphere.InstanceConfig) (len : nat) (p : list R) :
  (Atmosphere.count config * 3 <= List.length (groupTargets mode d))%nat ->
  (Atmosphere.count config * 3 <= len)%nat -> List.length p = len ->
  exists p',
    Atmosphere.animateGroup mode d config p = Done p' /\ List.length p' = len
    /\ forall j, (j < Atmosphere.count config * 3)%nat ->
         nth j p' 0
         = Float32.fround
             (MathUtils.lerp (nth j p 0) (nth j (groupTargets mode d) 0)
                (Atmosphere.weight config)).
Proof.
  intros Hd Hlen Hp.
  destruct (animateGroup_spec mode d config p Hd) as (p' & Hrun & Hl & Hnew); [lia|].
  exists p'. split; [exact Hrun|]. split; [lia|].
  apply flat_index. intros i k Hi Hk. now rewrite (Hnew i k Hi Hk).
Qed.

Lemma instance_weights (config : Atmosphere.InstanceConfig) :
  In config [Atmosphere.gifts; Atmosphere.balls; Atmosphere.lights] ->
  0 < Atmosphere.weight config < 1.
Proof.
  intros [<-|[<-|[<-|[]]]]; cbn [Atmosphere.weight Atmosphere.gifts
    Atmosphere.balls Atmosphere.lights]; lra.
Qed.

(** A stored blend towards a target that carries a term of size at
    most [noise]: the distance to the target without the term. *)
Lemma stored_blend_noise (c target term alpha noise B : R) :
  0 < alpha < 1 -> Rabs term <= noise ->
  Rabs c <= B -> Rabs target + noise <= B ->
  Rabs (Float32.fround (MathUtils.lerp c (target + term) alpha) - target)
  <= (1 - alpha) * Rabs (c - target) + alpha * noise + rounding B.
Proof.
  intros Ha Hterm Hc Ht.
  assert (Htt : Rabs (target + term) <= B).
  { eapply Rle_trans; [apply Rabs_triang|]. lra. }
  pose proof (@lerp_size c (target + term) alpha B ltac:(lra) Hc Htt) as Hl.
  set (x := MathUtils.lerp c (target + term) alpha) in *.
  pose proof (@rounding_covers x _ Hl) as Hr.
  replace (Float32.fround x - target)
    with ((Float32.fround x - x) + ((1 - alpha) * (c - target) + alpha * term))
    by (unfold x, MathUtils.lerp; ring).
  eapply Rle_trans; [apply Rabs_triang|].
  eapply Rle_trans; [apply Rplus_le_compat_l, Rabs_triang|].
  rewrite !Rabs_mult, (Rabs_pos_eq (1 - alpha)), (Rabs_pos_eq alpha) by lra.
  nra.
Qed.


End FlatTicks.

(** C5 (amended): with the mode held constant, repeated ticks of the
    needles in FORMED mode, of the trunk and of the gifts, balls and
    lights in either mode, and of the gold dust in CHAOS mode close in
    on the target at the rate [1 - alpha] per tick, down to the
    rounding of the float32 stores.  With all values at most [B] in
    size, after [m] ticks every distance is at most [(1 - alpha)^m]
    times the distance at the start plus [rounding B / alpha]; every
    tolerance above that floor is reached after a bounded number of
    ticks and kept; and when the targets are float32 numbers no tick
    moves a coordinate away from its target.  The distance need not
    shrink at every tick, and it need not come below the floor.  For
    the needles in CHAOS mode a tick contracts the distance by
    [1 - 0.03] up to the noise term and the rounding.  For the gold
    dust in FORMED mode a tick contracts the distance to the target of
    that tick, which is spun with the clock. *)
Theorem C5_blend_closes_in (B : R) (HB : Float32.representable B) :
  (forall (n : nat) (clock : nat -> R) (d : Tree.NeedleData) (p0 : list R),
     (n * 3 <= List.length (Tree.needle_formed d))%nat ->
     (n * 3 <= List.length p0)%nat ->
     Engine.bounded B (n * 3) (Engine.entry p0) ->
     Engine.bounded B (n * 3) (Engine.entry (Tree.needle_formed d)) ->
     Engine.closesIn
       (fun m => Engine.ticks (fun k => Tree.needleLoop n FORMED (clock k) d) m p0)
       (Engine.entry (Tree.needle_formed d)) (n * 3)
       Tree.lerpSpeed (Engine.rounding B / Tree.lerpSpeed)
     /\ Engine.comesWithin
          (fun m => Engine.ticks (fun k => Tree.needleLoop n FORMED (clock k) d) m p0)
          (Engine.entry (Tree.needle_formed d)) (n * 3)
          (Engine.rounding B / Tree.lerpSpeed)
     /\ (Engine.float32s (n * 3) (Engine.entry p0) ->
         Engine.float32s (n * 3) (Engine.entry (Tree.needle_formed d)) ->
         Engine.neverRecedes
           (fun m => Engine.ticks
                       (fun k => Tree.needleLoop n FORMED (clock k) d) m p0)
           (Engine.entry (Tree.needle_formed d)) (n * 3)))
  /\ (forall (n : nat) (mode : Mode) (d : Tree.TrunkData) (p0 : list R),
        (n * 3 <= List.length (Tree.trunk_formed d))%nat ->
        (n * 3 <= List.length p0)%nat ->
        Engine.bounded B (n * 3) (Engine.entry p0) ->
        Engine.bounded B (n * 3) (Engine.trunkTarget mode d) ->
        Engine.closesIn
          (fun m => Engine.ticks (fun _ => Tree.trunkLoop n mode d) m p0)
          (Engine.trunkTarget mode d) (n * 3)
          Tree.lerpSpeed (Engine.rounding B / Tree.lerpSpeed)
        /\ Engine.comesWithin
             (fun m => Engine.ticks (fun _ => Tree.trunkLoop n mode d) m p0)
             (Engine.trunkTarget mode d) (n * 3)
             (Engine.rounding B / Tree.lerpSpeed)
        /\ (Engine.float32s (n * 3) (Engine.entry p0) ->
            Engine.float32s (n * 3) (Engine.trunkTarget mode d) ->
            Engine.neverRecedes
              (fun m => Engine.ticks (fun _ => Tree.trunkLoop n mode d) m p0)
              (Engine.trunkTarget mode d) (n * 3)))
  /\ (forall (n : nat) (clock : nat -> R) (d : Tree.DustData) (p0 : list R),
        (n * 3 <= List.length (Tree.dust_chaos d))%nat ->
        (n * 3 <= List.length p0)%nat ->
        Engine.bounded B (n * 3) (Engine.entry p0) ->
        Engine.bounded B (n * 3) (Engine.entry (Tree.dust_chaos d)) ->
        Engine.closesIn
          (fun m => Engine.ticks (fun k => Tree.dustLoop n CHAOS (clock k) d) m p0)
          (Engine.entry (Tree.dust_chaos d)) (n * 3)
          0.02%R (Engine.rounding B / 0.02)%R
        /\ Engine.comesWithin
             (fun m => Engine.ticks (fun k => Tree.dustLoop n CHAOS (clock k) d) m p0)
             (Engine.entry (Tree.dust_chaos d)) (n * 3)
             (Engine.rounding B / 0.02)%R
        /\ (Engine.float32s (n * 3) (Engine.entry p0) ->
            Engine.float32s (n * 3) (Engine.entry (Tree.dust_chaos d)) ->
            Engine.neverRecedes
              (fun m => Engine.ticks
                          (fun k => Tree.dustLoop n CHAOS (clock k) d) m p0)
              (Engine.entry (Tree.dust_chaos d)) (n * 3)))
  /\ (forall (config : Atmosphere.InstanceConfig) (mode : Mode)
             (d : Atmosphere.GroupData) (p0 : list R),
        In config [Atmosphere.gifts; Atmosphere.balls; Atmosphere.lights] ->
        (Atmosphere.count config * 3
         <= List.length (Engine.groupTargets mode d))%nat ->
        (Atmosphere.count config * 3 <= List.length p0)%nat ->
        Engine.bounded B (Atmosphere.count config * 3) (Engine.entry p0) ->
        Engine.bounded B (Atmosphere.count config * 3)
          (Engine.entry (Engine.groupTargets mode d)) ->
        Engine.closesIn
          (fun m => Engine.ticks
                      (fun _ => Atmosphere.animateGroup mode d config) m p0)
          (Engine.entry (Engine.groupTargets mode d))
          (Atmosphere.count config * 3)
          (Atmosphere.weight config)
          (Engine.rounding B / Atmosphere.weight config)
        /\ Engine.comesWithin
             (fun m => Engine.ticks
                         (fun _ => Atmosphere.animateGroup mode d config) m p0)
             (Engine.entry (Engine.groupTargets mode d))
             (Atmosphere.count config * 3)
             (Engine.rounding B / Atmosphere.weight config)
        /\ (Engine.float32s (Atmosphere.count config * 3) (Engine.entry p0) ->
            Engine.float32s (Atmosphere.count config * 3)
              (Engine.entry (Engine.groupTargets mode d)) ->
            Engine.neverRecedes
              (fun m => Engine.ticks
                          (fun _ => Atmosphere.animateGroup mode d config) m p0)
              (Engine.entry (Engine.groupTargets mode d))
              (Atmosphere.count config * 3)))
  /\ (forall (n : nat) (t : R) (d : Tree.NeedleData) (p : list R),
        (n * 3 <= List.length (Tree.needle_chaos d))%nat ->
        (n * 3 <= List.length p)%nat ->
        Engine.bounded B (n * 3) (Engine.entry p) ->
        Engine.bounded (B - 0.05) (n * 3) (Engine.entry (Tree.needle_chaos d)) ->
        exists p',
          Tree.needleLoop n CHAOS t d p = Done p'
          /\ forall j, (j < n * 3)%nat ->
               (Engine.dist p' (Engine.entry (Tree.needle_chaos d)) j
                <= (1 - 0.03)
                   * Engine.dist p (Engine.entry (Tree.needle_chaos d)) j
                   + 0.03 * 0.05 + Engine.rounding B)%R)
  /\ (forall (n : nat) (t : R) (d : Tree.DustData) (p : list R),
        (n * 3 <= List.length (Tree.dust_formed d))%nat ->
        (n * 3 <= List.length p)%nat ->
        Engine.bounded B (n * 3) (Engine.entry p) ->
        (forall i k, (i < n)%nat -> (k < 3)%nat ->
           (Rabs (Engine.dustSpun t d i k) <= B)%R) ->
        exists p',
          Tree.dustLoop n FORMED t d p = Done p'
          /\ forall i k, (i < n)%nat -> (k < 3)%nat ->
               (Rabs (nth (i * 3 + k) p' 0 - Engine.dustSpun t d i k)
                <= (1 - 0.02)
                   * Rabs (nth (i * 3 + k) p 0 - Engine.dustSpun t d i k)
                   + Engine.rounding B)%R).
Proof.
  split; [|split; [|split; [|split; [|split]]]].
  - intros n clock d p0 Hd Hp Hb0 Hbt.
    apply stored_ticks_close_in with (len := List.length p0);
      [unfold Tree.lerpSpeed; lra | exact HB | | reflexivity | exact Hb0 | exact Hbt].
    intros k p Hlen.
    destruct (@needleLoop_flat n FORMED (clock k) d (List.length p0) p Hd Hp Hlen)
      as (p' & Hrun & Hl & Hnew).
    exists p'. split; [exact Hrun|]. split; [exact Hl|].
    intros j Hj. rewrite (Hnew j Hj).
    cbn [Mode_eqb Tree.needleNoise Engine.needleTargets]. unfold Engine.entry.
    now rewrite Rplus_0_r.
  - intros n mode d p0 Hd Hp Hb0 Hbt.
    apply stored_ticks_close_in with (len := List.length p0);
      [unfold Tree.lerpSpeed; lra | exact HB | | reflexivity | exact Hb0 | exact Hbt].
    intros k p Hlen.
    apply (@trunkLoop_flat n mode d (List.length p0) p Hd Hp Hlen).
  - intros n clock d p0 Hd Hp Hb0 Hbt.
    apply stored_ticks_close_in with (len := List.length p0);
      [lra | exact HB | | reflexivity | exact Hb0 | exact Hbt].
    intros k p Hlen.
    apply (@dustLoop_chaos_flat n (clock k) d (List.length p0) p Hd Hp Hlen).
  - intros config mode d p0 Hin Hd Hp Hb0 Hbt.
    apply stored_ticks_close_in with (len := List.length p0);
      [now apply instance_weights | exact HB | | reflexivity
       | exact Hb0 | exact Hbt].
    intros k p Hlen.
    apply (@animateGroup_flat mode d config (List.length p0) p Hd Hp Hlen).
  - intros n t d p Hd Hp Hb Hbt.
    destruct (@needleLoop_flat n CHAOS t d (List.length p) p Hd Hp eq_refl)
      as (p' & Hrun & _ & Hnew).
    exists p'. split; [exact Hrun|]. intros j Hj. unfold Engine.dist.
    rewrite (Hnew j Hj). cbn [Engine.needleTargets Mode_eqb].
    pose proof (needleNoise_bound CHAOS t (j / 3)) as Hn.
    cbn [Mode_eqb Engine.needleNoiseBound] in Hn.
    specialize (Hb j Hj). specialize (Hbt j Hj). unfold Engine.entry in *.
    apply (@stored_blend_noise (nth j p 0%R) (nth j (Tree.needle_chaos d) 0%R)
             (Tree.needleNoise false t (j / 3)) 0.03%R 0.05%R B);
      [lra | exact Hn | exact Hb | lra].
  - intros n t d p Hd Hp Hb Hbt.
    destruct (dustLoop_spec n FORMED t d p Hd Hp) as (p' & Hrun & _ & Hnew).
    exists p'. split; [exact Hrun|]. intros i k Hi Hk.
    rewrite (Hnew i k Hi Hk). cbn [Mode_eqb].
    apply (@stored_blend (nth (i * 3 + k) p 0%R) (Engine.dustSpun t d i k)
             0.02%R B); [lra | exact HB | | apply (Hbt i k Hi Hk)].
    apply Hb. lia.
Qed.

Section DustSpin.
Local Open Scope R_scope.
Import Engine.

Lemma tiny_small : 0 < Float32.tiny <= / 1000000000000.
Proof.
  unfold Float32.tiny. split; [apply pow2_pos|].
  apply Rle_trans with (Float32.pow2 (-40)); [apply pow2_le; lia|].
  unfold Float32.pow2. simpl. lra.
Qed.

(** The error of a store of a number of size at most [v]. *)
Lemma fround_close (x v : R) :
  Rabs x <= v ->
  Rabs (Float32.fround x - x) <= v / 16777216 + / 1000000000000.
Proof.
  intros Hx. eapply Rle_trans; [apply fround_error|].
  pose proof tiny_small. unfold Float32.eps. lra.
Qed.

Lemma representable_6_75 : Float32.representable 6.75.
Proof.
  replace 6.75 with (IZR 27 * Float32.pow2 (-2))
    by (unfold Float32.pow2; simpl; lra).
  apply representable_dyadic; lia.
Qed.

(** Two successive ticks of formed gold dust whose particle 0 is
    stored at [(b, _, 0)] and starts with x on that target, the first
    at clock 0 and the second at clock [2 * PI]. *)
Lemma dust_half_turn (n : nat) (d : Tree.DustData) (p0 : list R)
  (clock : nat -> R) (b : R) :
  (0 < n)%nat ->
  (n * 3 <= List.length (Tree.dust_formed d))%nat ->
  (n * 3 <= List.length p0)%nat ->
  nth 0 (Tree.dust_formed d) 0 = b -> nth 2 (Tree.dust_formed d) 0 = 0 ->
  nth 0 p0 0 = b -> Float32.representable b ->
  clock 0%nat = 0 -> clock 1%nat = 2 * PI ->
  exists p1 p2,
    Tree.dustLoop n FORMED (clock 0%nat) d p0 = Done p1
    /\ Tree.dustLoop n FORMED (clock 1%nat) d p1 = Done p2
    /\ ticks (fun k => Tree.dustLoop n FORMED (clock k) d) 1 p0 = Done p1
    /\ ticks (fun k => Tree.dustLoop n FORMED (clock k) d) 2 p0 = Done p2
    /\ dustSpun (clock 0%nat) d 0 0 = b /\ dustSpun (clock 1%nat) d 0 0 = - b
    /\ nth 0 p1 0 = b /\ nth 0 p2 0 = Float32.fround (0.96 * b).
Proof.
  intros Hn Hd Hp HfX HfZ Hp0 Hrep Hc0 Hc1.
  assert (Hspun0 : dustSpun (clock 0%nat) d 0 0 = b).
  { unfold dustSpun. cbn [Nat.mul Nat.add]. rewrite HfX, HfZ, Hc0.
    replace (0 * 0.5) with 0 by lra. rewrite cos_0, sin_0. lra. }
  assert (Hspun1 : dustSpun (clock 1%nat) d 0 0 = - b).
  { unfold dustSpun. cbn [Nat.mul Nat.add]. rewrite HfX, HfZ, Hc1.
    replace (2 * PI * 0.5) with PI by lra. rewrite cos_PI, sin_PI. lra. }
  destruct (dustLoop_spec n FORMED (clock 0%nat) d p0 Hd Hp)
    as (p1 & Hrun1 & Hlen1 & Hnew1).
  destruct (dustLoop_spec n FORMED (clock 1%nat) d p1 Hd)
    as (p2 & Hrun2 & Hlen2 & Hnew2); [lia|].
  specialize (Hnew1 0%nat 0%nat Hn ltac:(lia)).
  specialize (Hnew2 0%nat 0%nat Hn ltac:(lia)).
  cbn [Nat.mul Nat.add Mode_eqb] in Hnew1, Hnew2.
  rewrite Hspun0, Hp0 in Hnew1.
  replace (MathUtils.lerp b b 0.02) with b in Hnew1
    by (unfold MathUtils.lerp; ring).
  rewrite Hrep in Hnew1.
  rewrite Hspun1, Hnew1 in Hnew2.
  replace (MathUtils.lerp b (- b) 0.02) with (0.96 * b) in Hnew2
    by (unfold MathUtils.lerp; lra).
  exists p1, p2. split; [exact Hrun1|]. split; [exact Hrun2|].
  split; [cbn [ticks bind]; exact Hrun1|].
  split; [cbn [ticks bind]; rewrite Hrun1; exact Hrun2|].
  split; [exact Hspun0|]. split; [exact Hspun1|].
  split; [exact Hnew1 | exact Hnew2].
Qed.

(** A run that settles never lets a distance grow between two
    successive ticks. *)
Lemma settles_step (run : nat -> Outcome (list R)) (target : nat -> R)
  (size m j : nat) (p p' : list R) :
  settles run target size ->
  run m = Done p -> run (S m) = Done p' -> (j < size)%nat ->
  dist p' target j <= dist p target j.
Proof.
  intros [Hmono _] Hp Hp' Hj.
  destruct (Hmono m) as (q & q' & Hq & Hq' & Hle).
  rewrite Hp in Hq. rewrite Hp' in Hq'.
  injection Hq as <-. injection Hq' as <-. now apply Hle.
Qed.

(** Arrays built from one triple per particle. *)
Lemma triples_length (f : nat -> list R) (l : list nat) :
  (forall i, List.length (f i) = 3%nat) ->
  List.length (flat_map f l) = (List.length l * 3)%nat.
Proof.
  intros Hf. induction l as [|i l IH]; [reflexivity|].
  cbn [flat_map]. rewrite length_app, Hf, IH. cbn [List.length]. lia.
Qed.

Lemma triples_head (f : nat -> list R) (n k : nat) :
  (0 < n)%nat -> (k < List.length (f 0%nat))%nat ->
  nth k (flat_map f (seq 0 n)) 0 = nth k (f 0%nat) 0.
Proof.
  intros Hn Hk. destruct n as [|n]; [lia|].
  cbn [seq flat_map]. now apply app_nth1.
Qed.

Lemma spinningDust_shape :
  (0 < Tree.dustCount)%nat
  /\ List.length (Tree.dust_formed Samples.spinningDust)
     = (Tree.dustCount * 3)%nat
  /\ List.length (Tree.dust_chaos Samples.spinningDust)
     = (Tree.dustCount * 3)%nat
  /\ nth 0 (Tree.dust_formed Samples.spinningDust) 0 = 6.75
  /\ nth 2 (Tree.dust_formed Samples.spinningDust) 0 = 0
  /\ nth 0 (Tree.dust_chaos Samples.spinningDust) 0 = 6.75.
Proof.
  assert (Hn : (0 < Tree.dustCount)%nat) by (unfold Tree.dustCount; lia).
  split; [exact Hn|]. unfold Samples.spinningDust.
  cbn [Tree.dust_formed Tree.dust_chaos].
  split; [rewrite triples_length, length_seq; reflexivity|].
  split; [rewrite length_app, repeat_length; cbn [List.length]; lia|].
  rewrite !triples_head by (cbn; lia).
  cbn [Samples.dustFormedAt nth INR app].
  rewrite Rmult_0_l, cos_0, sin_0, Rmult_1_r, Rmult_0_r, fround_0.
  rewrite representable_6_75. repeat split; lra.
Qed.

End DustSpin.

(** C5 fails for the gold dust in FORMED mode, the mode in which the
    scene starts.  Let particle 0 be stored at [(6.75, -7, 0)] and
    scattered to the same point, so that the buffer starts with its x
    on the target.  A tick at clock 0 leaves that x at 6.75; the next
    tick at clock [2 * PI], when the target is spun by half a turn,
    stores the float32 nearest to 6.48: the distance to the stored
    target grows from 0 to 0.27 and the distance to the spun target
    from 0 to 13.23, up to the rounding of the store, with the mode
    constant. *)
Lemma C5_counterexample :
  let d := Samples.spinningDust in
  let size := (Tree.dustCount * 3)%nat in
  let target := fun j => nth j (Tree.dust_formed d) 0%R in
  let clock := fun k : nat => match k with O => 0%R | _ => (2 * PI)%R end in
  (exists p1 p2,
     Tree.updateDust FORMED (clock 0%nat) d (Tree.dust_chaos d) = Done p1
     /\ Tree.updateDust FORMED (clock 1%nat) d p1 = Done p2
     /\ nth 0 p1 0%R = 6.75%R /\ nth 0 p2 0%R = Float32.fround 6.48
     /\ (Rabs (nth 0 p2 0 - 6.48) <= 0.000001)%R
     /\ Engine.dist p1 target 0 = 0%R
     /\ (0.269999 <= Engine.dist p2 target 0 <= 0.270001)%R
     /\ Rabs (nth 0 p1 0 - Engine.dustSpun (clock 0%nat) d 0 0)%R = 0%R
     /\ (13.229999
         <= Rabs (nth 0 p2 0 - Engine.dustSpun (clock 1%nat) d 0 0)
         <= 13.230001)%R)
  /\ ~ Engine.settles
         (fun m => Engine.ticks (fun k => Tree.updateDust FORMED (clock k) d) m
                     (Tree.dust_chaos d))
         target size.
Proof.
  intros d size target clock.
  destruct spinningDust_shape as (Hn & Hlf & Hlc & HfX & HfZ & Hc0).
  fold d in Hlf, Hlc, HfX, HfZ, Hc0.
  destruct (@dust_half_turn Tree.dustCount d (Tree.dust_chaos d) clock 6.75%R)
    as (p1 & p2 & Hrun1 & Hrun2 & Ht1 & Ht2 & Hs0 & Hs1 & H1 & H2);
    try reflexivity; try assumption; try apply representable_6_75;
    try (rewrite ?Hlf, ?Hlc; apply Nat.le_refl).
  replace (0.96 * 6.75)%R with 6.48%R in H2 by lra.
  assert (Hnear : (Rabs (nth 0 p2 0 - 6.48) <= 0.000001)%R).
  { rewrite H2.
    pose proof (@fround_close 6.48%R 6.48%R) as Hc.
    rewrite (Rabs_pos_eq 6.48) in Hc by lra. specialize (Hc ltac:(lra)). lra. }
  assert (Hnear' : (-0.000001 <= nth 0 p2 0 - 6.48 <= 0.000001)%R).
  { apply Rabs_le_between in Hnear. lra. }
  assert (Htarget : target 0%nat = 6.75%R) by exact HfX.
  assert (Hd1 : Engine.dist p1 target 0 = 0%R).
  { unfold Engine.dist. rewrite H1, Htarget.
    replace (6.75 - 6.75)%R with 0%R by lra. apply Rabs_R0. }
  assert (Hd2 : (0.269999 <= Engine.dist p2 target 0 <= 0.270001)%R).
  { unfold Engine.dist. rewrite Htarget, Rabs_left1; lra. }
  split.
  - exists p1, p2.
    split; [exact Hrun1|]. split; [exact Hrun2|].
    split; [exact H1|]. split; [exact H2|]. split; [exact Hnear|].
    split; [exact Hd1|]. split; [exact Hd2|]. split.
    + rewrite H1, Hs0. replace (6.75 - 6.75)%R with 0%R by lra. apply Rabs_R0.
    + rewrite Hs1, Rabs_pos_eq; lra.
  - intros Hsettles.
    assert (Hj : (0 < size)%nat) by (unfold size; lia).
    pose proof (@settles_step _ target size 1 0 p1 p2 Hsettles Ht1 Ht2 Hj) as Hbad.
    rewrite Hd1 in Hbad. lra.
Qed.

Section Flip.
Local Open Scope R_scope.
Import Engine.







End Flip.

Section Noise.
Local Open Scope R_scope.
Import Engine.

Lemma sin_scaled_bound (a amplitude : R) :
  0 <= amplitude -> Rabs (sin a * amplitude) <= amplitude.
Proof.
  intros Ha. apply Rabs_le. pose proof (SIN_bound a). nra.
Qed.

(** C7 (amended): the needles add no noise in FORMED mode and
    [sin(t + i) * 0.05], of amplitude 0.05, in CHAOS mode; the trunk
    and the gifts, balls and lights blend towards targets that do not
    depend on the clock in either mode; the gold dust is the group
    whose target moves when formed: its stored position is spun by
    [t * 0.5] about the vertical axis and bobs by [sin(t + i) * 0.2],
    while in CHAOS mode it is the stored scattered position.  Each
    blend is stored in a [Float32Array]. *)
Theorem C7_noise_terms :
  (forall (t : R) (i : nat),
     Tree.needleNoise true t i = 0
     /\ Tree.needleNoise false t i = sin (t + INR i) * 0.05
     /\ Rabs (Tree.needleNoise false t i) <= 0.05)
  /\ (forall (n : nat) (mode : Mode) (t : R) (d : Tree.NeedleData) (p : list R),
        (n * 3 <= List.length (needleTargets mode d))%nat ->
        (n * 3 <= List.length p)%nat ->
        exists p',
          Tree.needleLoop n mode t d p = Done p'
          /\ forall i k, (i < n)%nat -> (k < 3)%nat ->
               nth (i * 3 + k) p' 0
               = Float32.fround
                   (MathUtils.lerp (nth (i * 3 + k) p 0)
                      (nth (i * 3 + k) (needleTargets mode d) 0
                       + match mode with
                         | FORMED => 0
                         | CHAOS => sin (t + INR i) * 0.05
                         end)
                      Tree.lerpSpeed))
  /\ (forall (n : nat) (mode : Mode) (d : Tree.TrunkData) (p : list R),
        (n * 3 <= List.length (Tree.trunk_formed d))%nat ->
        (n * 3 <= List.length p)%nat ->
        exists p',
          Tree.trunkLoop n mode d p = Done p'
          /\ forall i k, (i < n)%nat -> (k < 3)%nat ->
               nth (i * 3 + k) p' 0
               = Float32.fround
                   (MathUtils.lerp (nth (i * 3 + k) p 0)
                      (nth (i * 3 + k) (Tree.trunk_formed d) 0 * trunkScale mode k)
                      Tree.lerpSpeed))
  /\ (forall (config : Atmosphere.InstanceConfig) (mode : Mode)
             (d : Atmosphere.GroupData) (p : list R),
        (Atmosphere.count config * 3 <= List.length (groupTargets mode d))%nat ->
        (Atmosphere.count config * 3 <= List.length p)%nat ->
        exists p',
          Atmosphere.animateGroup mode d config p = Done p'
          /\ forall i k, (i < Atmosphere.count config)%nat -> (k < 3)%nat ->
               nth (i * 3 + k) p' 0
               = Float32.fround
                   (MathUtils.lerp (nth (i * 3 + k) p 0)
                      (nth (i * 3 + k) (groupTargets mode d) 0)
                      (Atmosphere.weight config)))
  /\ (forall (n : nat) (mode : Mode) (t : R) (d : Tree.DustData) (p : list R),
        (n * 3 <= List.length (dustTargets mode d))%nat ->
        (n * 3 <= List.length p)%nat ->
        exists p',
          Tree.dustLoop n mode t d p = Done p'
          /\ forall i, (i < n)%nat ->
               let baseX := nth (i * 3) (Tree.dust_formed d) 0 in
               let baseY := nth (i * 3 + 1) (Tree.dust_formed d) 0 in
               let baseZ := nth (i * 3 + 2) (Tree.dust_formed d) 0 in
               nth (i * 3) p' 0
               = Float32.fround
                   (MathUtils.lerp (nth (i * 3) p 0)
                      match mode with
                      | FORMED => baseX * cos (t * 0.5) - baseZ * sin (t * 0.5)
                      | CHAOS => nth (i * 3) (Tree.dust_chaos d) 0
                      end 0.02)
               /\ nth (i * 3 + 1) p' 0
                  = Float32.fround
                      (MathUtils.lerp (nth (i * 3 + 1) p 0)
                         match mode with
                         | FORMED => baseY + sin (t + INR i) * 0.2
                         | CHAOS => nth (i * 3 + 1) (Tree.dust_chaos d) 0
                         end 0.02)
               /\ nth (i * 3 + 2) p' 0
                  = Float32.fround
                      (MathUtils.lerp (nth (i * 3 + 2) p 0)
                         match mode with
                         | FORMED => baseX * sin (t * 0.5) + baseZ * cos (t * 0.5)
                         | CHAOS => nth (i * 3 + 2) (Tree.dust_chaos d) 0
                         end 0.02)
               /\ Rabs (sin (t + INR i) * 0.2) <= 0.2).
Proof.
  split; [|split; [|split; [|split]]].
  - intros t i. cbn [Tree.needleNoise]. repeat split.
    apply sin_scaled_bound. lra.
  - intros n mode t d p Hd Hp.
    destruct (needleLoop_spec n mode t d p Hd Hp) as (p' & Hrun & _ & Hnew).
    exists p'. split; [exact Hrun|]. intros i k Hi Hk.
    rewrite (Hnew i k Hi Hk). now destruct mode.
  - intros n mode d p Hd Hp.
    destruct (trunkLoop_spec n mode d p Hd Hp) as (p' & Hrun & _ & Hnew).
    now exists p'.
  - intros config mode d p Hd Hp.
    destruct (animateGroup_spec mode d config p Hd Hp) as (p' & Hrun & _ & Hnew).
    now exists p'.
  - intros n mode t d p Hd Hp.
    destruct (dustLoop_spec n mode t d p Hd Hp) as (p' & Hrun & _ & Hnew).
    exists p'. split; [exact Hrun|]. intros i Hi. cbv zeta.
    pose proof (Hnew i 0%nat Hi ltac:(lia)) as H0.
    pose proof (Hnew i 1%nat Hi ltac:(lia)) as H1.
    pose proof (Hnew i 2%nat Hi ltac:(lia)) as H2.
    rewrite Nat.add_0_r in H0. rewrite H0, H1, H2.
    split; [|split; [|split]]; try (now destruct mode).
    apply sin_scaled_bound. lra.
Qed.

(** What a needle tick stores in x of particle 0. *)
Lemma needle_tick_head (n : nat) (mode : Mode) (t : R) (d : Tree.NeedleData)
  (p : list R) :
  (0 < n)%nat ->
  (n * 3 <= List.length (needleTargets mode d))%nat ->
  (n * 3 <= List.length p)%nat ->
  exists p',
    Tree.needleLoop n mode t d p = Done p'
    /\ List.length p' = List.length p
    /\ nth 0 p' 0
       = Float32.fround
           (MathUtils.lerp (nth 0 p 0)
              (nth 0 (needleTargets mode d) 0
               + Tree.needleNoise (Mode_eqb mode FORMED) t 0)
              Tree.lerpSpeed).
Proof.
  intros Hn Hd Hp.
  destruct (needleLoop_spec n mode t d p Hd Hp) as (p' & Hrun & Hlen & Hnew).
  exists p'. split; [exact Hrun|]. split; [exact Hlen|].
  exact (Hnew 0%nat 0%nat Hn ltac:(lia)).
Qed.

Lemma restingNeedles_shape :
  (0 < CONFIG.particleCount)%nat
  /\ List.length (Tree.needle_formed Samples.restingNeedles)
     = (CONFIG.particleCount * 3)%nat
  /\ List.length (Tree.needle_chaos Samples.restingNeedles)
     = (CONFIG.particleCount * 3)%nat
  /\ nth 0 (Tree.needle_formed Samples.restingNeedles) 0 = 4.5
  /\ nth 0 (Tree.needle_chaos Samples.restingNeedles) 0 = 0.
Proof.
  assert (Hn : (0 < CONFIG.particleCount)%nat)
    by (unfold CONFIG.particleCount; lia).
  split; [exact Hn|]. unfold Samples.restingNeedles.
  cbn [Tree.needle_formed Tree.needle_chaos].
  split; [rewrite triples_length, length_seq; reflexivity|].
  split; [rewrite repeat_length; lia|].
  split; [rewrite triples_head by (cbn; lia); reflexivity|].
  apply nth_repeat_lt. lia.
Qed.

(** The float32 nearest to 0.135. *)
Lemma fround_0_135 : Float32.fround 0.135 = 9059697 / 67108864.
Proof.
  rewrite (@fround_eval 0.135 (-3) 9059697).
  - unfold Float32.pow2. simpl. lra.
  - unfold Float32.pow2. simpl. lra.
  - lia.
  - replace (-3 - 23)%Z with (-26)%Z by lia.
    replace (0.135 / Float32.pow2 (-26)) with 9059696.64
      by (unfold Float32.pow2; simpl; lra).
    apply Rabs_def1; lra.
Qed.

(** The first FORMED tick of the needles scattered to the origin
    stores the float32 nearest to 0.135 in x of particle 0. *)
Lemma restingNeedles_first_tick (t : R) (p : list R) :
  List.length p = (CONFIG.particleCount * 3)%nat -> nth 0 p 0 = 0 ->
  exists p',
    Tree.updateNeedles FORMED t Samples.restingNeedles p = Done p'
    /\ nth 0 p' 0 = Float32.fround 0.135.
Proof.
  intros Hlen Hp0.
  destruct restingNeedles_shape as (Hn & Hlf & _ & Hf0 & _).
  destruct (@needle_tick_head CONFIG.particleCount FORMED t
              Samples.restingNeedles p)
    as (p' & Hrun & _ & Hnew);
    [exact Hn | cbn [needleTargets Mode_eqb]; rewrite Hlf; apply Nat.le_refl
     | rewrite Hlen; apply Nat.le_refl |].
  exists p'. split; [exact Hrun|].
  rewrite Hnew. cbn [needleTargets Mode_eqb Tree.needleNoise].
  rewrite Hf0, Hp0. f_equal. unfold MathUtils.lerp, Tree.lerpSpeed. lra.
Qed.

End Noise.


(** C7 fails for the needles: in FORMED mode, the mode in which the
    scene starts, they get no jitter.  With particle 0 scattered to
    the origin and formed at x = 4.5, the first tick at clock
    [PI / 2] stores the float32 nearest to
    [lerp(0, 4.5, 0.03) = 0.135] in its x; with a jitter
    [sin(t + i) * 0.05 = 0.05] on the target it would be the one
    nearest to 0.1365. *)
Lemma C7_counterexample :
  let d := Samples.restingNeedles in
  (exists p',
     Tree.updateNeedles FORMED (PI / 2) d (Tree.needle_chaos d) = Done p'
     /\ nth 0 p' 0%R = Float32.fround 0.135
     /\ (Rabs (nth 0 p' 0 - 0.135) <= 0.00000001)%R
     /\ MathUtils.lerp 0 (4.5 + sin (PI / 2 + INR 0) * 0.05) Tree.lerpSpeed
        = 0.1365%R)
  /\ Tree.needleNoise true (PI / 2) 0 = 0%R
  /\ (sin (PI / 2 + INR 0) * 0.05 = 0.05)%R.
Proof.
  intros d.
  destruct restingNeedles_shape as (Hn & Hlf & Hlc & Hf0 & Hc0).
  fold d in Hlf, Hlc, Hf0, Hc0.
  assert (Hsin : (sin (PI / 2 + INR 0) = 1)%R)
    by (cbn [INR]; now rewrite Rplus_0_r, sin_PI2).
  split; [|split].
  - destruct (@restingNeedles_first_tick (PI / 2)%R (Tree.needle_chaos d))
      as (p' & Hrun & Hnew); [exact Hlc | exact Hc0 |].
    exists p'. split; [exact Hrun|]. split; [exact Hnew|].
    split.
    + rewrite Hnew, fround_0_135. apply Rabs_le. lra.
    + rewrite Hsin. unfold MathUtils.lerp, Tree.lerpSpeed. lra.
  - reflexivity.
  - rewrite Hsin. lra.
Qed.

(** ** The properties at sample inputs *)

Section SampleFrames.
Import HandController Gesture.

Lemma sample_hand (cx i m r p : Q) (now : Z) :
  hand (Samples.frame (Samples.handWith cx i m r p) now)
       (Samples.handWith cx i m r p).
Proof.
  split; [now exists [] |].
  unfold Samples.handWith. rewrite length_map, length_seq. apply Nat.le_refl.
Qed.

Lemma sample_victory (cx : Q) : victoryPose (Samples.victory cx).
Proof.
  unfold victoryPose, tipAbove. cbn. repeat split; try reflexivity;
    intros H; discriminate H.
Qed.

(** The example of the swipe test: last sample 0.40, hand now at 0.45,
    600 ms after the previous swipe: exactly one swipe to the right. *)
Example swipe_right_once :
  useFrame true
    {| lastHandX := Some 0.40; lastSwipeTime := 1000; lastVictoryTime := 1000 |}
    (Samples.frame (Samples.victory 0.45) 1600)
  = Done ({| lastHandX := Some 0.45; lastSwipeTime := 1600;
             lastVictoryTime := 1000 |},
          [setTreeState CHAOS; onSwipe Direction.right;
           setRotation ((0.45 - 0.5) * 2 * 0.05); setCameraZoom ((0.5 - 0.5) * 2)]).
Proof. reflexivity. Qed.

(** The same with a displacement of 0.01: nothing is emitted. *)
Example small_move_no_swipe :
  swipeCalls
    (match useFrame true
             {| lastHandX := Some 0.40; lastSwipeTime := 1000;
                lastVictoryTime := 1000 |}
             (Samples.frame (Samples.victory 0.41) 1600) with
     | Done r => snd r
     | Faulted _ => [onSwipe Direction.left]
     end) = [].
Proof. reflexivity. Qed.

(** A hand with fewer than 21 keypoints makes the callback fault. *)
Example short_hand_faults :
  useFrame true initialRefs
    {| result_landmarks := [[Samples.point 0.5 0.5]];
       nowVictory := 0; nowSwipe := 0 |}
  = Faulted OutOfRange.
Proof. reflexivity. Qed.

End SampleFrames.

(** C3 at a fist frame. *)
Lemma C3_witness :
  Gesture.hand (Samples.frame Samples.fist 1000) Samples.fist
  /\ exists refs' calls,
       HandController.useFrame true HandController.initialRefs
         (Samples.frame Samples.fist 1000) = Done (refs', calls)
       /\ Gesture.treeStateCalls calls = [FORMED].
Proof.
  pose proof (sample_hand 0.5 0.8 0.8 0.8 0.8 1000) as Hhand.
  split; [exact Hhand|].
  destruct (C3_extension_and_fist_classification true
              HandController.initialRefs Hhand)
    as (_ & refs' & calls & Hrun & _ & _ & Hbelow & _).
  exists refs', calls. split; [exact Hrun|].
  apply Hbelow. intros tip pip Hin. cbn in Hin.
  repeat (destruct Hin as [Hin|Hin]; [inversion Hin; subst; reflexivity|]).
  contradiction.
Defined.

(** C9 at a victory frame. *)
Lemma C9_witness :
  Gesture.hand (Samples.frame (Samples.victory 0.5) 1000) (Samples.victory 0.5)
  /\ exists refs' calls,
       HandController.useFrame true HandController.initialRefs
         (Samples.frame (Samples.victory 0.5) 1000) = Done (refs', calls)
       /\ Gesture.treeStateCalls calls = [CHAOS].
Proof.
  pose proof (sample_hand 0.5 0.2 0.2 0.8 0.8 1000) as Hhand.
  split; [exact Hhand|].
  destruct (C9_victory_commands_chaos true HandController.initialRefs Hhand)
    as (refs' & calls & Hrun & Hpose & _).
  exists refs', calls. split; [exact Hrun|].
  apply Hpose, sample_victory.
Defined.

(** C2 at the swipe example: last sample 0.40, hand at 0.45, 600 ms after
    the previous swipe. *)
Lemma C2_witness :
  let refs := {| HandController.lastHandX := Some 0.40;
                 HandController.lastSwipeTime := 1000;
                 HandController.lastVictoryTime := 1000 |} in
  let d := Samples.frame (Samples.victory 0.45) 1600 in
  Gesture.hand d (Samples.victory 0.45)
  /\ Gesture.victoryPose (Samples.victory 0.45)
  /\ HandController.lastHandX refs = Some 0.40
  /\ exists refs' calls,
       HandController.useFrame Scene.onSwipeGiven refs d = Done (refs', calls)
       /\ Gesture.swipeCalls calls = [Direction.right]
       /\ HandController.lastSwipeTime refs' = 1600%Z
       /\ HandController.lastHandX refs' = Some 0.45.
Proof.
  intros refs d.
  pose proof (sample_hand 0.45 0.2 0.2 0.8 0.8 1600) as Hhand.
  pose proof (sample_victory 0.45) as Hpose.
  split; [exact Hhand|]. split; [exact Hpose|]. split; [reflexivity|].
  destruct (C2_swipe_detection refs Hhand) as [Hswipe _].
  destruct (Hswipe 0.40 Hpose eq_refl)
    as (refs' & calls & Hrun & Hiff & Hfired & _ & Hx).
  exists refs', calls. split; [exact Hrun|].
  assert (Hcalls : Gesture.swipeCalls calls <> []).
  { apply Hiff. split; reflexivity. }
  destruct (Hfired Hcalls) as (Hright & _ & Htime).
  split; [apply Hright; reflexivity|]. split; [exact Htime | exact Hx].
Defined.

(** C4 on three victory frames at clocks 1000, 1400 and 2000. *)
Lemma C4_witness :
  let ds := [Samples.frame (Samples.victory 0.5) 1000;
             Samples.frame (Samples.victory 0.5) 1400;
             Samples.frame (Samples.victory 0.5) 2000] in
  Forall (fun d => exists landmarks,
                     Gesture.hand d landmarks /\ Gesture.victoryPose landmarks) ds
  /\ exists refs' outs,
       Gesture.frames true HandController.initialRefs ds = Done (refs', outs)
       /\ List.length outs = 3%nat.
Proof.
  intros ds.
  assert (Hall : Forall (fun d => exists landmarks,
                    Gesture.hand d landmarks /\ Gesture.victoryPose landmarks) ds).
  { repeat constructor; exists (Samples.victory 0.5);
      (split; [apply sample_hand | apply sample_victory]). }
  split; [exact Hall|].
  destruct (proj2 C4_selection_debounce true HandController.initialRefs ds Hall)
    as (refs' & outs & Hrun & Hlen & _).
  now exists refs', outs.
Defined.

(** C1 at the state reached by one victory frame, followed by a fist frame. *)
Lemma C1_witness :
  Scene.reachable Samples.focused
  /\ Scene.focusMode (Scene.scene Samples.focused) = true
  /\ Gesture.hand (Samples.frame Samples.fist 5000) Samples.fist
  /\ (Gesture.extendedFingers Samples.fist < 2)%nat
  /\ exists sys',
       Scene.step Samples.focused (Scene.Frame (Samples.frame Samples.fist 5000))
       = Done sys'
       /\ Scene.treeState (Scene.scene sys') = FORMED
       /\ Scene.focusMode (Scene.scene sys') = false.
Proof.
  assert (Hreach : Scene.reachable Samples.focused).
  { apply Scene.reachable_step
      with (sys := Scene.initialSystem)
           (e := Scene.Frame (Samples.frame (Samples.victory 0.5) 1000));
      [apply Scene.reachable_initial | reflexivity]. }
  pose proof (sample_hand 0.5 0.8 0.8 0.8 0.8 5000) as Hhand.
  assert (Hfist : (Gesture.extendedFingers Samples.fist < 2)%nat)
    by (cbn; lia).
  split; [exact Hreach|]. split; [reflexivity|].
  split; [exact Hhand|]. split; [exact Hfist|].
  exact (proj2 (C1_formed_closes_focus Hreach eq_refl) _ _ Hhand Hfist).
Defined.

(** C10 at the initial state with three photos and a swipe to the right. *)
Lemma C10_witness :
  Scene.focusMode Scene.initialState = false
  /\ exists next,
       Scene.applyCalls Scene.initialState 3 Scene.initialState
         [HandController.onSwipe Direction.right] = Done next
       /\ Scene.commit Scene.initialState next = Scene.initialState.
Proof.
  split; [reflexivity|].
  exact (proj1 (C10_swipe_needs_focus Scene.initialState 3 Direction.right)
           eq_refl).
Defined.

(** C8 at the initial system, whose photo list is empty. *)
Lemma C8_witness :
  Scene.photos Scene.initialSystem = []
  /\ Scene.step Scene.initialSystem Scene.IntervalTick = Done Scene.initialSystem
  /\ Tree.photoOrnaments (Scene.photos Scene.initialSystem) = Done [].
Proof.
  split; [reflexivity|].
  destruct (@C8_empty_photo_list Scene.initialSystem eq_refl)
    as (_ & _ & Htick & _ & _ & Horn & _).
  split; [exact Htick | exact Horn].
Defined.

(** The coordinates of the sample needle are at most 8 in size. *)
Lemma oneNeedle_bounded (a : list R) :
  a = [4; 5; 6]%R \/ a = [1; 2; 3]%R ->
  Engine.bounded 8 (1 * 3) (Engine.entry a).
Proof.
  intros Ha j Hj. unfold Engine.entry.
  destruct Ha as [-> | ->];
    destruct j as [|[|[|j]]]; cbn [nth]; try lia;
    rewrite Rabs_pos_eq; lra.
Qed.

(** C5 for one needle in FORMED mode, the clock advancing by 1 per
    tick, all values being at most 8 in size. *)
Lemma C5_witness :
  Float32.representable 8
  /\ (1 * 3 <= List.length (Tree.needle_formed Samples.oneNeedle))%nat
  /\ (1 * 3 <= List.length [4; 5; 6]%R)%nat
  /\ Engine.bounded 8 (1 * 3) (Engine.entry [4; 5; 6]%R)
  /\ Engine.bounded 8 (1 * 3)
       (Engine.entry (Tree.needle_formed Samples.oneNeedle))
  /\ Engine.closesIn
       (fun m => Engine.ticks
                   (fun k => Tree.needleLoop 1 FORMED (INR k) Samples.oneNeedle)
                   m [4; 5; 6]%R)
       (Engine.entry (Tree.needle_formed Samples.oneNeedle)) (1 * 3)
       Tree.lerpSpeed (Engine.rounding 8 / Tree.lerpSpeed)
  /\ Engine.comesWithin
       (fun m => Engine.ticks
                   (fun k => Tree.needleLoop 1 FORMED (INR k) Samples.oneNeedle)
                   m [4; 5; 6]%R)
       (Engine.entry (Tree.needle_formed Samples.oneNeedle)) (1 * 3)
       (Engine.rounding 8 / Tree.lerpSpeed)
  /\ (Engine.float32s (1 * 3) (Engine.entry [4; 5; 6]%R) ->
      Engine.float32s (1 * 3)
        (Engine.entry (Tree.needle_formed Samples.oneNeedle)) ->
      Engine.neverRecedes
        (fun m => Engine.ticks
                    (fun k => Tree.needleLoop 1 FORMED (INR k) Samples.oneNeedle)
                    m [4; 5; 6]%R)
        (Engine.entry (Tree.needle_formed Samples.oneNeedle)) (1 * 3)).
Proof.
  assert (H0 : Float32.representable 8)
    by (apply (representable_IZR 8); lia).
  assert (H1 : (1 * 3 <= List.length (Tree.needle_formed Samples.oneNeedle))%nat)
    by (cbn; lia).
  assert (H2 : (1 * 3 <= List.length [4; 5; 6]%R)%nat) by (cbn; lia).
  assert (H3 : Engine.bounded 8 (1 * 3) (Engine.entry [4; 5; 6]%R))
    by (apply oneNeedle_bounded; now left).
  assert (H4 : Engine.bounded 8 (1 * 3)
                 (Engine.entry (Tree.needle_formed Samples.oneNeedle)))
    by (apply oneNeedle_bounded; now right).
  split; [exact H0|]. split; [exact H1|]. split; [exact H2|].
  split; [exact H3|]. split; [exact H4|].
  exact (proj1 (@C5_blend_closes_in 8%R H0) 1%nat INR Samples.oneNeedle
           [4; 5; 6]%R H1 H2 H3 H4).
Defined.


(** C7 for one needle in CHAOS mode at clock [PI / 2]. *)
Lemma C7_witness :
  (1 * 3 <= List.length (Engine.needleTargets CHAOS Samples.oneNeedle))%nat
  /\ (1 * 3 <= List.length [1; 2; 3]%R)%nat
  /\ exists p',
       Tree.needleLoop 1 CHAOS (PI / 2) Samples.oneNeedle [1; 2; 3]%R = Done p'
       /\ forall i k, (i < 1)%nat -> (k < 3)%nat ->
            nth (i * 3 + k) p' 0%R
            = Float32.fround
                (MathUtils.lerp (nth (i * 3 + k) [1; 2; 3]%R 0%R)
                   (nth (i * 3 + k)
                      (Engine.needleTargets CHAOS Samples.oneNeedle) 0
                    + sin (PI / 2 + INR i) * 0.05)%R
                   Tree.lerpSpeed).
Proof.
  assert (H1 : (1 * 3 <= List.length
                          (Engine.needleTargets CHAOS Samples.oneNeedle))%nat)
    by (cbn; lia).
  assert (H2 : (1 * 3 <= List.length [1; 2; 3]%R)%nat) by (cbn; lia).
  split; [exact H1|]. split; [exact H2|].
  exact (proj1 (proj2 C7_noise_terms) 1%nat CHAOS (PI / 2)%R Samples.oneNeedle
           [1; 2; 3]%R H1 H2).
Defined.

(** ** The slideshow *)

Unset Implicit Arguments.

Section Slideshow.
Import HandController Gesture Scene View.

Lemma jsRem_in_range (a n : Z) :
  (0 <= a)%Z -> (0 < n)%Z ->
  exists r, jsRem a n = Done r /\ r = (a mod n)%Z /\ (0 <= r < n)%Z.
Proof.
  intros Ha Hn. unfold jsRem. rewrite (proj2 (Z.eqb_neq n 0)) by lia.
  exists (Z.rem a n). rewrite Z.rem_mod_nonneg by lia.
  repeat split; try apply Z.mod_pos_bound; lia.
Qed.

Lemma handleSwipe_index (focus : bool) (n : Z) (dir : Direction.t) (pending : State) :
  (0 <= n)%Z -> validIndex (slideshowIndex pending) n ->
  exists next,
    handleSwipe focus n dir pending = Done next
    /\ validIndex (slideshowIndex next) n.
Proof.
  intros Hn [H0 Hv]. unfold handleSwipe.
  destruct (negb focus || (n =? 0)%Z) eqn:Eg.
  - exists pending. split; [reflexivity | now split].
  - apply orb_false_iff in Eg as [_ En]. apply Z.eqb_neq in En.
    destruct dir.
    + destruct (jsRem_in_range (slideshowIndex pending - 1 + n) n)
        as (r & Hr & _ & Hb); [lia | lia |].
      rewrite Hr. cbn [bind]. eexists. split; [reflexivity|].
      cbn [slideshowIndex with_slideshowIndex]. split; [lia | left; lia].
    + destruct (jsRem_in_range (slideshowIndex pending + 1) n)
        as (r & Hr & _ & Hb); [lia | lia |].
      rewrite Hr. cbn [bind]. eexists. split; [reflexivity|].
      cbn [slideshowIndex with_slideshowIndex]. split; [lia | left; lia].
Qed.

Lemma applyCalls_index (rendered : State) (n : Z) (calls : list Call) :
  (0 <= n)%Z ->
  forall pending,
    validIndex (slideshowIndex pending) n ->
    exists next,
      applyCalls rendered n pending calls = Done next
      /\ validIndex (slideshowIndex next) n.
Proof.
  intros Hn. induction calls as [|c calls IH]; intros pending Hv.
  - now exists pending.
  - destruct c as [m|b|dir|q|q]; cbn [applyCalls applyCall bind];
      try (apply IH; exact Hv).
    destruct (handleSwipe_index (focusMode rendered) n dir pending Hn Hv)
      as (mid & Hmid & Hvm).
    rewrite Hmid. cbn [bind]. now apply IH.
Qed.

Lemma intervalTick_index (focus : bool) (n : Z) (pending : State) :
  validIndex (slideshowIndex pending) n ->
  exists next,
    intervalTick focus n pending = Done next
    /\ validIndex (slideshowIndex next) n.
Proof.
  intros [H0 Hv]. unfold intervalTick.
  destruct (focus && (0 <? n)%Z) eqn:Eg.
  - apply andb_true_iff in Eg as [_ En]. apply Z.ltb_lt in En.
    destruct (jsRem_in_range (slideshowIndex pending + 1) n)
      as (r & Hr & _ & Hb); [lia | lia |].
    rewrite Hr. cbn [bind]. eexists. split; [reflexivity|].
    cbn [slideshowIndex with_slideshowIndex]. split; [lia | left; lia].
  - exists pending. split; [reflexivity | now split].
Qed.

Lemma len_nonneg (photos : list string) : (0 <= len photos)%Z.
Proof. unfold len. lia. Qed.

Lemma reachable_indexValid (sys : System) :
  reachable sys -> View.indexValid sys.
Proof.
  unfold View.indexValid.
  induction 1 as [|sys sys' e Hreach IH Hstep].
  - cbn. unfold validIndex. lia.
  - destruct e as [d| | |newPhotos]; unfold step in Hstep.
    + destruct (useFrame onSwipeGiven (refs sys) d) as [r|]; [|discriminate].
      cbn [bind] in Hstep.
      destruct (applyCalls_index (scene sys) (len (photos sys)) (snd r)
                  (len_nonneg (photos sys)) (scene sys) IH)
        as (next & Happ & Hv).
      rewrite Happ in Hstep. cbn [bind] in Hstep. injection Hstep as <-.
      cbn [scene photos]. now rewrite commit_slideshowIndex.
    + destruct (intervalTick_index (focusMode (scene sys)) (len (photos sys))
                  (scene sys) IH)
        as (next & Htick & Hv).
      rewrite Htick in Hstep. cbn [bind] in Hstep. injection Hstep as <-.
      cbn [scene photos]. now rewrite commit_slideshowIndex.
    + injection Hstep as <-. cbn [scene photos].
      now rewrite commit_slideshowIndex.
    + injection Hstep as <-. cbn [scene photos].
      destruct IH as [H0 Hv]. split; [exact H0|].
      unfold len in *. rewrite length_app.
      destruct Hv as [Hv|[Hn Hi]]; [left; lia|].
      destruct newPhotos as [|p ps]; [right; cbn [List.length]; lia|].
      left. cbn [List.length]. lia.
Qed.

End Slideshow.

(** X1: in every reachable state the slideshow index designates a
    photo of the current list (or is 0 while the list is empty), so
    the lookup [photos[slideshowIndex % photos.length]] made when the
    overlay is rendered is in range and yields that photo. *)
Theorem X1_slideshow_index_in_range (sys : Scene.System)
  (Hreach : Scene.reachable sys) :
  View.indexValid sys
  /\ (Scene.photos sys <> [] ->
      exists url,
        Scene.overlayPhotoUrl (Scene.scene sys) (Scene.photos sys)
        = Done (Some url)
        /\ nth_error (Scene.photos sys)
             (Z.to_nat (Scene.slideshowIndex (Scene.scene sys)))
           = Some url).
Proof.
  pose proof (reachable_indexValid sys Hreach) as Hvalid.
  split; [exact Hvalid|]. intros Hne.
  destruct Hvalid as [H0 Hv].
  assert (Hlen : (0 < Scene.len (Scene.photos sys))%Z).
  { unfold Scene.len. destruct (Scene.photos sys); [congruence|].
    cbn [List.length]. lia. }
  destruct Hv as [Hlt|[Hz _]]; [|lia].
  unfold Scene.overlayPhotoUrl. rewrite (proj2 (Z.ltb_lt _ _) Hlen).
  unfold jsRem. rewrite (proj2 (Z.eqb_neq _ 0)) by lia. cbn [bind].
  rewrite Z.rem_small by lia.
  unfold atZ. rewrite (proj2 (Z.ltb_ge _ _)) by lia. unfold at_.
  destruct (nth_error (Scene.photos sys)
              (Z.to_nat (Scene.slideshowIndex (Scene.scene sys)))) as [url|] eqn:E.
  - exists url. now split.
  - apply nth_error_None in E. unfold Scene.len in Hlt. lia.
Qed.

(** X2: with the focus flag on and at least one photo, a swipe to the
    right followed by a swipe to the left, or the other way round,
    brings the slideshow back to the photo it showed. *)
Theorem X2_swipe_round_trip (n : Z) (s : Scene.State)
  (Hn : (0 < n)%Z)
  (Hidx : (0 <= Scene.slideshowIndex s < n)%Z) :
  (mid <- Scene.handleSwipe true n Direction.right s ;;
   Scene.handleSwipe true n Direction.left mid) = Done s
  /\ (mid <- Scene.handleSwipe true n Direction.left s ;;
      Scene.handleSwipe true n Direction.right mid) = Done s.
Proof.
  assert (Hne : (n =? 0)%Z = false) by (apply Z.eqb_neq; lia).
  unfold Scene.handleSwipe, jsRem. cbn [negb orb]. rewrite Hne. cbn [bind].
  cbn [Scene.slideshowIndex Scene.with_slideshowIndex].
  set (i := Scene.slideshowIndex s) in *.
  pose proof (Z.mod_pos_bound (i + 1) n Hn) as Hr.
  pose proof (Z.mod_pos_bound (i - 1 + n) n Hn) as Hl.
  rewrite (Z.rem_mod_nonneg (i + 1) n) by lia.
  rewrite (Z.rem_mod_nonneg (i - 1 + n) n) by lia.
  rewrite (Z.rem_mod_nonneg ((i + 1) mod n - 1 + n) n) by lia.
  rewrite (Z.rem_mod_nonneg ((i - 1 + n) mod n + 1) n) by lia.
  assert (Hback : forall n i, (0 < n)%Z -> (0 <= i < n)%Z ->
            (((i + 1) mod n - 1 + n) mod n = i
             /\ ((i - 1 + n) mod n + 1) mod n = i)%Z).
  { clear. intros n i Hn Hi. split.
    - destruct (Z.eq_dec (i + 1) n) as [E|E].
      + rewrite E, Z.mod_same by lia.
        replace (0 - 1 + n)%Z with (n - 1)%Z by lia.
        rewrite Z.mod_small by lia. lia.
      + rewrite (Z.mod_small (i + 1)) by lia.
        replace (i + 1 - 1 + n)%Z with (i + 1 * n)%Z by lia.
        rewrite Z.mod_add by lia. apply Z.mod_small. lia.
    - destruct (Z.eq_dec i 0) as [E|E].
      + subst i. replace (0 - 1 + n)%Z with (n - 1)%Z by lia.
        rewrite (Z.mod_small (n - 1)) by lia.
        replace (n - 1 + 1)%Z with n by lia. apply Z.mod_same. lia.
      + replace (i - 1 + n)%Z with (i - 1 + 1 * n)%Z by lia.
        rewrite Z.mod_add by lia. rewrite (Z.mod_small (i - 1)) by lia.
        replace (i - 1 + 1)%Z with i by lia. apply Z.mod_small. lia. }
  destruct (Hback n i Hn Hidx) as [-> ->].
  subst i. destruct s; split; reflexivity.
Qed.

Section SlideshowCycle.
Import HandController Scene View.

Lemma step_interval_tick (sys : System) :
  focusMode (scene sys) = true ->
  (0 < len (photos sys))%Z ->
  (0 <= slideshowIndex (scene sys))%Z ->
  step sys IntervalTick
  = Done {| scene := with_slideshowIndex
                      ((slideshowIndex (scene sys) + 1) mod len (photos sys))%Z
                      (scene sys);
            refs := refs sys; photos := photos sys |}.
Proof.
  intros Hf Hn Hi. unfold step, intervalTick, jsRem.
  rewrite Hf, (proj2 (Z.ltb_lt _ _) Hn), (proj2 (Z.eqb_neq _ 0)) by lia.
  cbn [andb bind]. rewrite Z.rem_mod_nonneg by lia.
  now rewrite commit_same_tree by reflexivity.
Qed.

Lemma run_interval_ticks (k : nat) :
  forall sys : System,
    focusMode (scene sys) = true ->
    (0 <= slideshowIndex (scene sys) < len (photos sys))%Z ->
    run sys (repeat IntervalTick k)
    = Done {| scene := with_slideshowIndex
                        ((slideshowIndex (scene sys) + Z.of_nat k)
                           mod len (photos sys))%Z
                        (scene sys);
              refs := refs sys; photos := photos sys |}.
Proof.
  induction k as [|k IH]; intros sys Hf Hi.
  - cbn [repeat run Z.of_nat]. rewrite Z.add_0_r, Z.mod_small by lia.
    destruct sys as [[t f r i] rf ph]. reflexivity.
  - cbn [repeat run]. rewrite step_interval_tick by (assumption || lia).
    cbn [bind]. rewrite IH.
    + cbn [scene refs photos slideshowIndex with_slideshowIndex
           treeState focusMode rotation].
      rewrite Zplus_mod_idemp_l.
      replace (slideshowIndex (scene sys) + 1 + Z.of_nat k)%Z
        with (slideshowIndex (scene sys) + Z.of_nat (S k))%Z by lia.
      reflexivity.
    + exact Hf.
    + cbn [scene photos slideshowIndex with_slideshowIndex].
      apply Z.mod_pos_bound. lia.
Qed.

End SlideshowCycle.

(** X3: while the focus flag is on and the index designates one of
    the [n] photos, [k] ticks of the slideshow interval move the
    index to [(index + k) mod n] and change nothing else; hence [n]
    ticks come back to the same photo, and every photo is reached in
    fewer than [n] ticks. *)
Theorem X3_interval_cycles (sys : Scene.System)
  (Hfocus : Scene.focusMode (Scene.scene sys) = true)
  (Hidx : (0 <= Scene.slideshowIndex (Scene.scene sys)
           < Scene.len (Scene.photos sys))%Z) :
  let i := Scene.slideshowIndex (Scene.scene sys) in
  let n := Scene.len (Scene.photos sys) in
  (forall k : nat,
     View.run sys (repeat Scene.IntervalTick k)
     = Done {| Scene.scene :=
                 Scene.with_slideshowIndex ((i + Z.of_nat k) mod n)%Z
                   (Scene.scene sys);
               Scene.refs := Scene.refs sys;
               Scene.photos := Scene.photos sys |})
  /\ View.run sys (repeat Scene.IntervalTick (List.length (Scene.photos sys)))
     = Done sys
  /\ (forall j : Z, (0 <= j < n)%Z ->
        exists (k : nat) (sys' : Scene.System),
          (k < List.length (Scene.photos sys))%nat
          /\ View.run sys (repeat Scene.IntervalTick k) = Done sys'
          /\ Scene.slideshowIndex (Scene.scene sys') = j).
Proof.
  intros i n. split; [|split].
  - intros k. now apply run_interval_ticks.
  - rewrite run_interval_ticks by assumption.
    change (Z.of_nat (List.length (Scene.photos sys)))
      with (Scene.len (Scene.photos sys)).
    replace (Scene.slideshowIndex (Scene.scene sys)
             + Scene.len (Scene.photos sys))%Z
      with (Scene.slideshowIndex (Scene.scene sys)
            + 1 * Scene.len (Scene.photos sys))%Z by lia.
    rewrite Z.mod_add by lia. rewrite Z.mod_small by lia.
    destruct sys as [[t f r idx] rf ph]. reflexivity.
  - intros j Hj. exists (Z.to_nat ((j - i) mod n)).
    pose proof (Z.mod_pos_bound (j - i) n ltac:(subst i n; lia)) as Hb.
    eexists. split; [|split].
    + subst i n. unfold Scene.len in *. lia.
    + now apply run_interval_ticks.
    + cbn [Scene.scene Scene.slideshowIndex Scene.with_slideshowIndex].
      fold i n. rewrite Z2Nat.id by lia.
      rewrite Zplus_mod_idemp_r.
      replace (i + (j - i))%Z with j by lia. apply Z.mod_small. lia.
Qed.

(** ** More on the gesture classifier *)

Section FrameShape.
Import HandController Gesture.

(** The calls of a frame with a complete hand, in order. *)
Lemma useFrame_shape (given : bool) (refs : Refs) (d : Detection)
  (landmarks : list Landmark) :
  hand d landmarks ->
  exists refs' focusPart swipePart,
    useFrame given refs d
    = Done (refs',
            setTreeState (if (extendedFingers landmarks <? 2)%nat
                          then FORMED else CHAOS)
            :: focusPart ++ swipePart ++ movement (keypoint landmarks 9))
    /\ (focusPart = [] \/ focusPart = [setFocusMode true])
    /\ (swipePart = [] \/ exists dir, swipePart = [onSwipe dir])
    /\ lastHandX refs' = Some (x (keypoint landmarks 9))
    /\ (~ victoryPose landmarks ->
        focusPart = [] /\ swipePart = []
        /\ lastSwipeTime refs' = lastSwipeTime refs
        /\ lastVictoryTime refs' = lastVictoryTime refs).
Proof.
  intros Hhand. rewrite (useFrame_hand given refs Hhand). cbv zeta.
  rewrite <- extendedFingers_count.
  pose proof (victoryPose_ext landmarks) as Hpose.
  set (v := ext landmarks 8 6 && _ && _ && _) in *.
  rewrite victorySelect_calls. cbv zeta. cbn [fst snd].
  set (fire := v && (800 <? nowVictory d - lastVictoryTime refs)%Z).
  set (refs2 := if fire then _ else refs).
  assert (Hrefs2 : lastHandX refs2 = lastHandX refs
                   /\ lastSwipeTime refs2 = lastSwipeTime refs
                   /\ (v = false -> refs2 = refs)).
  { subst refs2 fire. destruct v; cbn [andb]; [|now repeat split].
    destruct (800 <? _)%Z; repeat split; discriminate. }
  destruct Hrefs2 as (Hx2 & Ht2 & Hsame).
  unfold fistOrSpread. cbn [app].
  exists (fst (swipeDetect v given (x (keypoint landmarks 9)) (nowSwipe d) refs2)),
    (if fire then [setFocusMode true] else []),
    (snd (swipeDetect v given (x (keypoint landmarks 9)) (nowSwipe d) refs2)).
  split; [now destruct (_ <? 2)%nat|].
  split; [destruct fire; auto|].
  destruct (swipeDetect_calls v given (x (keypoint landmarks 9)) (nowSwipe d) refs2)
    as (_ & _ & Hx & _).
  split.
  { unfold swipeDetect. destruct (lastHandX refs2); [|now left].
    destruct (v && given); [|now left].
    destruct (Qltb SWIPE_THRESHOLD _ && _); [|now left].
    right. destruct (Qltb 0 _); eexists; reflexivity. }
  split; [exact Hx|].
  intros Hnot. assert (Hv : v = false).
  { destruct v; [|reflexivity]. elim Hnot. now apply Hpose. }
  rewrite (Hsame Hv). subst fire. rewrite Hv. cbn [andb].
  unfold swipeDetect. destruct (lastHandX refs); now repeat split.
Qed.

End FrameShape.

(** X4: every frame with a complete hand calls [setTreeState] exactly
    once and first, then at most one [setFocusMode(true)], then at
    most one [onSwipe], then [setRotation] and [setCameraZoom] once
    each; a frame that does not show the victory pose requests no
    focus and no swipe and keeps both timestamps. *)
Theorem X4_frame_calls_in_order
  (onSwipeGiven : bool) (refs : HandController.Refs)
  (d : HandController.Detection) (landmarks : list HandController.Landmark)
  (Hhand : Gesture.hand d landmarks) :
  exists refs' focusPart swipePart,
    HandController.useFrame onSwipeGiven refs d
    = Done (refs',
            HandController.setTreeState
              (if (Gesture.extendedFingers landmarks <? 2)%nat
               then FORMED else CHAOS)
            :: focusPart ++ swipePart
               ++ [HandController.setRotation
                     ((HandController.x (Gesture.keypoint landmarks 9) - 0.5)
                      * 2 * 0.05);
                   HandController.setCameraZoom
                     ((HandController.y (Gesture.keypoint landmarks 9) - 0.5)
                      * 2)])
    /\ (focusPart = [] \/ focusPart = [HandController.setFocusMode true])
    /\ (swipePart = [] \/ exists dir, swipePart = [HandController.onSwipe dir])
    /\ (~ Gesture.victoryPose landmarks ->
        focusPart = [] /\ swipePart = []
        /\ HandController.lastSwipeTime refs' = HandController.lastSwipeTime refs
        /\ HandController.lastVictoryTime refs'
           = HandController.lastVictoryTime refs).
Proof.
  destruct (useFrame_shape onSwipeGiven refs d landmarks Hhand)
    as (refs' & fp & sp & Hrun & Hf & Hs & _ & Hnot).
  exists refs', fp, sp. unfold HandController.movement in Hrun.
  split; [exact Hrun|]. split; [exact Hf|]. split; [exact Hs | exact Hnot].
Qed.

Section SwipeCooldown.
Import HandController Gesture.

(** What the swipe stage does to the swipe timestamp. *)
Lemma swipeDetect_time (isVictory given : bool) (cx : Q) (now : Z) (refs : Refs) :
  let r := swipeDetect isVictory given cx now refs in
  (swipeCalls (snd r) = []
   /\ lastSwipeTime (fst r) = lastSwipeTime refs)
  \/ ((exists dir, swipeCalls (snd r) = [dir])
      /\ (SWIPE_COOLDOWN < now - lastSwipeTime refs)%Z
      /\ lastSwipeTime (fst r) = now).
Proof.
  unfold swipeDetect.
  destruct (lastHandX refs) as [last|]; [|now left].
  destruct (isVictory && given); [|now left].
  destruct (Qltb SWIPE_THRESHOLD _); cbn [andb]; [|now left].
  destruct (Z.ltb_spec SWIPE_COOLDOWN (now - lastSwipeTime refs)) as [Ht|Ht];
    [|now left].
  right. destruct (Qltb 0 _); (split; [eexists; reflexivity | now split]).
Qed.

Lemma useFrame_swipe_time (given : bool) (refs : Refs) (d : Detection)
  (landmarks : list Landmark) :
  hand d landmarks ->
  exists refs' calls,
    useFrame given refs d = Done (refs', calls)
    /\ ((swipeCalls calls = []
         /\ lastSwipeTime refs' = lastSwipeTime refs)
        \/ ((exists dir, swipeCalls calls = [dir])
            /\ (500 < nowSwipe d - lastSwipeTime refs)%Z
            /\ lastSwipeTime refs' = nowSwipe d)).
Proof.
  intros Hhand.
  destruct (useFrame_summary given refs Hhand)
    as (refs' & calls & Hrun & _ & _ & Hsw & Hst).
  exists refs', calls. split; [exact Hrun|].
  rewrite Hsw, Hst.
  set (v := ext landmarks 8 6 && _ && _ && _).
  destruct (victorySelect_keeps v (nowVictory d) refs) as (_ & Hkeep & _).
  rewrite <- Hkeep. apply swipeDetect_time.
Qed.

(** Over any run of frames with complete hands, each swipe comes more
    than 500 ms after the stored timestamp the run started with, and
    two swipes are more than 500 ms apart. *)
Lemma frames_swipe_spacing (given : bool) (ds : list Detection) :
  forall refs : Refs,
    Forall (fun d => exists landmarks, hand d landmarks) ds ->
    exists refs' outs,
      frames given refs ds = Done (refs', outs)
      /\ List.length outs = List.length ds
      /\ (lastSwipeTime refs <= lastSwipeTime refs')%Z
      /\ (forall k dk ck,
            nth_error ds k = Some dk -> nth_error outs k = Some ck ->
            (List.length (swipeCalls ck) <= 1)%nat
            /\ (swipeCalls ck <> [] ->
                (500 < nowSwipe dk - lastSwipeTime refs)%Z))
      /\ (forall j k dj dk cj ck,
            (j < k)%nat ->
            nth_error ds j = Some dj -> nth_error outs j = Some cj ->
            nth_error ds k = Some dk -> nth_error outs k = Some ck ->
            swipeCalls cj <> [] -> swipeCalls ck <> [] ->
            (500 < nowSwipe dk - nowSwipe dj)%Z).
Proof.
  induction ds as [|d ds IH]; intros refs Hall.
  - exists refs, []. cbn [frames List.length].
    split; [reflexivity|]. split; [reflexivity|]. split; [lia|]. split.
    + intros [|k] dk ck H; discriminate H.
    + intros [|j] k dj dk cj ck _ H; discriminate H.
  - inversion Hall as [|d0 ds0 [landmarks Hhand] Hrest]; subst.
    destruct (useFrame_swipe_time given refs d landmarks Hhand)
      as (refs1 & calls & Hrun & Hcase).
    destruct (IH refs1 Hrest)
      as (refs' & outs & Hruns & Hlen & Hmono & Hfirst & Hpair).
    exists refs', (calls :: outs).
    assert (Hstep : (lastSwipeTime refs <= lastSwipeTime refs1)%Z
                    /\ (List.length (swipeCalls calls) <= 1)%nat
                    /\ (swipeCalls calls <> [] ->
                        (500 < nowSwipe d - lastSwipeTime refs)%Z
                        /\ lastSwipeTime refs1 = nowSwipe d)).
    { destruct Hcase as [[Hnil Hsame]|[[dir Hone] [Hgap Hnow]]].
      - rewrite Hnil, Hsame. cbn. repeat split; try lia; congruence.
      - rewrite Hone. cbn. repeat split; try lia; assumption. }
    destruct Hstep as (Hle & Hone & Hfire).
    split; [simpl; rewrite Hrun; cbn [bind fst snd]; rewrite Hruns; reflexivity|].
    split; [simpl; lia|]. split; [lia|]. split.
    + intros [|k] dk ck Hd Hc; simpl in Hd, Hc.
      * injection Hd as <-. injection Hc as <-.
        split; [exact Hone | intros Hne; now apply Hfire].
      * destruct (Hfirst k dk ck Hd Hc) as [H1 H2].
        split; [exact H1 | intros Hne; specialize (H2 Hne); lia].
    + intros [|j] [|k] dj dk cj ck Hjk Hdj Hcj Hdk Hck Hrj Hrk;
        simpl in Hdj, Hcj, Hdk, Hck; try lia.
      * injection Hdj as <-. injection Hcj as <-.
        destruct (Hfire Hrj) as [_ Heq].
        destruct (Hfirst k dk ck Hdk Hck) as [_ H2]. specialize (H2 Hrk). lia.
      * apply (Hpair j k dj dk cj ck); auto; lia.
Qed.

End SwipeCooldown.

(** X5: over any sequence of frames with a hand, whatever the poses,
    a frame calls [onSwipe] at most once, and the clock readings of
    two frames that swipe are more than 500 ms apart. *)
Theorem X5_swipe_cooldown
  (onSwipeGiven : bool) (refs : HandController.Refs)
  (ds : list HandController.Detection)
  (Hall : Forall (fun d => exists landmarks, Gesture.hand d landmarks) ds) :
  exists refs' outs,
    Gesture.frames onSwipeGiven refs ds = Done (refs', outs)
    /\ List.length outs = List.length ds
    /\ (forall k ck, nth_error outs k = Some ck ->
          (List.length (Gesture.swipeCalls ck) <= 1)%nat)
    /\ (forall j k dj dk cj ck,
          (j < k)%nat ->
          nth_error ds j = Some dj -> nth_error outs j = Some cj ->
          nth_error ds k = Some dk -> nth_error outs k = Some ck ->
          Gesture.swipeCalls cj <> [] -> Gesture.swipeCalls ck <> [] ->
          (500 < HandController.nowSwipe dk - HandController.nowSwipe dj)%Z).
Proof.
  destruct (frames_swipe_spacing onSwipeGiven ds refs Hall)
    as (refs' & outs & Hrun & Hlen & _ & Hfirst & Hpair).
  exists refs', outs. split; [exact Hrun|]. split; [exact Hlen|].
  split; [|exact Hpair].
  intros k ck Hck.
  destruct (nth_error ds k) as [dk|] eqn:Hdk.
  - now destruct (Hfirst k dk ck Hdk Hck).
  - apply nth_error_None in Hdk.
    assert (k < List.length outs)%nat by (apply nth_error_Some; congruence).
    lia.
Qed.

Section NoHand.
Import HandController Gesture.

Lemma frames_skip (given : bool) (ds : list Detection) :
  forall (refs refs' : Refs) (outs : list (list Call)),
    frames given refs ds = Done (refs', outs) ->
    exists outs',
      frames given refs (filter View.hasHand ds) = Done (refs', outs')
      /\ List.concat outs' = List.concat outs.
Proof.
  induction ds as [|d ds IH]; intros refs refs' outs Hrun.
  - exists outs. now split.
  - cbn [frames] in Hrun.
    destruct (useFrame given refs d) as [[refs1 calls]|] eqn:Hd; [|discriminate].
    cbn [bind fst snd] in Hrun.
    destruct (frames given refs1 ds) as [[refs2 outs2]|] eqn:Hds; [|discriminate].
    cbn [bind fst snd] in Hrun. injection Hrun as <- <-.
    destruct (IH refs1 refs2 outs2 Hds) as (outs' & Hrun' & Hcat).
    cbn [filter]. unfold View.hasHand at 1.
    destruct (result_landmarks d) as [|lm rest] eqn:Hres.
    + unfold useFrame in Hd. rewrite Hres in Hd. injection Hd as <- <-.
      exists outs'. split; [exact Hrun' | exact Hcat].
    + exists (calls :: outs'). split.
      * cbn [frames]. rewrite Hd. cbn [bind fst snd]. rewrite Hrun'. reflexivity.
      * cbn [List.concat]. now rewrite Hcat.
Qed.

End NoHand.

(** X6: a frame without a hand leaves the whole system as it is, and
    a run of the controller gives the same calls and the same final
    refs as the run over its frames that do carry a hand: the sample
    [lastHandX] and both timestamps survive any absence of the hand. *)
Theorem X6_frames_without_hand_are_skipped :
  (forall (sys : Scene.System) (d : HandController.Detection),
     View.hasHand d = false ->
     Scene.step sys (Scene.Frame d) = Done sys)
  /\ (forall (onSwipeGiven : bool) (refs refs' : HandController.Refs)
             (ds : list HandController.Detection)
             (outs : list (list HandController.Call)),
        Gesture.frames onSwipeGiven refs ds = Done (refs', outs) ->
        exists outs',
          Gesture.frames onSwipeGiven refs (filter View.hasHand ds)
          = Done (refs', outs')
          /\ List.concat outs' = List.concat outs).
Proof.
  split.
  - intros sys d Hno. unfold View.hasHand in Hno.
    unfold Scene.step, HandController.useFrame.
    destruct (HandController.result_landmarks d); [|discriminate].
    cbn [bind Scene.applyCalls fst snd].
    rewrite commit_same_tree by reflexivity.
    destruct sys. reflexivity.
  - intros given refs refs' ds outs. apply frames_skip.
Qed.

(** ** Rotation, zoom and focus at the level of the scene *)

Section Movement.
Import HandController Gesture Scene.

Lemma applyCalls_app (rendered : State) (n : Z) (a b : list Call) :
  forall pending,
    applyCalls rendered n pending (a ++ b)
    = (mid <- applyCalls rendered n pending a ;; applyCalls rendered n mid b).
Proof.
  induction a as [|c a IH]; intros pending; [reflexivity|].
  cbn [app applyCalls].
  destruct (applyCall rendered n pending c); cbn [bind]; [apply IH | reflexivity].
Qed.

Lemma commit_rotation (rendered next : State) :
  rotation (commit rendered next) = rotation next.
Proof.
  unfold commit. destruct (Mode_eqb _ _); [reflexivity|].
  now destruct (treeState next).
Qed.

(** The rotation left in the scene by a frame with a complete hand. *)
Lemma step_frame_rotation (sys : System) (d : Detection)
  (landmarks : list Landmark) :
  hand d landmarks ->
  exists sys',
    step sys (Frame d) = Done sys'
    /\ rotation (scene sys')
       = ((x (keypoint landmarks 9) - 0.5) * 2 * 0.05)%Q.
Proof.
  intros Hhand.
  destruct (useFrame_shape onSwipeGiven (refs sys) d landmarks Hhand)
    as (refs' & fp & sp & Hrun & _ & _ & _ & _).
  unfold step. rewrite Hrun. cbn [bind fst snd].
  change (setTreeState (if (extendedFingers landmarks <? 2)%nat
                        then FORMED else CHAOS)
          :: fp ++ sp ++ movement (keypoint landmarks 9))
    with ((setTreeState (if (extendedFingers landmarks <? 2)%nat
                         then FORMED else CHAOS) :: fp)
          ++ sp ++ movement (keypoint landmarks 9)).
  rewrite applyCalls_app.
  destruct (applyCalls_spec (scene sys) (len (photos sys))
              (setTreeState (if (extendedFingers landmarks <? 2)%nat
                             then FORMED else CHAOS) :: fp) (scene sys))
    as (mid1 & H1 & _).
  rewrite H1. cbn [bind]. rewrite applyCalls_app.
  destruct (applyCalls_spec (scene sys) (len (photos sys)) sp mid1)
    as (mid2 & H2 & _).
  rewrite H2. cbn [bind movement applyCalls applyCall].
  eexists. split; [reflexivity|].
  cbn [scene]. rewrite commit_rotation. reflexivity.
Qed.

End Movement.

(** X7: a frame whose hand has its middle-finger base inside the
    image (x between 0 and 1) leaves in the scene a rotation between
    -0.05 and 0.05; the rotation speed handed to the tree is then
    between 0.15 and 0.25, so the unfocused tree turns forward by
    0.015 to 0.025 per frame, never backwards. *)
Theorem X7_rotation_bounds (sys : Scene.System)
  (d : HandController.Detection) (landmarks : list HandController.Landmark)
  (Hhand : Gesture.hand d landmarks)
  (Hnorm : View.normalised landmarks) :
  exists sys',
    Scene.step sys (Scene.Frame d) = Done sys'
    /\ (-0.05 <= Scene.rotation (Scene.scene sys') <= 0.05)%Q
    /\ (0.15 <= View.rotationSpeed (Scene.scene sys') <= 0.25)%Q
    /\ forall rotationY : Q,
         (0.015 <= View.treeRotation false
                     (View.rotationSpeed (Scene.scene sys')) rotationY
                   - rotationY <= 0.025)%Q.
Proof.
  destruct (step_frame_rotation sys d landmarks Hhand) as (sys' & Hstep & Hrot).
  exists sys'. split; [exact Hstep|].
  destruct Hnorm as [[Hx0 Hx1] _].
  unfold View.rotationSpeed, View.treeRotation. cbn [negb]. rewrite Hrot.
  set (cx := HandController.x (Gesture.keypoint landmarks 9)) in *.
  split; [split; lra|]. split; [split; lra|].
  intros rotationY. split; lra.
Qed.

Section Zoom.
Import HandController Gesture View.

Lemma zoomCalls_app (calls1 calls2 : list Call) :
  forall cameraZ,
    zoomCalls cameraZ (calls1 ++ calls2) = zoomCalls (zoomCalls cameraZ calls1) calls2.
Proof.
  induction calls1 as [|c cs IH]; intros cameraZ; [reflexivity|].
  destruct c; cbn [app zoomCalls]; apply IH.
Qed.

(** A frame with a complete hand moves the camera exactly once. *)
Lemma useFrame_zoom (given : bool) (refs : Refs) (d : Detection)
  (landmarks : list Landmark) :
  hand d landmarks ->
  exists refs' calls,
    useFrame given refs d = Done (refs', calls)
    /\ forall cameraZ,
         zoomCalls cameraZ calls
         = handleZoom cameraZ ((y (keypoint landmarks 9) - 0.5) * 2)%Q.
Proof.
  intros Hhand.
  destruct (useFrame_shape given refs d landmarks Hhand)
    as (refs' & fp & sp & Hrun & Hf & Hs & _ & _).
  eexists _, _. split; [exact Hrun|]. intros cameraZ.
  cbn [zoomCalls]. rewrite !zoomCalls_app.
  assert (Hfp : zoomCalls cameraZ fp = cameraZ)
    by (destruct Hf as [->| ->]; reflexivity).
  rewrite Hfp.
  assert (Hsp : zoomCalls cameraZ sp = cameraZ)
    by (destruct Hs as [->|[dir ->]]; reflexivity).
  rewrite Hsp. reflexivity.
Qed.

Lemma handleZoom_bounds (z delta : Q) :
  (8 <= z <= 28)%Q -> (-1 <= delta <= 1)%Q ->
  exists z', handleZoom (Some z) delta = Some z' /\ (8 <= z' <= 28)%Q.
Proof.
  intros Hz Hd. eexists. split; [reflexivity|]. unfold lerp. lra.
Qed.

End Zoom.

(** X8: over any sequence of frames whose hand has its middle-finger
    base inside the image (y between 0 and 1), [handleZoom] keeps the
    camera's z between 8 and 28 once it is there, as it is at the
    start (18); while the camera ref is not attached nothing is
    moved. *)
Theorem X8_camera_zoom_bounds
  (onSwipeGiven : bool) (ds : list HandController.Detection)
  (Hall : Forall (fun d => exists landmarks,
                    Gesture.hand d landmarks /\ View.normalised landmarks) ds) :
  forall refs : HandController.Refs,
  exists refs' outs,
    Gesture.frames onSwipeGiven refs ds = Done (refs', outs)
    /\ View.zoomFrames None outs = None
    /\ forall z : Q, (8 <= z <= 28)%Q ->
         exists z', View.zoomFrames (Some z) outs = Some z' /\ (8 <= z' <= 28)%Q.
Proof.
  induction ds as [|d ds IH]; intros refs.
  - exists refs, []. split; [reflexivity|]. split; [reflexivity|].
    intros z Hz. now exists z.
  - inversion Hall as [|d0 ds0 (landmarks & Hhand & Hnorm) Hrest]; subst.
    destruct (useFrame_zoom onSwipeGiven refs d landmarks Hhand)
      as (refs1 & calls & Hrun & Hzoom).
    destruct (IH Hrest refs1) as (refs' & outs & Hruns & Hnone & Hsome).
    exists refs', (calls :: outs).
    split; [cbn [Gesture.frames]; rewrite Hrun; cbn [bind fst snd];
            rewrite Hruns; reflexivity|].
    unfold View.zoomFrames in *. cbn [fold_left]. rewrite !Hzoom. split.
    + exact Hnone.
    + intros z Hz. rewrite Hzoom.
      destruct (handleZoom_bounds z
                  ((HandController.y (Gesture.keypoint landmarks 9) - 0.5) * 2)%Q Hz)
        as (z1 & Hz1 & Hb1).
      { destruct Hnorm as [_ [Hy0 Hy1]]. split; lra. }
      rewrite Hz1. now apply Hsome.
Qed.

Section Focus.
Import HandController Gesture Scene.

Lemma commit_chaos (rendered next : State) :
  treeState next = CHAOS -> commit rendered next = next.
Proof.
  unfold commit. intros ->. now destruct (Mode_eqb _ _).
Qed.

Lemma commit_focus_cleared (rendered next : State) :
  focusMode next = true -> focusMode (commit rendered next) = false ->
  treeState next = FORMED /\ treeState rendered = CHAOS.
Proof.
  unfold commit. intros Hf.
  destruct (treeState next), (treeState rendered); cbn [Mode_eqb];
    rewrite ?Hf; try discriminate. now split.
Qed.

End Focus.

(** X9: from any state, a frame that shows the victory pose more than
    800 ms after the last selection leaves the scene scattered with
    the focus flag on; if the flag was off before, the slideshow
    index is not moved by that frame, even when the same frame also
    swipes. *)
Theorem X9_victory_opens_focus (sys : Scene.System)
  (d : HandController.Detection) (landmarks : list HandController.Landmark)
  (Hhand : Gesture.hand d landmarks)
  (Hpose : Gesture.victoryPose landmarks)
  (Hlate : (800 < HandController.nowVictory d
                  - HandController.lastVictoryTime (Scene.refs sys))%Z) :
  exists sys',
    Scene.step sys (Scene.Frame d) = Done sys'
    /\ Scene.treeState (Scene.scene sys') = CHAOS
    /\ Scene.focusMode (Scene.scene sys') = true
    /\ HandController.lastVictoryTime (Scene.refs sys')
       = HandController.nowVictory d
    /\ (Scene.focusMode (Scene.scene sys) = false ->
        Scene.slideshowIndex (Scene.scene sys')
        = Scene.slideshowIndex (Scene.scene sys)).
Proof.
  destruct (step_frame sys Hhand)
    as (refs' & calls & next & Hrun & _ & Hstep & Ht & Hf & _ & Hidx).
  destruct (useFrame_summary Scene.onSwipeGiven (Scene.refs sys) Hhand)
    as (r2 & c2 & Hrun2 & Hfire & Hlast & _).
  rewrite Hrun in Hrun2. injection Hrun2 as <- <-.
  rewrite (proj1 (victoryPose_ext landmarks) Hpose) in Hfire, Hlast.
  rewrite (proj2 (Z.ltb_lt _ _) Hlate) in Hfire, Hlast. cbn [andb] in Hfire, Hlast.
  rewrite (victoryPose_two_fingers Hpose) in Ht. cbn in Ht.
  eexists. split; [exact Hstep|]. cbn [Scene.scene Scene.refs].
  rewrite (commit_chaos _ _ Ht).
  split; [exact Ht|]. split; [now rewrite Hf, Hfire|].
  split; [exact Hlast|]. intros Hoff. apply Hidx. now left.
Qed.

(** X10: once the focus flag is on, only two events can turn it off:
    the [onClose] click of the overlay, and a frame with a hand that
    extends fewer than two fingers.  Interval ticks, uploads, frames
    without a hand and frames with two or more extended fingers all
    keep it on. *)
Theorem X10_focus_cleared_only_by_fist_or_close
  (sys sys' : Scene.System) (e : Scene.Event)
  (Hfocus : Scene.focusMode (Scene.scene sys) = true)
  (Hstep : Scene.step sys e = Done sys')
  (Hoff : Scene.focusMode (Scene.scene sys') = false) :
  e = Scene.Close
  \/ exists d landmarks,
       e = Scene.Frame d /\ Gesture.hand d landmarks
       /\ (Gesture.extendedFingers landmarks < 2)%nat.
Proof.
  destruct e as [d| | |newPhotos]; unfold Scene.step in Hstep.
  - right.
    destruct (HandController.useFrame Scene.onSwipeGiven (Scene.refs sys) d)
      as [r|] eqn:Hrun; [|discriminate].
    destruct (useFrame_Done_hand _ _ _ Hrun) as [[_ ->]|[landmarks Hhand]].
    + cbn [bind Scene.applyCalls snd fst] in Hstep. injection Hstep as <-.
      cbn [Scene.scene] in Hoff. rewrite commit_same_tree in Hoff by reflexivity.
      congruence.
    + exists d, landmarks. split; [reflexivity|]. split; [exact Hhand|].
      destruct (step_frame sys Hhand)
        as (refs' & calls & next & Hrun' & Happ & _ & Ht & Hf & _ & _).
      rewrite Hrun in Hrun'. injection Hrun' as ->.
      cbn [bind snd fst] in Hstep. rewrite Happ in Hstep. cbn [bind] in Hstep.
      injection Hstep as <-. cbn [Scene.scene] in Hoff.
      rewrite Hfocus, orb_true_r in Hf.
      destruct (commit_focus_cleared _ _ Hf Hoff) as [Hformed _].
      rewrite Hformed in Ht.
      destruct (Nat.ltb_spec (Gesture.extendedFingers landmarks) 2);
        [assumption | discriminate].
  - destruct (intervalTick_spec (Scene.focusMode (Scene.scene sys))
                (Scene.len (Scene.photos sys)) (Scene.scene sys))
      as (next & Htick & Ht & Hf & _).
    rewrite Htick in Hstep. cbn [bind] in Hstep. injection Hstep as <-.
    cbn [Scene.scene] in Hoff. rewrite commit_same_tree in Hoff by assumption.
    congruence.
  - now left.
  - injection Hstep as <-. cbn [Scene.scene] in Hoff. congruence.
Qed.

Section OverlayScale.
Import View.

Lemma overlayScale_unit (active : bool) (s : Q) :
  (0 <= s <= 1)%Q -> (0 <= overlayScale active s <= 1)%Q.
Proof.
  intros Hs. unfold overlayScale, lerp. destruct active; cbv beta iota zeta; split; lra.
Qed.

Lemma overlayScale_shrinks (s : Q) :
  (0 <= s)%Q ->
  (0 <= overlayScale false s <= s)%Q /\ (overlayScale false s == 0.9 * s)%Q.
Proof.
  intros Hs. unfold overlayScale, lerp. cbv beta iota zeta. split; [split|]; lra.
Qed.

Lemma overlayScale_monotone (s1 s2 : Q) (k : nat) :
  (0 <= s1 <= s2)%Q ->
  (0 <= Nat.iter k (overlayScale false) s1
   <= Nat.iter k (overlayScale false) s2)%Q.
Proof.
  intros Hs. induction k as [|k IH]; [exact Hs|].
  rewrite !Nat.iter_succ.
  set (a := Nat.iter k (overlayScale false) s1) in *.
  set (b := Nat.iter k (overlayScale false) s2) in *.
  clearbody a b. unfold overlayScale, lerp. cbv beta iota zeta.
  destruct IH as [Ha Hab]. split; lra.
Qed.

Lemma overlayScale_after (j : nat) (s : Q) :
  (0 <= s <= 1)%Q ->
  (0 <= Nat.iter (j + 44) (overlayScale false) s
   <= Nat.iter 44 (overlayScale false) 1)%Q.
Proof.
  intros Hs. induction j as [|j IH].
  - apply overlayScale_monotone. exact Hs.
  - cbn [Nat.add]. rewrite Nat.iter_succ.
    destruct (overlayScale_shrinks (Nat.iter (j + 44) (overlayScale false) s))
      as [[H0 H1] _]; [apply IH|].
    split; [exact H0|]. eapply Qle_trans; [exact H1 | apply IH].
Qed.

End OverlayScale.

(** X11: the scale of the focused-photo overlay stays between 0 and 1
    whatever the sequence of frames; while the overlay is active each
    frame closes 10% of the gap to 1, and while it is inactive each
    frame multiplies the scale by 0.9, so that from any scale up to 1
    it is below the threshold 0.01, under which an inactive overlay
    renders nothing, after 44 frames and at every later frame. *)
Theorem X11_overlay_scale (s : Q) (Hs : (0 <= s <= 1)%Q) :
  (forall active : bool, (0 <= View.overlayScale active s <= 1)%Q)
  /\ (1 - View.overlayScale true s == 0.9 * (1 - s))%Q
  /\ (View.overlayScale false s == 0.9 * s)%Q
  /\ (forall k : nat, (44 <= k)%nat ->
        View.overlayHidden false
          (Some (Nat.iter k (View.overlayScale false) s)) = true)
  /\ View.overlayHidden false
       (Some (Nat.iter 43 (View.overlayScale false) 1)) = false.
Proof.
  split; [intros active; now apply overlayScale_unit|].
  split; [unfold View.overlayScale, View.lerp; cbv beta iota zeta; lra|].
  split; [unfold View.overlayScale, View.lerp; cbv beta iota zeta; lra|].
  split; [|vm_compute; reflexivity].
  intros k Hk. replace k with ((k - 44) + 44)%nat by lia.
  destruct (overlayScale_after (k - 44) s Hs) as [_ Hle].
  unfold View.overlayHidden. cbn [negb andb].
  apply Qltb_lt. eapply Qle_lt_trans; [exact Hle|].
  vm_compute. reflexivity.
Qed.

(** ** The photo ornaments *)

Section PhotoOrnaments.
Import Tree.
Local Open Scope R_scope.

Lemma mapM_Forall2 {A B : Type} (f : A -> Outcome B) (P : A -> B -> Prop)
  (l : list A) :
  (forall a, In a l -> exists b, f a = Done b /\ P a b) ->
  exists bs, mapM f l = Done bs /\ Forall2 P l bs.
Proof.
  induction l as [|a l IH]; intros Hf.
  - exists []. split; [reflexivity | constructor].
  - destruct (Hf a (or_introl eq_refl)) as (b & Hb & Hp).
    destruct IH as (bs & Hbs & Hall); [intros a' Ha'; apply Hf; now right|].
    exists (b :: bs). cbn [mapM]. rewrite Hb. cbn [bind]. rewrite Hbs.
    split; [reflexivity | now constructor].
Qed.

Lemma Forall2_seq_nth {B : Type} (P : nat -> B -> Prop) (n : nat) (bs : list B) :
  forall start,
    Forall2 P (seq start n) bs ->
    List.length bs = n
    /\ forall i b, nth_error bs i = Some b -> P (start + i)%nat b.
Proof.
  revert bs. induction n as [|n IH]; intros bs start Hall.
  - inversion Hall; subst. split; [reflexivity|].
    intros [|i] b H; discriminate H.
  - cbn [seq] in Hall. inversion Hall as [|a b0 l bs' Hp Hrest]; subst.
    destruct (IH bs' (S start) Hrest) as [Hlen Hnth].
    split; [cbn [List.length]; now rewrite Hlen|].
    intros [|i] b H; cbn [nth_error] in H.
    + injection H as <-. now rewrite Nat.add_0_r.
    + replace (start + S i)%nat with (S start + i)%nat by lia. now apply Hnth.
Qed.

(** The height and the distance from the axis of ornament [i]. *)
Lemma ornament_geometry (i : nat) :
  (i < 12)%nat ->
  let h := 0.2 + INR i / 12 * 0.6 in
  -4.2 <= h * CONFIG.treeHeight - CONFIG.treeHeight / 2 <= 3.5
  /\ 0.9 <= (1 - h) * CONFIG.treeRadius * 0.8 <= 2.88.
Proof.
  intros Hi h. unfold CONFIG.treeHeight, CONFIG.treeRadius.
  assert (Hb : 0 <= INR i <= 11).
  { split; [apply pos_INR|].
    replace 11 with (INR 11) by (simpl; lra). apply le_INR. lia. }
  subst h. lra.
Qed.

End PhotoOrnaments.

(** X12: for a non-empty photo list the tree carries exactly 12 photo
    ornaments; ornament [i] has id [i], is bound to photo
    [i mod photos.length], lies at height between -4.2 and 3.5 at a
    distance between 0.9 and 2.88 from the axis, each up to 0.0001
    for the rounding of the arithmetic, and the url looked up for it
    when the tree is rendered is that photo: no lookup is out of
    range. *)
Theorem X12_photo_ornaments (photos : list string) (Hne : photos <> []) :
  exists ornaments urls,
    Tree.photoOrnaments photos = Done ornaments
    /\ Tree.ornamentUrls photos ornaments = Done urls
    /\ List.length ornaments = 12%nat /\ List.length urls = 12%nat
    /\ forall i o,
         nth_error ornaments i = Some o ->
         Tree.id o = i
         /\ Tree.photoIndex o = (Z.of_nat i mod Scene.len photos)%Z
         /\ nth_error urls i
            = Some (nth_error photos (Z.to_nat (Tree.photoIndex o)))
         /\ (exists url, nth_error photos (Z.to_nat (Tree.photoIndex o)) = Some url)
         /\ (let '(px, py, pz) := Tree.position o in
             (-4.2001 <= py <= 3.5001
              /\ exists r, 0.8999 <= r <= 2.8801
                           /\ px * px + pz * pz = r * r)%R).
Proof.
  assert (Hlen : (0 < Scene.len photos)%Z).
  { unfold Scene.len. destruct photos; [congruence | cbn [List.length]; lia]. }
  set (P := fun (i : nat) (o : Tree.Ornament) =>
              Tree.id o = i
              /\ Tree.photoIndex o = (Z.of_nat i mod Scene.len photos)%Z
              /\ (let '(px, py, pz) := Tree.position o in
                  (-4.2001 <= py <= 3.5001
                   /\ exists r, 0.8999 <= r <= 2.8801
                                /\ px * px + pz * pz = r * r)%R)).
  destruct (mapM_Forall2 (Tree.ornamentAt (Scene.len photos)) P
              (seq 0 Tree.ornamentCount))
    as (ornaments & Hrun & Hall).
  { intros i Hi. apply in_seq in Hi. unfold Tree.ornamentCount in Hi.
    unfold Tree.ornamentAt, jsRem.
    rewrite (proj2 (Z.eqb_neq _ 0)) by lia. cbn [bind]. eexists.
    split; [reflexivity|]. unfold P.
    cbn [Tree.id Tree.photoIndex Tree.position].
    split; [reflexivity|]. split; [apply Z.rem_mod_nonneg; lia|].
    unfold Tree.ornamentCount.
    replace (INR 12) with 12%R by (simpl; lra).
    destruct (ornament_geometry i ltac:(lia)) as [Hy Hr]. cbv zeta in Hy, Hr.
    split; [lra|].
    exists ((1 - (0.2 + INR i / 12 * 0.6)) * CONFIG.treeRadius * 0.8)%R.
    split; [lra|].
    set (a := (INR i / 12 * PI * 4)%R).
    set (r := ((1 - (0.2 + INR i / 12 * 0.6)) * CONFIG.treeRadius * 0.8)%R).
    pose proof (sin2_cos2 a) as Hsc. unfold Rsqr in Hsc.
    replace (cos a * r * (cos a * r) + sin a * r * (sin a * r))%R
      with ((sin a * sin a + cos a * cos a) * (r * r))%R by ring.
    rewrite Hsc. ring. }
  destruct (Forall2_seq_nth P Tree.ornamentCount ornaments 0 Hall)
    as [Hcount Hnth].
  set (U := fun (o : Tree.Ornament) (u : option string) =>
              u = nth_error photos (Z.to_nat (Tree.photoIndex o))
              /\ exists url, u = Some url).
  assert (Hin : forall o, In o ornaments ->
            (0 <= Tree.photoIndex o < Scene.len photos)%Z).
  { intros o Ho. apply In_nth_error in Ho as [i Hi].
    destruct (Hnth i o Hi) as (_ & Hidx & _). cbn [Nat.add] in Hidx.
    rewrite Hidx. apply Z.mod_pos_bound. exact Hlen. }
  destruct (mapM_Forall2 (Tree.ornamentUrl photos) U ornaments)
    as (urls & Hurls & Hall2).
  { intros o Ho. specialize (Hin o Ho). unfold Tree.ornamentUrl, jsRem.
    rewrite !(proj2 (Z.eqb_neq _ 0)) by lia. cbn [bind].
    rewrite Z.rem_small by lia. unfold atZ.
    rewrite (proj2 (Z.ltb_ge _ _)) by lia. unfold at_.
    destruct (nth_error photos (Z.to_nat (Tree.photoIndex o))) as [url|] eqn:E.
    - cbn [bind]. eexists. split; [reflexivity|]. unfold U. rewrite E.
      split; [reflexivity | now exists url].
    - apply nth_error_None in E. unfold Scene.len in Hin. lia. }
  exists ornaments, urls.
  split; [unfold Tree.photoOrnaments;
          now rewrite (proj2 (Z.eqb_neq _ 0)) by lia|].
  split; [exact Hurls|]. split; [exact Hcount|].
  split; [rewrite <- (Forall2_length Hall2); exact Hcount|].
  intros i o Hi. destruct (Hnth i o Hi) as (Hid & Hidx & Hpos).
  cbn [Nat.add] in Hid, Hidx.
  split; [exact Hid|]. split; [exact Hidx|].
  assert (Hu : exists u, nth_error urls i = Some u /\ U o u).
  { clear - Hall2 Hi. revert i Hi.
    induction Hall2 as [|o' u' os us Hou Hrest IH]; intros [|i] Hi;
      cbn [nth_error] in *; try discriminate.
    - injection Hi as <-. now exists u'.
    - now apply IH. }
  destruct Hu as (u & Hu & Heq & url & Hsome).
  rewrite Hu, Heq. split; [reflexivity|]. split; [|exact Hpos].
  exists url. congruence.
Qed.

(** ** Generated data: loops that draw random numbers *)

Section GeneratorLoops.
Import Random Random_loops.
Local Open Scope R_scope.

Lemma forEachG_app {A S : Type} (body : S -> A -> Gen S) (l1 l2 : list A)
  (s : S) (rand : nat -> R) (k : nat) :
  forEachG body (l1 ++ l2) s rand k
  = match forEachG body l1 s rand k with
    | Done (s', k') => forEachG body l2 s' rand k'
    | Faulted e => Faulted e
    end.
Proof.
  revert s k. induction l1 as [|a l1 IH]; intros s k; [reflexivity|].
  cbn [forEachG app]. unfold bindG.
  destruct (body s a rand k) as [[s' k']|e]; [apply IH | reflexivity].
Qed.

(** A loop whose body makes [draws] calls of [Math.random] per round
    and keeps an invariant never faults, makes [draws * n] calls and
    ends in a state satisfying the invariant. *)
Lemma forLoopG_invariant {St : Type} (I : nat -> St -> Prop) (draws : nat)
  (body : St -> nat -> Gen St) (n : nat) (rand : nat -> R) (s0 : St) (k0 : nat) :
  I 0%nat s0 ->
  (forall i s, (i < n)%nat -> I i s ->
     exists s', body s i rand (k0 + draws * i)%nat
                = Done (s', (k0 + draws * S i)%nat)
                /\ I (S i) s') ->
  exists s, forLoopG n body s0 rand k0 = Done (s, (k0 + draws * n)%nat) /\ I n s.
Proof.
  intros H0 Hstep. unfold forLoopG.
  assert (Hprefix : forall m, (m <= n)%nat ->
    exists s, forEachG body (seq 0 m) s0 rand k0
              = Done (s, (k0 + draws * m)%nat) /\ I m s).
  { induction m as [|m IH]; intros Hm.
    - exists s0. rewrite Nat.mul_0_r, Nat.add_0_r. now split.
    - destruct IH as (s & Hrun & Hs); [lia|].
      destruct (Hstep m s ltac:(lia) Hs) as (s' & Hbody & Hs').
      exists s'. rewrite seq_S, forEachG_app, Hrun.
      cbn [forEachG Nat.add]. unfold bindG. rewrite Hbody.
      split; [reflexivity | exact Hs']. }
  now apply Hprefix.
Qed.

Lemma block_store (a : list R) (i : nat) (vx vy vz : R) :
  (i * 3 + 2 < List.length a)%nat ->
  block (store (store (store a (i * 3) vx) (i * 3 + 1) vy) (i * 3 + 2) vz) i
  = (vx, vy, vz).
Proof.
  intros Hlen. unfold block.
  rewrite !(store_nth_other _ (i:=i * 3 + 2) (j:=i * 3)) by lia.
  rewrite !(store_nth_other _ (i:=i * 3 + 1) (j:=i * 3)) by lia.
  rewrite !(store_nth_other _ (i:=i * 3 + 2) (j:=i * 3 + 1)) by lia.
  rewrite !store_nth_same by (rewrite ?store_length; lia).
  reflexivity.
Qed.

Lemma block_store_other (a : list R) (i j : nat) (vx vy vz : R) :
  j <> i ->
  block (store (store (store a (i * 3) vx) (i * 3 + 1) vy) (i * 3 + 2) vz) j
  = block a j.
Proof.
  intros Hne. unfold block. now rewrite !store_nth_other by lia.
Qed.

Lemma length_store3 (a : list R) (i : nat) (vx vy vz : R) :
  List.length (store (store (store a (i * 3) vx) (i * 3 + 1) vy) (i * 3 + 2) vz)
  = List.length a.
Proof. now rewrite !store_length. Qed.

(** Reading back the three entries just written. *)
Lemma read_store (a : list R) (i : nat) (vx vy vz : R) :
  (i * 3 + 2 < List.length a)%nat ->
  let a' := store (store (store a (i * 3) vx) (i * 3 + 1) vy) (i * 3 + 2) vz in
  at_ a' (i * 3) = Done vx
  /\ at_ a' (i * 3 + 1) = Done vy
  /\ at_ a' (i * 3 + 2) = Done vz.
Proof.
  intros Hlen a'.
  pose proof (block_store a i vx vy vz Hlen) as Hb. fold a' in Hb.
  unfold block in Hb. injection Hb as Hx Hy Hz.
  assert (Hl : List.length a' = List.length a) by apply length_store3.
  rewrite !(@at_nth _ a' _ 0) by lia. now rewrite Hx, Hy, Hz.
Qed.

Lemma jitter_bound (u c : R) :
  0 <= u < 1 -> 0 <= c -> Rabs ((u - 0.5) * c) <= c / 2.
Proof.
  intros Hu Hc. unfold Rabs. destruct (Rcase_abs _); nra.
Qed.

(** An entry of an array after a write is the old entry or the
    number written. *)
Lemma store_nth_cases {A : Type} (a : list A) (i j : nat) (v d : A) :
  nth j (store a i v) d = nth j a d \/ nth j (store a i v) d = v.
Proof.
  destruct (Nat.eq_dec i j) as [->|Hne];
    [|left; now apply store_nth_other].
  destruct (lt_dec j (List.length a)) as [Hlt|Hge];
    [right; now apply store_nth_same|].
  left. rewrite !nth_overflow; rewrite ?store_length; try lia. reflexivity.
Qed.

Lemma Float32Array_array (n : nat) : Float32.array (Float32Array n).
Proof.
  intros j. unfold Float32Array. rewrite nth_repeat. apply representable_0.
Qed.

Lemma write_array (a : list R) (i : nat) (v : R) :
  Float32.array a -> Float32.array (Float32.write a i v).
Proof.
  intros Ha j. unfold Float32.write.
  destruct (store_nth_cases a i j (Float32.fround v) 0) as [-> | ->];
    [apply Ha | apply fround_representable].
Qed.

(** Storing a float32 again does not change it. *)
Lemma fround_idem (x : R) : Float32.fround (Float32.fround x) = Float32.fround x.
Proof. apply fround_representable. Qed.

(** A stored number is near the number: for numbers of size at most
    16 the error is below one millionth. *)
Lemma stored_near (x : R) :
  -16 <= x <= 16 ->
  x - 0.000001 <= Float32.fround x <= x + 0.000001.
Proof.
  intros Hx. assert (Hs : Rabs x <= 16) by (apply Rabs_le; lra).
  pose proof (@fround_close x 16 Hs) as Hc.
  apply Rabs_le_between in Hc. lra.
Qed.

(** For numbers of size at most 64, below four millionths. *)
Lemma stored_near_64 (x : R) :
  -64 <= x <= 64 ->
  x - 0.000004 <= Float32.fround x <= x + 0.000004.
Proof.
  intros Hx. assert (Hs : Rabs x <= 64) by (apply Rabs_le; lra).
  pose proof (@fround_close x 64 Hs) as Hc.
  apply Rabs_le_between in Hc. lra.
Qed.

(** A stored number stays between integer bounds of the number. *)
Lemma stored_between (lo hi : Z) (x : R) :
  (Z.abs lo <= 2 ^ 24)%Z -> (Z.abs hi <= 2 ^ 24)%Z ->
  IZR lo <= x <= IZR hi -> IZR lo <= Float32.fround x <= IZR hi.
Proof.
  intros Hlo Hhi Hx.
  apply fround_between; [now apply representable_IZR
                        | now apply representable_IZR | exact Hx].
Qed.

Lemma fraction_unit (i count : nat) :
  (i < count)%nat -> 0 <= INR i / INR count < 1.
Proof.
  intros Hi. assert (Hc : 0 < INR count) by (apply lt_0_INR; lia).
  pose proof (pos_INR i) as H0. pose proof (lt_INR _ _ Hi) as H1.
  split.
  - apply Rmult_le_pos; [exact H0 | left; now apply Rinv_0_lt_compat].
  - apply Rmult_lt_reg_r with (INR count); [exact Hc|].
    unfold Rdiv. rewrite Rmult_assoc, Rinv_l by lra. lra.
Qed.

End GeneratorLoops.

(** ** The ribbon *)

Section Ribbon.
Import Random Random_loops AtmosphereGenerator.
Local Open Scope R_scope.

Lemma ribbon_radius (t : R) (isRibbonA : bool) :
  let '(px, py, pz) := getRibbonPoint t isRibbonA in
  py = 14 * t - 7
  /\ px * px + pz * pz = (5.2 - 5 * t) * (5.2 - 5 * t).
Proof.
  unfold getRibbonPoint, RIBBON_PARAMS.turns, RIBBON_PARAMS.heightSpread,
    RIBBON_PARAMS.radiusBase, RIBBON_PARAMS.radiusTip.
  cbv zeta.
  set (a := t * PI * (6 * 2) * (if isRibbonA then 1 else -1)
            + (if isRibbonA then 0 else PI)).
  split; [lra|].
  pose proof (sin2_cos2 a) as Hsc. unfold Rsqr in Hsc.
  replace (cos a * (5.0 * (1 - t) + 0.2) * (cos a * (5.0 * (1 - t) + 0.2))
           + sin a * (5.0 * (1 - t) + 0.2) * (sin a * (5.0 * (1 - t) + 0.2)))
    with ((sin a * sin a + cos a * cos a)
          * ((5.0 * (1 - t) + 0.2) * (5.0 * (1 - t) + 0.2))) by ring.
  rewrite Hsc. lra.
Qed.

(** The size of the coordinates of a ribbon point. *)
Lemma ribbon_point_size (t : R) (isRibbonA : bool) :
  0 <= t <= 1 ->
  let '(px, py, pz) := getRibbonPoint t isRibbonA in
  -5.2 <= px <= 5.2 /\ -7 <= py <= 7 /\ -5.2 <= pz <= 5.2.
Proof.
  intros Ht.
  unfold getRibbonPoint, RIBBON_PARAMS.turns, RIBBON_PARAMS.heightSpread,
    RIBBON_PARAMS.radiusBase, RIBBON_PARAMS.radiusTip.
  cbv zeta.
  set (a := t * PI * (6 * 2) * (if isRibbonA then 1 else -1)
            + (if isRibbonA then 0 else PI)).
  pose proof (COS_bound a). pose proof (SIN_bound a).
  repeat split; nra.
Qed.

Lemma ribbon_mirror (t : R) :
  let '(ax, ay, az) := getRibbonPoint t true in
  getRibbonPoint t false = (- ax, ay, az)
  /\ ax = cos (t * PI * 12) * (5.2 - 5 * t).
Proof.
  unfold getRibbonPoint, RIBBON_PARAMS.turns, RIBBON_PARAMS.heightSpread,
    RIBBON_PARAMS.radiusBase, RIBBON_PARAMS.radiusTip.
  cbv zeta.
  replace (t * PI * (6 * 2) * 1 + 0) with (t * PI * 12) by ring.
  replace (t * PI * (6 * 2) * -1 + PI) with (- (t * PI * 12) + PI) by ring.
  rewrite neg_cos, neg_sin, cos_neg, sin_neg.
  split; [f_equal; [f_equal|]; ring | f_equal; lra].
Qed.

End Ribbon.

(** X13: the ribbon path.  For [t] from 0 to 1 the point of either
    strand is at height [14 t - 7], between -7 and 7, at distance
    [5.2 - 5 t] from the axis, between 0.2 and 5.2.  Strand B is the
    mirror image of strand A in the plane [x = 0], so the two strands
    cross exactly where [cos (12 pi t) = 0]. *)
Theorem X13_ribbon_path (t : R) (Ht : (0 <= t <= 1)%R) :
  (forall isRibbonA,
     let '(px, py, pz) := AtmosphereGenerator.getRibbonPoint t isRibbonA in
     py = 14 * t - 7 /\ -7 <= py <= 7
     /\ px * px + pz * pz = (5.2 - 5 * t) * (5.2 - 5 * t)
     /\ 0.2 <= 5.2 - 5 * t <= 5.2)%R
  /\ (let '(ax, ay, az) := AtmosphereGenerator.getRibbonPoint t true in
      AtmosphereGenerator.getRibbonPoint t false = (- ax, ay, az)%R)
  /\ (AtmosphereGenerator.getRibbonPoint t false
      = AtmosphereGenerator.getRibbonPoint t true
      <-> cos (t * PI * 12) = 0)%R.
Proof.
  split; [|split].
  - intros isRibbonA. pose proof (ribbon_radius t isRibbonA) as H.
    destruct (AtmosphereGenerator.getRibbonPoint t isRibbonA) as [[px py] pz].
    destruct H as [Hy Hr]. split; [exact Hy|]. split; [lra|].
    split; [exact Hr | lra].
  - pose proof (ribbon_mirror t) as H.
    destruct (AtmosphereGenerator.getRibbonPoint t true) as [[ax ay] az].
    exact (proj1 H).
  - pose proof (ribbon_mirror t) as H.
    destruct (AtmosphereGenerator.getRibbonPoint t true) as [[ax ay] az].
    destruct H as [-> Hax]. split.
    + intros Heq. injection Heq as Hx.
      assert (H0 : (ax = 0)%R) by lra. rewrite Hax in H0.
      apply Rmult_integral in H0 as [H0|H0]; [exact H0 | lra].
    + intros Hc. rewrite Hax, Hc. f_equal. f_equal. lra.
Qed.

(** One eighth of the way up, where the angle is one and a half
    turns of [pi]. *)
Lemma X13_witness :
  (0 <= 0.125 <= 1)%R
  /\ (AtmosphereGenerator.getRibbonPoint 0.125 false
      = AtmosphereGenerator.getRibbonPoint 0.125 true
      <-> cos (0.125 * PI * 12) = 0)%R.
Proof.
  split; [lra|].
  exact (proj2 (proj2 (X13_ribbon_path 0.125 ltac:(lra)))).
Defined.

Section RibbonParticles.
Import Random Random_loops AtmosphereGenerator.
Local Open Scope R_scope.

Lemma ribbon_spec (count : nat) (rand : nat -> R) (k0 : nat) :
  inUnit rand ->
  exists positions randoms,
    ribbon count rand k0 = Done ((positions, randoms), (k0 + 4 * count)%nat)
    /\ List.length positions = (count * 3)%nat
    /\ List.length randoms = count
    /\ forall i, (i < count)%nat ->
         within 0.050001 (block positions i)
           (getRibbonPoint (INR i / INR count) (i mod 2 =? 0)%nat)
         /\ nth i randoms 0 = Float32.fround (rand (k0 + 4 * i + 3)%nat)
         /\ 0 <= nth i randoms 0 <= 1.
Proof.
  intros Hrand. unfold ribbon.
  set (I := fun (m : nat) (geo : list R * list R) =>
              List.length (fst geo) = (count * 3)%nat
              /\ List.length (snd geo) = count
              /\ forall i, (i < m)%nat ->
                   within 0.050001 (block (fst geo) i)
                     (getRibbonPoint (INR i / INR count) (i mod 2 =? 0)%nat)
                   /\ nth i (snd geo) 0
                      = Float32.fround (rand (k0 + 4 * i + 3)%nat)
                   /\ 0 <= nth i (snd geo) 0 <= 1).
  destruct (forLoopG_invariant I 4 (ribbonBody count) count rand
              (Float32Array (count * 3), Float32Array count) k0)
    as ([positions randoms] & Hrun & Hlp & Hlr & Hall).
  - unfold I, Float32Array. cbn [fst snd]. rewrite !repeat_length.
    split; [reflexivity|]. split; [reflexivity|]. intros i Hi. lia.
  - intros m [positions randoms] Hm (Hlp & Hlr & Hall). cbn [fst snd] in *.
    unfold ribbonBody.
    pose proof (fraction_unit m count Hm) as Ht.
    pose proof (ribbon_point_size (INR m / INR count) (m mod 2 =? 0)%nat
                  ltac:(lra)) as Hsize.
    destruct (getRibbonPoint (INR m / INR count) (m mod 2 =? 0)%nat)
      as [[px py] pz] eqn:Hpoint.
    cbv beta iota zeta delta [bindG random ret Float32.write].
    replace (k0 + 4 * S m)%nat with (S (S (S (S (k0 + 4 * m))))) by lia.
    eexists. split; [reflexivity|]. unfold I. cbn [fst snd].
    split; [now rewrite length_store3|]. split; [now rewrite store_length|].
    intros i Hi. destruct (Nat.eq_dec i m) as [->|Hne].
    + rewrite block_store by lia. rewrite Hpoint.
      rewrite store_nth_same by lia.
      set (k := (k0 + 4 * m)%nat).
      replace (k + 3)%nat with (S (S (S k))) by lia.
      split; [|split; [reflexivity|]].
      * unfold within.
        pose proof (Hrand k) as H1. pose proof (Hrand (S k)) as H2.
        pose proof (Hrand (S (S k))) as H3.
        pose proof (stored_near (px + (rand k - 0.5) * 0.1) ltac:(lra)).
        pose proof (stored_near (py + (rand (S k) - 0.5) * 0.1) ltac:(lra)).
        pose proof (stored_near (pz + (rand (S (S k)) - 0.5) * 0.1) ltac:(lra)).
        split; [|split]; apply Rabs_le; lra.
      * pose proof (Hrand (S (S (S k)))) as H4.
        apply (stored_between 0 1); [lia | lia | lra].
    + rewrite block_store_other by exact Hne.
      rewrite store_nth_other by congruence. apply Hall. lia.
  - exists positions, randoms. cbn [fst snd] in *. now repeat split; try apply Hall.
Qed.

End RibbonParticles.

(** X14: the ribbon particles.  Whatever numbers [Math.random]
    returns, building the ribbon geometry calls it 4 times per
    particle, fills 8000 positions and 8000 random seeds, and puts
    particle [i] within 0.05 on each axis, up to the rounding of the
    store, of the path point of parameter [i / 8000], on strand A for
    even [i] and on strand B for odd [i]; every seed is the float32
    nearest to the number drawn for it, from 0 to 1, both included. *)
Theorem X14_ribbon_particles (rand : nat -> R) (k0 : nat)
  (Hrand : Random.inUnit rand) :
  exists positions randoms,
    AtmosphereGenerator.ribbonGeo rand k0
    = Done ((positions, randoms), (k0 + Z.to_nat 32000)%nat)
    /\ List.length positions = Z.to_nat 24000
    /\ List.length randoms = Z.to_nat 8000
    /\ forall i, (i < Z.to_nat 8000)%nat ->
         AtmosphereGenerator.within 0.050001 (block positions i)
           (AtmosphereGenerator.getRibbonPoint (INR i / 8000)
              (Nat.even i))
         /\ nth i randoms 0%R = Float32.fround (rand (k0 + 4 * i + 3)%nat)
         /\ (0 <= nth i randoms 0 <= 1)%R.
Proof.
  destruct (ribbon_spec RIBBON_PARAMS.particleCount rand k0 Hrand)
    as (positions & randoms & Hrun & Hlp & Hlr & Hall).
  assert (Hcount : RIBBON_PARAMS.particleCount = Z.to_nat 8000) by reflexivity.
  assert (HR : INR RIBBON_PARAMS.particleCount = 8000%R).
  { rewrite Hcount, INR_IZR_INZ, Z2Nat.id by lia. reflexivity. }
  exists positions, randoms. unfold AtmosphereGenerator.ribbonGeo.
  rewrite Hrun. split; [do 2 f_equal; lia|].
  split; [lia|]. split; [lia|].
  intros i Hi. destruct (Hall i ltac:(lia)) as [Hw Hr]. split; [|exact Hr].
  rewrite HR in Hw.
  replace (Nat.even i) with (i mod 2 =? 0)%nat; [exact Hw|].
  destruct (Nat.even i) eqn:E.
  - apply Nat.even_spec in E. destruct E as [j ->].
    apply Nat.eqb_eq. now rewrite Nat.mul_comm, Nat.Div0.mod_mul.
  - apply Nat.eqb_neq. intros H0.
    assert (Nat.even i = true); [|congruence].
    apply Nat.even_spec. exists (i / 2)%nat.
    pose proof (Nat.div_mod_eq i 2). lia.
Qed.

(** Any generator respecting the range of [Math.random], here the one
    that always returns one half. *)
Lemma X14_witness :
  exists positions randoms,
    AtmosphereGenerator.ribbonGeo (fun _ => 0.5%R) 0%nat
    = Done ((positions, randoms), Z.to_nat 32000)
    /\ List.length positions = Z.to_nat 24000.
Proof.
  destruct (X14_ribbon_particles (fun _ => 0.5%R) 0%nat) as (p & r & H1 & H2 & _).
  - intros k. lra.
  - exists p, r. now split.
Defined.

(** ** The ornament data *)

Section OrnamentData.
Import Random Random_loops AtmosphereGenerator.
Local Open Scope R_scope.

(** [Math.floor (u * 6)] picks a palette slot: red for the first four,
    gold for the last two. *)
Lemma palette_pick (u : R) :
  0 <= u < 1 ->
  (if (JsMath.floor (u * INR (List.length palette)) <? 0)%Z then white
   else nth (Z.to_nat (JsMath.floor (u * INR (List.length palette))))
          palette white)
  = if Rlt_dec u (2 / 3) then red else gold.
Proof.
  intros Hu. unfold JsMath.floor.
  replace (INR (List.length palette)) with 6 by (simpl; lra).
  destruct (base_Int_part (u * 6)) as [Hlo Hhi].
  set (ip := Int_part (u * 6)) in *.
  assert (H0 : (0 <= ip)%Z).
  { assert (H : (-1 < ip)%Z) by (apply lt_IZR; lra). lia. }
  assert (H6 : (ip < 6)%Z) by (apply lt_IZR; lra).
  rewrite (proj2 (Z.ltb_ge _ _)) by lia.
  destruct (Rlt_dec u (2 / 3)) as [Hlt|Hge].
  - assert (H4 : (ip < 4)%Z) by (apply lt_IZR; lra).
    assert (Hc : (Z.to_nat ip < 4)%nat) by lia.
    destruct (Z.to_nat ip) as [|[|[|[|n]]]]; try reflexivity; lia.
  - assert (H4 : (3 < ip)%Z) by (apply lt_IZR; lra).
    assert (Hc : (3 < Z.to_nat ip < 6)%nat) by lia.
    destruct (Z.to_nat ip) as [|[|[|[|[|[|n]]]]]]; try reflexivity; lia.
Qed.

Lemma nth_block (a : list R) (i k : nat) (P : R -> Prop) :
  (let '(vx, vy, vz) := block a i in P vx /\ P vy /\ P vz) ->
  (k < 3)%nat -> P (nth (i * 3 + k) a 0).
Proof.
  unfold block. intros (Hx & Hy & Hz) Hk.
  destruct k as [|[|[|k]]]; [| | |lia]; rewrite ?Nat.add_0_r; assumption.
Qed.

Lemma store3_array (a : list R) (i : nat) (vx vy vz : R) :
  Float32.array a ->
  Float32.array
    (store (store (store a (i * 3) (Float32.fround vx))
              (i * 3 + 1) (Float32.fround vy))
       (i * 3 + 2) (Float32.fround vz)).
Proof.
  intros Ha.
  apply (write_array _ (i * 3 + 2) vz), (write_array _ (i * 3 + 1) vy),
    (write_array _ (i * 3) vx), Ha.
Qed.

Lemma representable_half : Float32.representable 0.5.
Proof.
  replace 0.5 with (IZR 1 * Float32.pow2 (-1))
    by (unfold Float32.pow2; simpl; lra).
  apply representable_dyadic; lia.
Qed.

(** The stored formed coordinate [t + j] of an ornament and its
    stored chaos coordinate [(t + j) * s + o]. *)
Lemma stored_ornament (t j s o : R) :
  -7 <= t <= 7 -> -0.1 <= j <= 0.1 -> 2.5 <= s <= 4.5 -> -2.5 <= o <= 2.5 ->
  Rabs (Float32.fround (t + j) - t) <= 0.100001
  /\ Rabs (Float32.fround ((t + j) * s + o) - Float32.fround (t + j) * s)
     <= 2.50001.
Proof.
  intros Ht Hj Hs Ho.
  pose proof (stored_near (t + j) ltac:(lra)) as Hf.
  assert (Hp : -32 <= (t + j) * s <= 32) by nra.
  pose proof (stored_near_64 ((t + j) * s + o) ltac:(lra)) as Hc.
  set (f := Float32.fround (t + j)) in *.
  set (c := Float32.fround ((t + j) * s + o)) in *.
  split; [apply Rabs_le; lra|].
  assert (Hd : -0.0000045 <= (f - (t + j)) * s <= 0.0000045) by nra.
  replace (c - f * s)
    with ((c - ((t + j) * s + o)) - (f - (t + j)) * s + o) by ring.
  apply Rabs_le. lra.
Qed.

Lemma generateData_spec (count : nat) (type : Kind) (rand : nat -> R) (k0 : nat) :
  exists g,
    generateData count type rand k0 = Done (g, (k0 + 15 * count)%nat)
    /\ List.length (g_formed g) = (count * 3)%nat
    /\ List.length (g_chaos g) = (count * 3)%nat
    /\ List.length (g_current g) = (count * 3)%nat
    /\ g_current g = g_formed g
    /\ Float32.array (g_formed g)
    /\ (inUnit rand ->
        forall i, (i < count)%nat ->
          ornamentOk count type g i (rand (k0 + 15 * i + 14)%nat)).
Proof.
  unfold generateData.
  set (I := fun (m : nat) (g : GroupArrays) =>
              (List.length (g_formed g) = (count * 3)%nat
               /\ List.length (g_chaos g) = (count * 3)%nat
               /\ List.length (g_current g) = (count * 3)%nat
               /\ List.length (g_rotations g) = (count * 3)%nat
               /\ List.length (g_rotationSpeeds g) = (count * 3)%nat
               /\ List.length (g_colors g) = count
               /\ List.length (g_scales g) = count)
              /\ g_current g = g_formed g
              /\ Float32.array (g_formed g)
              /\ (inUnit rand ->
                  forall i, (i < m)%nat ->
                    ornamentOk count type g i (rand (k0 + 15 * i + 14)%nat))).
  match goal with
  | |- context [forLoopG count _ ?g0] =>
      destruct (forLoopG_invariant I 15 (generateBody count type) count rand g0 k0)
        as (g & Hrun & Hlen & Hcur & Harr & Hall)
  end.
  - unfold I. cbn [g_formed g_chaos g_current g_rotations
      g_rotationSpeeds g_colors g_scales].
    split; [unfold Float32Array; rewrite !repeat_length; tauto|].
    split; [reflexivity|]. split; [apply Float32Array_array|].
    intros _ i Hi. lia.
  - intros m g Hm ((Hlf & Hlc & Hlk & Hlr & Hls & Hlo & Hla) & Hcur & Harr & Hall).
    unfold generateBody, getSpiralPos.
    pose proof (fraction_unit m count Hm) as Ht.
    pose proof (ribbon_point_size (INR m / INR count) (m mod 2 =? 0)%nat
                  ltac:(lra)) as Hsize.
    destruct (getRibbonPoint (INR m / INR count) (m mod 2 =? 0)%nat)
      as [[px py] pz] eqn:Hpoint.
    cbv beta iota zeta delta [bindG random ret getChaosPos Float32.write].
    eexists. split.
    { apply f_equal. apply f_equal2; [reflexivity | lia]. }
    unfold I. cbn [g_formed g_chaos g_current g_rotations
      g_rotationSpeeds g_colors g_scales].
    split; [rewrite !length_store3, !store_length; tauto|].
    split; [now rewrite Hcur|].
    split; [now apply store3_array|].
    intros Hrand i Hi. unfold ornamentOk.
    cbn [g_formed g_chaos g_current g_rotations
      g_rotationSpeeds g_colors g_scales].
    destruct (Nat.eq_dec i m) as [->|Hne].
    + rewrite !block_store by lia. rewrite Hpoint.
      rewrite !store_nth_same by lia.
      set (k := (k0 + 15 * m)%nat).
      replace (k + 14)%nat
        with (S (S (S (S (S (S (S (S (S (S (S (S (S (S k))))))))))))))
        by lia.
      pose proof (Hrand k) as U0. pose proof (Hrand (S k)) as U1.
      pose proof (Hrand (S (S k))) as U2.
      pose proof (Hrand (S (S (S k)))) as U3.
      pose proof (Hrand (S (S (S (S k))))) as U4.
      pose proof (Hrand (S (S (S (S (S k)))))) as U5.
      pose proof (Hrand (S (S (S (S (S (S k))))))) as U6.
      destruct Hsize as (Hx & Hy & Hz).
      destruct (stored_ornament px ((rand k - 0.5) * 0.2)
                  (2.5 + rand (S (S (S k))) * 2)
                  ((rand (S (S (S (S k)))) - 0.5) * 5)
                  ltac:(lra) ltac:(lra) ltac:(lra) ltac:(lra)) as [Fx Cx].
      destruct (stored_ornament py ((rand (S k) - 0.5) * 0.2)
                  (2.5 + rand (S (S (S k))) * 2)
                  ((rand (S (S (S (S (S k))))) - 0.5) * 5)
                  ltac:(lra) ltac:(lra) ltac:(lra) ltac:(lra)) as [Fy Cy].
      destruct (stored_ornament pz ((rand (S (S k)) - 0.5) * 0.2)
                  (2.5 + rand (S (S (S k))) * 2)
                  ((rand (S (S (S (S (S (S k)))))) - 0.5) * 5)
                  ltac:(lra) ltac:(lra) ltac:(lra) ltac:(lra)) as [Fz Cz].
      split; [unfold within; now repeat split|].
      split.
      { exists (2.5 + rand (S (S (S k))) * 2).
        split; [lra|]. unfold within. now repeat split. }
      split.
      { intros j Hj. pose proof PI_RGT_0 as Hpi. pose proof PI_4 as Hpi4.
        split.
        - apply (nth_block _ m j (fun v => 0 <= v <= PI + 0.000001)); [|exact Hj].
          rewrite block_store by lia.
          pose proof (Hrand (S (S (S (S (S (S (S k)))))))) as V0.
          pose proof (Hrand (S (S (S (S (S (S (S (S k))))))))) as V1.
          pose proof (Hrand (S (S (S (S (S (S (S (S (S k)))))))))) as V2.
          assert (Hangle : forall u, 0 <= u < 1 ->
                    0 <= Float32.fround (u * PI) <= PI + 0.000001).
          { intros u Hu. assert (H0 : 0 <= u * PI <= PI) by nra.
            split; [apply fround_nonneg; lra|].
            pose proof (stored_near (u * PI) ltac:(lra)). lra. }
          repeat split; now apply Hangle.
        - apply (nth_block _ m j (fun v => -0.010001 <= v <= 0.010001));
            [|exact Hj].
          rewrite block_store by lia.
          pose proof (Hrand (S (S (S (S (S (S (S (S (S (S k))))))))))) as V0.
          pose proof (Hrand (S (S (S (S (S (S (S (S (S (S (S k)))))))))))) as V1.
          pose proof (Hrand (S (S (S (S (S (S (S (S (S (S (S (S k)))))))))))))
            as V2.
          assert (Hspeed : forall u, 0 <= u < 1 ->
                    -0.010001 <= Float32.fround ((u - 0.5) * 0.02) <= 0.010001).
          { intros u Hu.
            pose proof (stored_near ((u - 0.5) * 0.02) ltac:(lra)). lra. }
          repeat split; now apply Hspeed. }
      split.
      { pose proof (Hrand (S (S (S (S (S (S (S (S (S (S (S (S (S k))))))))))))))
          as V.
        set (v := 0.5 + rand (S (S (S (S (S (S (S (S (S (S (S (S (S k))))))))))))) * 0.8)
          in *.
        split.
        - rewrite <- representable_half at 1. apply fround_mono. subst v. lra.
        - pose proof (stored_near v ltac:(subst v; lra)). subst v. lra. }
      rewrite (palette_pick _ (Hrand _)).
      destruct type; try reflexivity;
        destruct (Rlt_dec _ (2 / 3)) as [Hlt|Hge];
        (split; [intros Hu; try reflexivity; lra
                |split; [intros Hu; try reflexivity; lra | tauto]]).
    + rewrite !block_store_other by exact Hne.
      rewrite !(store_nth_other _ (i:=m) (j:=i)) by congruence.
      destruct (Hall Hrand i ltac:(lia)) as (H1 & H2 & H3 & H4 & H5).
      split; [exact H1|]. split; [exact H2|]. split; [|split; assumption].
      intros j Hj. rewrite !store_nth_other by lia. now apply H3.
  - exists g. destruct Hlen as (Hlf & Hlc & Hlk & _).
    split; [exact Hrun|]. repeat (split; [assumption|]). exact Hall.
Qed.

End OrnamentData.

(** X15: the data of an ornament group.  Whatever numbers in its
    range [Math.random] returns, [generateData] calls it 15 times per
    instance and never reads or writes out of range; the start
    position of every instance is its formed position, which is within
    0.1 on each axis of the ribbon point of parameter [i / count] (the
    strands alternating); its chaos position is the formed position
    scaled by a factor from 2.5 to 4.5 and moved by at most 2.5 on each
    axis; its rotation angles are from 0 to pi, its rotation speeds
    from -0.01 to 0.01, its scale from 0.5 to 1.3, each bound up to
    the rounding of the float32 store; a light is gold, a gift or a
    ball is red or gold: red when the last number drawn for it is at
    most 0.666 and gold when it is at least 0.667. *)
Theorem X15_ornament_data (count : nat) (type : AtmosphereGenerator.Kind)
  (rand : nat -> R) (k0 : nat) (Hrand : Random.inUnit rand) :
  exists g,
    AtmosphereGenerator.generateData count type rand k0
    = Done (g, (k0 + 15 * count)%nat)
    /\ AtmosphereGenerator.g_current g = AtmosphereGenerator.g_formed g
    /\ forall i, (i < count)%nat ->
         AtmosphereGenerator.ornamentOk count type g i
           (rand (k0 + 15 * i + 14)%nat).
Proof.
  destruct (generateData_spec count type rand k0)
    as (g & Hrun & _ & _ & _ & Hcur & _ & Hall).
  exists g. split; [exact Hrun|]. split; [exact Hcur|]. exact (Hall Hrand).
Qed.

(** The 45 gifts, from a generator that always returns one half: all
    of them are red. *)
Lemma X15_witness :
  exists g,
    AtmosphereGenerator.generateData 45 AtmosphereGenerator.gift
      (fun _ => 0.5%R) 0%nat
    = Done (g, 675%nat)
    /\ nth 7 (AtmosphereGenerator.g_colors g) AtmosphereGenerator.white
       = AtmosphereGenerator.red.
Proof.
  destruct (X15_ornament_data 45 AtmosphereGenerator.gift (fun _ => 0.5%R) 0%nat)
    as (g & Hrun & _ & Hall).
  - intros k. lra.
  - exists g. split; [exact Hrun|].
    destruct (Hall 7%nat ltac:(lia)) as (_ & _ & _ & _ & Hc & _).
    apply Hc. lra.
Defined.

Section OrnamentTicks.
Import Random Random_loops AtmosphereGenerator.
Local Open Scope R_scope.

(** A tick towards the positions the instances are already at leaves
    the buffer as it is. *)
Lemma animateGroup_at_rest (mode : Mode) (d : Atmosphere.GroupData)
  (config : Atmosphere.InstanceConfig) (current : list R) :
  List.length current = (Atmosphere.count config * 3)%nat ->
  Float32.array current ->
  Engine.groupTargets mode d = current ->
  Atmosphere.animateGroup mode d config current = Done current.
Proof.
  intros Hlen Harr Htarget.
  destruct (@animateGroup_spec mode d config current)
    as (current' & Hrun & Hlen' & Hnew); [rewrite Htarget; lia | lia |].
  rewrite Hrun. f_equal. apply (nth_ext _ _ 0 0); [exact Hlen'|].
  rewrite Hlen', Hlen.
  apply (@flat_index (Atmosphere.count config)
           (fun j => nth j current' 0 = nth j current 0)).
  intros i k Hi Hk. rewrite (Hnew i k Hi Hk), Htarget.
  rewrite <- (Harr (i * 3 + k)%nat) at 3. f_equal.
  unfold MathUtils.lerp. ring.
Qed.

End OrnamentTicks.

(** X16: ornaments on generated data.  For each group the arrays
    [generateData] builds fit the frame loop: run on them, in any
    sequence of modes and for any number of frames, [animateGroup]
    never reads out of range; and as long as the mode is FORMED the
    instances stay exactly where the generator put them. *)
Theorem X16_ornaments_rest_when_formed (config : Atmosphere.InstanceConfig)
  (type : AtmosphereGenerator.Kind) (rand : nat -> R) (k0 : nat) :
  exists g k,
    AtmosphereGenerator.generateData (Atmosphere.count config) type rand k0
    = Done (g, k)
    /\ (forall m,
          Engine.ticks
            (fun _ => Atmosphere.animateGroup FORMED
                        (AtmosphereGenerator.groupData g) config)
            m (AtmosphereGenerator.g_current g)
          = Done (AtmosphereGenerator.g_current g))
    /\ (forall (modes : nat -> Mode) m,
          exists p,
            Engine.ticks
              (fun j => Atmosphere.animateGroup (modes j)
                          (AtmosphereGenerator.groupData g) config)
              m (AtmosphereGenerator.g_current g)
            = Done p
            /\ List.length p = (Atmosphere.count config * 3)%nat).
Proof.
  destruct (generateData_spec (Atmosphere.count config) type rand k0)
    as (g & Hrun & Hlf & Hlc & Hlk & Hcur & Harr & _).
  exists g, (k0 + 15 * Atmosphere.count config)%nat.
  split; [exact Hrun|]. split.
  - induction m as [|m IH]; [reflexivity|].
    cbn [Engine.ticks]. rewrite IH. cbn [bind].
    apply animateGroup_at_rest; [exact Hlk | now rewrite Hcur |].
    unfold Engine.groupTargets, AtmosphereGenerator.groupData.
    cbn [Mode_eqb Atmosphere.formed]. now rewrite Hcur.
  - intros modes m.
    apply (@ticks_length
             (fun j => Atmosphere.animateGroup (modes j)
                         (AtmosphereGenerator.groupData g) config)
             (Atmosphere.count config * 3)); [|exact Hlk].
    intros j p Hp.
    destruct (@animateGroup_spec (modes j) (AtmosphereGenerator.groupData g)
                config p) as (p' & Hp' & Hlen' & _).
    + unfold Engine.groupTargets, AtmosphereGenerator.groupData.
      cbn [Atmosphere.formed Atmosphere.chaos].
      destruct (Mode_eqb (modes j) FORMED); lia.
    + lia.
    + exists p'. split; [exact Hp' | lia].
Qed.

(** ** The particles of the tree *)

Ltac gen_step :=
  cbv beta iota zeta
    delta [Random.bindG Random.random Random.ret Random.read Float32.write].

Section TreeParticles.
Import Random Random_loops TreeGenerator.
Local Open Scope R_scope.

Lemma cbrt_unit (u : R) : 0 <= u < 1 -> 0 <= JsMath.cbrt u < 1.
Proof.
  intros Hu. unfold JsMath.cbrt.
  destruct (total_order_T 0 u) as [[Hpos|Hzero]|Hneg]; [|lra|lra].
  split; [left; apply exp_pos|].
  rewrite <- exp_0. apply exp_increasing.
  assert (Hln : ln u < 0) by (rewrite <- ln_1; apply ln_increasing; lra).
  lra.
Qed.

Lemma rem_two (h : R) : 0 <= h -> 0 <= JsMath.rem h 2 < 2.
Proof.
  intros Hh. unfold JsMath.rem, JsMath.trunc.
  destruct (Rle_dec 0 (h / 2)) as [_|Hn]; [|lra].
  destruct (base_Int_part (h / 2)) as [Hlo Hhi]. lra.
Qed.

Lemma circle (a r : R) :
  cos a * r * (cos a * r) + sin a * r * (sin a * r) = r * r.
Proof.
  pose proof (sin2_cos2 a) as Hsc. unfold Rsqr in Hsc.
  replace (cos a * r * (cos a * r) + sin a * r * (sin a * r))
    with ((sin a * sin a + cos a * cos a) * (r * r)) by ring.
  rewrite Hsc. ring.
Qed.

(** A point drawn as the generators draw their chaos positions lies
    within the radius used. *)
Lemma scatter_inBall (radius u theta phi : R) :
  0 <= radius -> 0 <= u < 1 ->
  inBall radius (radius * JsMath.cbrt u * sin phi * cos theta,
                 radius * JsMath.cbrt u * sin phi * sin theta,
                 radius * JsMath.cbrt u * cos phi).
Proof.
  intros Hr Hu. unfold inBall.
  pose proof (cbrt_unit u Hu) as Hc. set (c := JsMath.cbrt u) in *.
  pose proof (sin2_cos2 phi) as Hp. pose proof (sin2_cos2 theta) as Ht.
  unfold Rsqr in Hp, Ht.
  replace (radius * c * sin phi * cos theta * (radius * c * sin phi * cos theta)
           + radius * c * sin phi * sin theta * (radius * c * sin phi * sin theta)
           + radius * c * cos phi * (radius * c * cos phi))
    with ((radius * c) * (radius * c)
          * (sin phi * sin phi * (sin theta * sin theta + cos theta * cos theta)
             + cos phi * cos phi)) by ring.
  rewrite Ht, Rmult_1_r, Hp, Rmult_1_r.
  assert (H0 : 0 <= radius * c) by (apply Rmult_le_pos; lra).
  assert (H1 : radius * c <= radius).
  { rewrite <- (Rmult_1_r radius) at 2. apply Rmult_le_compat_l; lra. }
  apply Rmult_le_compat; assumption.
Qed.

(** Storing the coordinates of a point of a ball keeps it within a
    ball one thousandth larger. *)
Lemma stored_inBall (radius x y z : R) :
  0 <= radius <= 16 -> inBall radius (x, y, z) ->
  inBall (radius + 0.001)
    (Float32.fround x, Float32.fround y, Float32.fround z).
Proof.
  unfold inBall. intros Hr H.
  assert (Hx : - radius <= x <= radius) by nra.
  assert (Hy : - radius <= y <= radius) by nra.
  assert (Hz : - radius <= z <= radius) by nra.
  pose proof (stored_near x ltac:(lra)) as Nx.
  pose proof (stored_near y ltac:(lra)) as Ny.
  pose proof (stored_near z ltac:(lra)) as Nz.
  set (dx := Float32.fround x - x). set (dy := Float32.fround y - y).
  set (dz := Float32.fround z - z).
  replace (Float32.fround x) with (x + dx) by (unfold dx; ring).
  replace (Float32.fround y) with (y + dy) by (unfold dy; ring).
  replace (Float32.fround z) with (z + dz) by (unfold dz; ring).
  assert (Dx : -0.000001 <= dx <= 0.000001) by (unfold dx; lra).
  assert (Dy : -0.000001 <= dy <= 0.000001) by (unfold dy; lra).
  assert (Dz : -0.000001 <= dz <= 0.000001) by (unfold dz; lra).
  clearbody dx dy dz.
  assert (x * dx <= radius * 0.000001) by nra.
  assert (y * dy <= radius * 0.000001) by nra.
  assert (z * dz <= radius * 0.000001) by nra.
  assert (dx * dx <= 0.000001) by nra.
  assert (dy * dy <= 0.000001) by nra.
  assert (dz * dz <= 0.000001) by nra.
  nra.
Qed.

(** The distance from the axis of a stored point of the circle of
    radius [rad]. *)
Lemma stored_axisDistance (a rad y : R) :
  0 <= rad <= 16 ->
  rad - 0.00001
  <= axisDistance (Float32.fround (cos a * rad), y, Float32.fround (sin a * rad))
  <= rad + 0.00001.
Proof.
  intros Hr. unfold axisDistance.
  pose proof (circle a rad) as Hc.
  pose proof (COS_bound a) as Bc. pose proof (SIN_bound a) as Bs.
  set (c := cos a * rad) in *. set (s := sin a * rad) in *.
  assert (Hcr : - rad <= c <= rad) by (unfold c; nra).
  assert (Hsr : - rad <= s <= rad) by (unfold s; nra).
  pose proof (stored_near c ltac:(lra)) as Nc.
  pose proof (stored_near s ltac:(lra)) as Ns.
  set (dc := Float32.fround c - c). set (ds := Float32.fround s - s).
  replace (Float32.fround c) with (c + dc) by (unfold dc; ring).
  replace (Float32.fround s) with (s + ds) by (unfold ds; ring).
  assert (Dc : -0.000001 <= dc <= 0.000001) by (unfold dc; lra).
  assert (Ds : -0.000001 <= ds <= 0.000001) by (unfold ds; lra).
  clearbody c s dc ds.
  set (S := (c + dc) * (c + dc) + (s + ds) * (s + ds)).
  assert (H1 : - (rad * 0.000001) <= c * dc <= rad * 0.000001) by nra.
  assert (H2 : - (rad * 0.000001) <= s * ds <= rad * 0.000001) by nra.
  assert (H3 : 0 <= dc * dc <= 0.000000000001) by nra.
  assert (H4 : 0 <= ds * ds <= 0.000000000001) by nra.
  assert (HS : S = rad * rad + 2 * (c * dc) + 2 * (s * ds) + dc * dc + ds * ds)
    by (unfold S; rewrite <- Hc; ring).
  split.
  - destruct (Rle_dec rad 0.00001) as [Hsmall|Hbig].
    + pose proof (sqrt_pos S). lra.
    + rewrite <- (sqrt_square (rad - 0.00001)) by lra.
      apply sqrt_le_1_alt. nra.
  - rewrite <- (sqrt_square (rad + 0.00001)) by lra.
    apply sqrt_le_1_alt. nra.
Qed.

Lemma needles_spec (count : nat) (rand : nat -> R) (k0 : nat) :
  exists nData,
    needles count rand k0 = Done (nData, (k0 + 7 * count)%nat)
    /\ List.length (n_chaos nData) = (count * 3)%nat
    /\ List.length (n_formed nData) = (count * 3)%nat
    /\ List.length (n_current nData) = (count * 3)%nat
    /\ List.length (n_random nData) = count
    /\ n_current nData = n_chaos nData
    /\ Float32.array (n_chaos nData)
    /\ Float32.array (n_formed nData)
    /\ (inUnit rand ->
        forall i, (i < count)%nat ->
          inBall 8.001 (block (n_chaos nData) i)
          /\ inShell 0.001 (fun py => 0.8 * coneRadius py)
               (fun py => 1.2 * (coneRadius py + 0.5))
               (block (n_formed nData) i)
          /\ nth i (n_random nData) 0
             = Float32.fround (rand (k0 + 7 * i + 6)%nat)
          /\ 0 <= nth i (n_random nData) 0 <= 1).
Proof.
  unfold needles.
  set (I := fun (m : nat) (nData : NeedleArrays) =>
              (List.length (n_chaos nData) = (count * 3)%nat
               /\ List.length (n_formed nData) = (count * 3)%nat
               /\ List.length (n_current nData) = (count * 3)%nat
               /\ List.length (n_random nData) = count)
              /\ n_current nData = n_chaos nData
              /\ Float32.array (n_chaos nData)
              /\ Float32.array (n_formed nData)
              /\ (inUnit rand ->
                  forall i, (i < m)%nat ->
                    inBall 8.001 (block (n_chaos nData) i)
                    /\ inShell 0.001 (fun py => 0.8 * coneRadius py)
                         (fun py => 1.2 * (coneRadius py + 0.5))
                         (block (n_formed nData) i)
                    /\ nth i (n_random nData) 0
                       = Float32.fround (rand (k0 + 7 * i + 6)%nat)
                    /\ 0 <= nth i (n_random nData) 0 <= 1)).
  match goal with
  | |- context [forLoopG count _ ?s0] =>
      destruct (forLoopG_invariant I 7 needleBody count rand s0 k0)
        as (nData & Hrun & Hlen & Hcur & Hac & Haf & Hall)
  end.
  - unfold I. cbn [n_chaos n_formed n_current n_random].
    split; [unfold Float32Array; rewrite !repeat_length; tauto|].
    split; [reflexivity|].
    split; [apply Float32Array_array|]. split; [apply Float32Array_array|].
    intros _ i Hi. lia.
  - intros m nData Hm ((Hlc & Hlf & Hlk & Hlr) & Hcur & Hac & Haf & Hall).
    unfold needleBody. gen_step.
    match goal with
    | |- context [at_ (store (store (store ?a _ ?vx) _ ?vy) _ ?vz) _] =>
        destruct (read_store a m vx vy vz ltac:(lia)) as (R1 & R2 & R3)
    end.
    cbv zeta in R1, R2, R3.
    rewrite R1. gen_step. rewrite R2. gen_step. rewrite R3. gen_step.
    eexists. split.
    { apply f_equal. apply f_equal2; [reflexivity | lia]. }
    unfold I. cbn [n_chaos n_formed n_current n_random].
    split; [rewrite !length_store3, !store_length; tauto|].
    split; [now rewrite !fround_idem, Hcur|].
    split; [now apply store3_array|]. split; [now apply store3_array|].
    intros Hrand i Hi. destruct (Nat.eq_dec i m) as [->|Hne].
    + rewrite !block_store by lia. rewrite store_nth_same by lia.
      set (k := (k0 + 7 * m)%nat).
      split.
      { replace 8.001 with (8 + 0.001) by lra.
        apply stored_inBall; [lra|]. apply scatter_inBall; [lra | apply Hrand]. }
      split.
      2:{ replace (k + 6)%nat with (S (S (S (S (S (S k)))))) by lia.
          split; [reflexivity|].
          pose proof (Hrand (S (S (S (S (S (S k))))))).
          apply (stored_between 0 1); [lia | lia | lra]. }
      unfold inShell, coneRadius, CONFIG.treeHeight, CONFIG.treeRadius.
      pose proof (Hrand (S (S (S k)))) as Hh.
      pose proof (Hrand (S (S (S (S k))))) as Hf.
      set (h := rand (S (S (S k))) * 14) in *.
      assert (Hh' : 0 <= h < 14) by (subst h; lra).
      pose proof (rem_two h ltac:(lra)) as Ht.
      match goal with
      | |- context [Float32.fround (cos ?a * ?r)] =>
          set (rad := r); set (ang := a)
      end.
      assert (Hc : 0 <= (1 - h / 14) * 4.5 <= 4.5) by nra.
      assert (Hrad : 0.8 * ((1 - h / 14) * 4.5) <= rad
                     <= 1.2 * ((1 - h / 14) * 4.5 + 0.5))
        by (subst rad; split; nra).
      pose proof (stored_axisDistance ang rad (Float32.fround (h - 14 / 2))
                    ltac:(lra)) as Hax.
      pose proof (stored_near (h - 14 / 2) ltac:(lra)) as Hy.
      pose proof (stored_between (-7) 7 (h - 14 / 2) ltac:(lia) ltac:(lia)
                    ltac:(lra)) as Hy2.
      cbv beta iota zeta. split; lra.
    + rewrite !block_store_other by exact Hne.
      rewrite store_nth_other by congruence. apply (Hall Hrand). lia.
  - exists nData. destruct Hlen as (Hlc & Hlf & Hlk & Hlr).
    split; [exact Hrun|]. repeat (split; [assumption|]). exact Hall.
Qed.

Lemma trunk_spec (count : nat) (rand : nat -> R) (k0 : nat) :
  exists tData,
    trunk count rand k0 = Done (tData, (k0 + 5 * count)%nat)
    /\ List.length (t_formed tData) = (count * 3)%nat
    /\ List.length (t_current tData) = (count * 3)%nat
    /\ Float32.array (t_formed tData)
    /\ Float32.array (t_current tData)
    /\ (inUnit rand ->
        forall i, (i < count)%nat ->
          inShell 0.001 (fun _ => 0.1) (fun _ => 1) (block (t_formed tData) i)
          /\ (let '(px, py, pz) := block (t_current tData) i in
              -1 <= px <= 1 /\ -5 <= py <= 5 /\ -1 <= pz <= 1)).
Proof.
  unfold trunk.
  set (I := fun (m : nat) (tData : TrunkArrays) =>
              (List.length (t_formed tData) = (count * 3)%nat
               /\ List.length (t_current tData) = (count * 3)%nat)
              /\ Float32.array (t_formed tData)
              /\ Float32.array (t_current tData)
              /\ (inUnit rand ->
                  forall i, (i < m)%nat ->
                    inShell 0.001 (fun _ => 0.1) (fun _ => 1)
                      (block (t_formed tData) i)
                    /\ (let '(px, py, pz) := block (t_current tData) i in
                        -1 <= px <= 1 /\ -5 <= py <= 5 /\ -1 <= pz <= 1))).
  match goal with
  | |- context [forLoopG count _ ?s0] =>
      destruct (forLoopG_invariant I 5 trunkBody count rand s0 k0)
        as (tData & Hrun & Hlen & Haf & Hak & Hall)
  end.
  - unfold I. cbn [t_formed t_current].
    split; [unfold Float32Array; rewrite !repeat_length; tauto|].
    split; [apply Float32Array_array|]. split; [apply Float32Array_array|].
    intros _ i Hi. lia.
  - intros m tData Hm ((Hlf & Hlk) & Haf & Hak & Hall).
    unfold trunkBody. gen_step.
    eexists. split.
    { apply f_equal. apply f_equal2; [reflexivity | lia]. }
    unfold I. cbn [t_formed t_current].
    split; [rewrite !length_store3; tauto|].
    split; [now apply store3_array|]. split; [now apply store3_array|].
    intros Hrand i Hi. destruct (Nat.eq_dec i m) as [->|Hne].
    + rewrite !block_store by lia.
      set (k := (k0 + 5 * m)%nat).
      pose proof (Hrand k) as Hh.
      pose proof (Hrand (S (S k))) as H2.
      pose proof (Hrand (S (S (S k)))) as H3.
      pose proof (Hrand (S (S (S (S k))))) as H4.
      split.
      2:{ pose proof (stored_between (-1) 1 ((rand (S (S k)) - 0.5) * 2)
                        ltac:(lia) ltac:(lia) ltac:(lra)).
          pose proof (stored_between (-5) 5 ((rand (S (S (S k))) - 0.5) * 10)
                        ltac:(lia) ltac:(lia) ltac:(lra)).
          pose proof (stored_between (-1) 1 ((rand (S (S (S (S k)))) - 0.5) * 2)
                        ltac:(lia) ltac:(lia) ltac:(lra)).
          lra. }
      unfold inShell, CONFIG.treeHeight.
      set (h := rand k * 14) in *.
      assert (Hh' : 0 <= h < 14) by (subst h; lra).
      match goal with
      | |- context [Float32.fround (cos ?a * ?r)] =>
          set (rad := r); set (ang := a)
      end.
      assert (Hrad : 0.1 <= rad <= 1).
      { subst rad.
        destruct (Rlt_dec (h - 14 / 2) (- (14) / 2 + 2)) as [Hlow|Hhigh];
          split; nra. }
      pose proof (stored_axisDistance ang rad (Float32.fround (h - 14 / 2))
                    ltac:(lra)) as Hax.
      pose proof (stored_between (-7) 7 (h - 14 / 2) ltac:(lia) ltac:(lia)
                    ltac:(lra)) as Hy2.
      cbv beta iota zeta. split; lra.
    + rewrite !block_store_other by exact Hne. apply (Hall Hrand). lia.
  - exists tData. destruct Hlen as (Hlf & Hlk).
    split; [exact Hrun|]. repeat (split; [assumption|]). exact Hall.
Qed.

Lemma dust_spec (count : nat) (rand : nat -> R) (k0 : nat) :
  exists dData,
    dust count rand k0 = Done (dData, (k0 + 4 * count)%nat)
    /\ List.length (d_chaos dData) = (count * 3)%nat
    /\ List.length (d_formed dData) = (count * 3)%nat
    /\ List.length (d_current dData) = (count * 3)%nat
    /\ d_current dData = d_chaos dData
    /\ Float32.array (d_chaos dData)
    /\ (inUnit rand ->
        forall i, (i < count)%nat ->
          inBall 10.001 (block (d_chaos dData) i)
          /\ (let '(px, py, pz) := block (d_formed dData) i in
              -7 <= py <= 7
              /\ Rabs (px - cos (INR i * 0.1) * (1.5 * coneRadius py))
                 <= 0.00001
              /\ Rabs (pz - sin (INR i * 0.1) * (1.5 * coneRadius py))
                 <= 0.00001)).
Proof.
  unfold dust.
  set (I := fun (m : nat) (dData : DustArrays) =>
              (List.length (d_chaos dData) = (count * 3)%nat
               /\ List.length (d_formed dData) = (count * 3)%nat
               /\ List.length (d_current dData) = (count * 3)%nat)
              /\ d_current dData = d_chaos dData
              /\ Float32.array (d_chaos dData)
              /\ (inUnit rand ->
                  forall i, (i < m)%nat ->
                    inBall 10.001 (block (d_chaos dData) i)
                    /\ (let '(px, py, pz) := block (d_formed dData) i in
                        -7 <= py <= 7
                        /\ Rabs (px - cos (INR i * 0.1) * (1.5 * coneRadius py))
                           <= 0.00001
                        /\ Rabs (pz - sin (INR i * 0.1) * (1.5 * coneRadius py))
                           <= 0.00001))).
  match goal with
  | |- context [forLoopG count _ ?s0] =>
      destruct (forLoopG_invariant I 4 dustBody count rand s0 k0)
        as (dData & Hrun & Hlen & Hcur & Harr & Hall)
  end.
  - unfold I. cbn [d_chaos d_formed d_current].
    split; [unfold Float32Array; rewrite !repeat_length; tauto|].
    split; [reflexivity|]. split; [apply Float32Array_array|].
    intros _ i Hi. lia.
  - intros m dData Hm ((Hlc & Hlf & Hlk) & Hcur & Harr & Hall).
    unfold dustBody. gen_step.
    match goal with
    | |- context [at_ (store (store (store ?a _ ?vx) _ ?vy) _ ?vz) _] =>
        destruct (read_store a m vx vy vz ltac:(lia)) as (R1 & R2 & R3)
    end.
    cbv zeta in R1, R2, R3.
    rewrite R1. gen_step. rewrite R2. gen_step. rewrite R3. gen_step.
    eexists. split.
    { apply f_equal. apply f_equal2; [reflexivity | lia]. }
    unfold I. cbn [d_chaos d_formed d_current].
    split; [rewrite !length_store3; tauto|].
    split; [now rewrite !fround_idem, Hcur|].
    split; [now apply store3_array|].
    intros Hrand i Hi. destruct (Nat.eq_dec i m) as [->|Hne].
    + rewrite !block_store by lia.
      set (k := (k0 + 4 * m)%nat).
      split.
      { replace 10.001 with (10 + 0.001) by lra.
        apply stored_inBall; [lra|]. apply scatter_inBall; [lra | apply Hrand]. }
      unfold coneRadius, CONFIG.treeHeight, CONFIG.treeRadius.
      pose proof (Hrand (S (S (S k)))) as Hh.
      set (h := rand (S (S (S k))) * 14) in *.
      assert (Hh' : 0 <= h < 14) by (subst h; lra).
      pose proof (stored_near (h - 14 / 2) ltac:(lra)) as Hy.
      pose proof (stored_between (-7) 7 (h - 14 / 2) ltac:(lia) ltac:(lia)
                    ltac:(lra)) as Hy2.
      set (y' := Float32.fround (h - 14 / 2)) in *.
      pose proof (COS_bound (INR m * 0.1)) as Bc.
      pose proof (SIN_bound (INR m * 0.1)) as Bs.
      set (c := cos (INR m * 0.1)) in *. set (sn := sin (INR m * 0.1)) in *.
      assert (Hrad : 0 <= (1 - h / 14) * 4.5 * 1.5 <= 6.75) by nra.
      assert (Hpx : -16 <= c * ((1 - h / 14) * 4.5 * 1.5) <= 16) by nra.
      assert (Hpz : -16 <= sn * ((1 - h / 14) * 4.5 * 1.5) <= 16) by nra.
      pose proof (stored_near _ Hpx) as Nx. pose proof (stored_near _ Hpz) as Nz.
      assert (Dc : -0.000001 <= c * (y' - (h - 14 / 2)) <= 0.000001) by nra.
      assert (Ds : -0.000001 <= sn * (y' - (h - 14 / 2)) <= 0.000001) by nra.
      split; [lra|]. split; apply Rabs_le.
      * replace (c * (1.5 * ((1 - (y' + 14 / 2) / 14) * 4.5)))
          with (c * ((1 - h / 14) * 4.5 * 1.5)
                - c * (y' - (h - 14 / 2)) * (1.5 * 4.5 / 14)) by field.
        lra.
      * replace (sn * (1.5 * ((1 - (y' + 14 / 2) / 14) * 4.5)))
          with (sn * ((1 - h / 14) * 4.5 * 1.5)
                - sn * (y' - (h - 14 / 2)) * (1.5 * 4.5 / 14)) by field.
        lra.
    + rewrite !block_store_other by exact Hne. apply (Hall Hrand). lia.
  - exists dData. destruct Hlen as (Hlc & Hlf & Hlk).
    split; [exact Hrun|]. repeat (split; [assumption|]). exact Hall.
Qed.

End TreeParticles.

(** X17: the needles.  Whatever numbers in its range [Math.random]
    returns, the needle loop of the generator calls it 7 times per
    particle and never reads out of range.  Every needle starts at its
    chaos position, which is within 8 of the origin; its formed
    position is at a height from -7 to 7, both included, and at a
    distance from the axis between 0.8 times the radius of the cone
    at that height and 1.2 times that radius plus 0.5; the distances
    hold up to 0.001 for the rounding of the stores.  Its seed is the
    float32 nearest to the last number drawn for it, from 0 to 1. *)
Theorem X17_needle_particles (rand : nat -> R) (k0 : nat)
  (Hrand : Random.inUnit rand) :
  exists nData,
    TreeGenerator.needles CONFIG.particleCount rand k0
    = Done (nData, (k0 + 7 * CONFIG.particleCount)%nat)
    /\ TreeGenerator.n_current nData = TreeGenerator.n_chaos nData
    /\ forall i, (i < CONFIG.particleCount)%nat ->
         TreeGenerator.inBall 8.001 (block (TreeGenerator.n_chaos nData) i)
         /\ TreeGenerator.inShell 0.001
              (fun py => 0.8 * TreeGenerator.coneRadius py)%R
              (fun py => 1.2 * (TreeGenerator.coneRadius py + 0.5))%R
              (block (TreeGenerator.n_formed nData) i)
         /\ nth i (TreeGenerator.n_random nData) 0%R
            = Float32.fround (rand (k0 + 7 * i + 6)%nat)
         /\ (0 <= nth i (TreeGenerator.n_random nData) 0 <= 1)%R.
Proof.
  destruct (needles_spec CONFIG.particleCount rand k0)
    as (nData & Hrun & _ & _ & _ & _ & Hcur & _ & _ & Hall).
  exists nData. split; [exact Hrun|]. split; [exact Hcur|]. exact (Hall Hrand).
Qed.

(** A generator that always returns one half. *)
Lemma X17_witness :
  exists nData,
    TreeGenerator.needles CONFIG.particleCount (fun _ => 0.5%R) 0%nat
    = Done (nData, (0 + 7 * CONFIG.particleCount)%nat)
    /\ TreeGenerator.inBall 8.001 (block (TreeGenerator.n_chaos nData) 0).
Proof.
  destruct (X17_needle_particles (fun _ => 0.5%R) 0%nat)
    as (nData & Hrun & _ & Hall).
  - intros k. lra.
  - exists nData. split; [exact Hrun|].
    apply (Hall 0%nat). unfold CONFIG.particleCount. lia.
Defined.

(** X18: the trunk.  Whatever numbers in its range [Math.random]
    returns, the trunk loop calls it 5 times per particle; every
    formed position is at a height from -7 to 7, both included, and
    between 0.1 and 1 from the axis, up to 0.001 for the rounding of
    the stores, and every start position is inside the closed box of
    half-widths 1, 5 and 1 around the origin. *)
Theorem X18_trunk_particles (rand : nat -> R) (k0 : nat)
  (Hrand : Random.inUnit rand) :
  exists tData,
    TreeGenerator.trunk CONFIG.trunkCount rand k0
    = Done (tData, (k0 + 5 * CONFIG.trunkCount)%nat)
    /\ forall i, (i < CONFIG.trunkCount)%nat ->
         TreeGenerator.inShell 0.001 (fun _ => 0.1%R) (fun _ => 1%R)
           (block (TreeGenerator.t_formed tData) i)
         /\ (let '(px, py, pz) := block (TreeGenerator.t_current tData) i in
             -1 <= px <= 1 /\ -5 <= py <= 5 /\ -1 <= pz <= 1)%R.
Proof.
  destruct (trunk_spec CONFIG.trunkCount rand k0)
    as (tData & Hrun & _ & _ & _ & _ & Hall).
  exists tData. split; [exact Hrun|]. exact (Hall Hrand).
Qed.

(** A generator that always returns one half. *)
Lemma X18_witness :
  exists tData,
    TreeGenerator.trunk CONFIG.trunkCount (fun _ => 0.5%R) 0%nat
    = Done (tData, (0 + 5 * CONFIG.trunkCount)%nat)
    /\ TreeGenerator.inShell 0.001 (fun _ => 0.1%R) (fun _ => 1%R)
         (block (TreeGenerator.t_formed tData) 0).
Proof.
  destruct (X18_trunk_particles (fun _ => 0.5%R) 0%nat)
    as (tData & Hrun & Hall).
  - intros k. lra.
  - exists tData. split; [exact Hrun|].
    apply (Hall 0%nat). unfold CONFIG.trunkCount. lia.
Defined.

(** X19: the gold dust.  Whatever numbers in its range [Math.random]
    returns, the dust loop calls it 4 times per particle and never
    reads out of range.  Every particle starts at its chaos position,
    which is within 10 of the origin, up to 0.001 for the rounding of
    the stores; its formed position is at a height from -7 to 7, both
    included, and within 0.00001 on x and z of the point at the angle
    [0.1 i] around the axis at 1.5 times the radius of the cone at
    that height. *)
Theorem X19_dust_particles (rand : nat -> R) (k0 : nat)
  (Hrand : Random.inUnit rand) :
  exists dData,
    TreeGenerator.dust Tree.dustCount rand k0
    = Done (dData, (k0 + 4 * Tree.dustCount)%nat)
    /\ TreeGenerator.d_current dData = TreeGenerator.d_chaos dData
    /\ forall i, (i < Tree.dustCount)%nat ->
         TreeGenerator.inBall 10.001 (block (TreeGenerator.d_chaos dData) i)
         /\ (let '(px, py, pz) := block (TreeGenerator.d_formed dData) i in
             -7 <= py <= 7
             /\ Rabs (px - cos (INR i * 0.1)
                           * (1.5 * TreeGenerator.coneRadius py)) <= 0.00001
             /\ Rabs (pz - sin (INR i * 0.1)
                           * (1.5 * TreeGenerator.coneRadius py)) <= 0.00001)%R.
Proof.
  destruct (dust_spec Tree.dustCount rand k0)
    as (dData & Hrun & _ & _ & _ & Hcur & _ & Hall).
  exists dData. split; [exact Hrun|]. split; [exact Hcur|]. exact (Hall Hrand).
Qed.

(** A generator that always returns one half. *)
Lemma X19_witness :
  exists dData,
    TreeGenerator.dust Tree.dustCount (fun _ => 0.5%R) 0%nat
    = Done (dData, (0 + 4 * Tree.dustCount)%nat)
    /\ TreeGenerator.inBall 10.001 (block (TreeGenerator.d_chaos dData) 0).
Proof.
  destruct (X19_dust_particles (fun _ => 0.5%R) 0%nat)
    as (dData & Hrun & _ & Hall).
  - intros k. lra.
  - exists dData. split; [exact Hrun|].
    apply (Hall 0%nat). unfold Tree.dustCount. lia.
Defined.

Section GeneratedTicks.
Import Random Random_loops TreeGenerator.
Local Open Scope R_scope.

Lemma bindG_Done {A B : Type} (m : Gen A) (f : A -> Gen B)
  (rand : nat -> R) (k k' : nat) (a : A) :
  m rand k = Done (a, k') -> bindG m f rand k = f a rand k'.
Proof. intros H. unfold bindG. now rewrite H. Qed.

(** A dust tick in CHAOS towards the positions the particles are
    already at leaves the buffer as it is. *)
Lemma dust_at_rest (t : R) (d : Tree.DustData) (positions : list R) :
  List.length positions = (Tree.dustCount * 3)%nat ->
  Float32.array positions ->
  Tree.dust_chaos d = positions ->
  Tree.updateDust CHAOS t d positions = Done positions.
Proof.
  intros Hlen Harr Hd. unfold Tree.updateDust.
  destruct (@dustLoop_spec Tree.dustCount CHAOS t d positions)
    as (p' & Hrun & Hlen' & Hnew).
  - unfold Engine.dustTargets. cbn [Mode_eqb]. rewrite Hd. lia.
  - lia.
  - rewrite Hrun. f_equal. apply (nth_ext _ _ 0 0); [exact Hlen'|].
    rewrite Hlen', Hlen.
    apply (@flat_index Tree.dustCount (fun j => nth j p' 0 = nth j positions 0)).
    intros i k Hi Hk. rewrite (Hnew i k Hi Hk). cbn [Mode_eqb]. rewrite Hd.
    rewrite <- (Harr (i * 3 + k)%nat) at 3. f_equal.
    unfold MathUtils.lerp. ring.
Qed.

End GeneratedTicks.

(** X20: the generated arrays fit the frame loops.  Whatever
    [Math.random] returns, the generator of the tree never reads out
    of range and calls it 318000 times (7 per needle, then 5 per trunk
    particle, then 4 per dust particle); run on the arrays it returns,
    in any sequence of modes and clock values and for any number of
    frames, the three update loops never read out of range; and as
    long as the mode is CHAOS the gold dust stays exactly where the
    generator put it. *)
Theorem X20_generated_data_fits_frame_loops (rand : nat -> R) (k0 : nat) :
  exists nData tData dData,
    TreeGenerator.generate rand k0
    = Done ((nData, tData, dData), (k0 + Z.to_nat 318000)%nat)
    /\ (forall (modes : nat -> Mode) (times : nat -> R) (m : nat),
          (exists p,
              Engine.ticks
                (fun j => Tree.updateNeedles (modes j) (times j)
                            (TreeGenerator.needleData nData))
                m (TreeGenerator.n_current nData) = Done p)
          /\ (exists p,
                Engine.ticks
                  (fun j => Tree.updateTrunk (modes j)
                              (TreeGenerator.trunkData tData))
                  m (TreeGenerator.t_current tData) = Done p)
          /\ (exists p,
                Engine.ticks
                  (fun j => Tree.updateDust (modes j) (times j)
                              (TreeGenerator.dustData dData))
                  m (TreeGenerator.d_current dData) = Done p))
    /\ (forall (times : nat -> R) (m : nat),
          Engine.ticks
            (fun j => Tree.updateDust CHAOS (times j)
                        (TreeGenerator.dustData dData))
            m (TreeGenerator.d_current dData)
          = Done (TreeGenerator.d_current dData)).
Proof.
  destruct (needles_spec CONFIG.particleCount rand k0)
    as (nData & Hn & Hnc & Hnf & Hnk & _ & _ & _).
  destruct (trunk_spec CONFIG.trunkCount rand (k0 + 7 * CONFIG.particleCount))
    as (tData & Ht & Htf & Htk & _).
  destruct (dust_spec Tree.dustCount rand
              (k0 + 7 * CONFIG.particleCount + 5 * CONFIG.trunkCount))
    as (dData & Hd & Hdc & Hdf & Hdk & Hdcur & Hdarr & _).
  exists nData, tData, dData. split; [|split].
  - unfold TreeGenerator.generate.
    rewrite (bindG_Done _ _ _ _ _ _ Hn), (bindG_Done _ _ _ _ _ _ Ht),
      (bindG_Done _ _ _ _ _ _ Hd).
    unfold Random.ret. do 2 f_equal.
    unfold CONFIG.particleCount, CONFIG.trunkCount, Tree.dustCount. lia.
  - intros modes times m. split; [|split].
    + destruct (@ticks_length
                  (fun j => Tree.updateNeedles (modes j) (times j)
                              (TreeGenerator.needleData nData))
                  (CONFIG.particleCount * 3)) with (m := m)
                  (p0 := TreeGenerator.n_current nData)
        as (p & Hp & _); [|exact Hnk|now exists p].
      intros j p Hp. unfold Tree.updateNeedles.
      destruct (@needleLoop_spec CONFIG.particleCount (modes j) (times j)
                  (TreeGenerator.needleData nData) p)
        as (p' & Hp' & Hlen' & _).
      * unfold Engine.needleTargets, TreeGenerator.needleData.
        cbn [Tree.needle_formed Tree.needle_chaos].
        destruct (Mode_eqb (modes j) FORMED); lia.
      * lia.
      * exists p'. split; [exact Hp' | lia].
    + destruct (@ticks_length
                  (fun j => Tree.updateTrunk (modes j)
                              (TreeGenerator.trunkData tData))
                  (CONFIG.trunkCount * 3)) with (m := m)
                  (p0 := TreeGenerator.t_current tData)
        as (p & Hp & _); [|exact Htk|now exists p].
      intros j p Hp. unfold Tree.updateTrunk.
      destruct (@trunkLoop_spec CONFIG.trunkCount (modes j)
                  (TreeGenerator.trunkData tData) p)
        as (p' & Hp' & Hlen' & _).
      * unfold TreeGenerator.trunkData. cbn [Tree.trunk_formed]. lia.
      * lia.
      * exists p'. split; [exact Hp' | lia].
    + destruct (@ticks_length
                  (fun j => Tree.updateDust (modes j) (times j)
                              (TreeGenerator.dustData dData))
                  (Tree.dustCount * 3)) with (m := m)
                  (p0 := TreeGenerator.d_current dData)
        as (p & Hp & _); [|exact Hdk|now exists p].
      intros j p Hp. unfold Tree.updateDust.
      destruct (@dustLoop_spec Tree.dustCount (modes j) (times j)
                  (TreeGenerator.dustData dData) p)
        as (p' & Hp' & Hlen' & _).
      * unfold Engine.dustTargets, TreeGenerator.dustData.
        cbn [Tree.dust_formed Tree.dust_chaos].
        destruct (Mode_eqb (modes j) FORMED); lia.
      * lia.
      * exists p'. split; [exact Hp' | lia].
  - intros times m. induction m as [|m IH]; [reflexivity|].
    cbn [Engine.ticks]. rewrite IH. cbn [bind].
    apply dust_at_rest; [exact Hdk | now rewrite Hdcur |].
    unfold TreeGenerator.dustData. cbn [Tree.dust_chaos]. now rewrite Hdcur.
Qed.

(** ** The properties above at sample inputs *)

(** Two photos uploaded into the initial application. *)
Lemma X1_witness :
  let sys := {| Scene.scene := Scene.initialState;
                Scene.refs := HandController.initialRefs;
                Scene.photos := ["a.jpg"; "b.jpg"]%string |} in
  Scene.reachable sys
  /\ exists url,
       Scene.overlayPhotoUrl (Scene.scene sys) (Scene.photos sys)
       = Done (Some url).
Proof.
  intros sys.
  assert (Hreach : Scene.reachable sys).
  { apply Scene.reachable_step
      with (sys := Scene.initialSystem)
           (e := Scene.Upload ["a.jpg"; "b.jpg"]%string);
      [apply Scene.reachable_initial | reflexivity]. }
  split; [exact Hreach|].
  destruct (proj2 (X1_slideshow_index_in_range sys Hreach)) as (url & Hurl & _).
  - discriminate.
  - now exists url.
Defined.

(** Three photos, the first one shown. *)
Lemma X2_witness :
  (0 < 3)%Z
  /\ (0 <= Scene.slideshowIndex Scene.initialState < 3)%Z
  /\ (mid <- Scene.handleSwipe true 3 Direction.left Scene.initialState ;;
      Scene.handleSwipe true 3 Direction.right mid) = Done Scene.initialState.
Proof.
  assert (Hn : (0 < 3)%Z) by lia.
  assert (Hidx : (0 <= Scene.slideshowIndex Scene.initialState < 3)%Z)
    by (cbn; lia).
  split; [exact Hn|]. split; [exact Hidx|].
  exact (proj2 (X2_swipe_round_trip 3 Scene.initialState Hn Hidx)).
Defined.

(** Three photos with the overlay open: three ticks of the interval
    come back to the first photo. *)
Lemma X3_witness :
  let sys := {| Scene.scene := Scene.with_focusMode true Scene.initialState;
                Scene.refs := HandController.initialRefs;
                Scene.photos := ["a.jpg"; "b.jpg"; "c.jpg"]%string |} in
  Scene.focusMode (Scene.scene sys) = true
  /\ (0 <= Scene.slideshowIndex (Scene.scene sys)
      < Scene.len (Scene.photos sys))%Z
  /\ View.run sys (repeat Scene.IntervalTick 3) = Done sys.
Proof.
  intros sys.
  assert (Hidx : (0 <= Scene.slideshowIndex (Scene.scene sys)
                  < Scene.len (Scene.photos sys))%Z) by (cbn; lia).
  split; [reflexivity|]. split; [exact Hidx|].
  pose proof (X3_interval_cycles sys eq_refl Hidx) as H.
  cbv zeta in H. exact (proj1 (proj2 H)).
Defined.

(** A fist in front of the camera. *)
Lemma X4_witness :
  Gesture.hand (Samples.frame Samples.fist 1000) Samples.fist
  /\ exists refs' calls,
       HandController.useFrame true HandController.initialRefs
         (Samples.frame Samples.fist 1000) = Done (refs', calls).
Proof.
  pose proof (sample_hand 0.5 0.8 0.8 0.8 0.8 1000) as Hhand.
  split; [exact Hhand|].
  destruct (X4_frame_calls_in_order true HandController.initialRefs
              (Samples.frame Samples.fist 1000) Samples.fist Hhand)
    as (refs' & focusPart & swipePart & Hrun & _).
  eexists. eexists. exact Hrun.
Defined.

(** Two victory frames 100 ms apart, the hand moving to the right. *)
Lemma X5_witness :
  let ds := [Samples.frame (Samples.victory 0.5) 1000;
             Samples.frame (Samples.victory 0.6) 1100] in
  Forall (fun d => exists landmarks, Gesture.hand d landmarks) ds
  /\ exists refs' outs,
       Gesture.frames true HandController.initialRefs ds = Done (refs', outs)
       /\ List.length outs = 2%nat.
Proof.
  intros ds.
  assert (Hall : Forall (fun d => exists landmarks, Gesture.hand d landmarks) ds).
  { repeat constructor.
    - exists (Samples.victory 0.5). apply (sample_hand 0.5 0.2 0.2 0.8 0.8 1000).
    - exists (Samples.victory 0.6). apply (sample_hand 0.6 0.2 0.2 0.8 0.8 1100). }
  split; [exact Hall|].
  destruct (X5_swipe_cooldown true HandController.initialRefs ds Hall)
    as (refs' & outs & Hrun & Hlen & _).
  exists refs', outs. split; [exact Hrun | exact Hlen].
Defined.

(** A frame in which no hand was detected. *)
Lemma X6_witness :
  let d := {| HandController.result_landmarks := [];
              HandController.nowVictory := 1000;
              HandController.nowSwipe := 1000 |} in
  View.hasHand d = false
  /\ Scene.step Scene.initialSystem (Scene.Frame d) = Done Scene.initialSystem.
Proof.
  intros d. split; [reflexivity|].
  exact (proj1 X6_frames_without_hand_are_skipped Scene.initialSystem d eq_refl).
Defined.

(** A fist held at the centre of the picture. *)
Lemma X7_witness :
  Gesture.hand (Samples.frame Samples.fist 1000) Samples.fist
  /\ View.normalised Samples.fist
  /\ exists sys',
       Scene.step Scene.initialSystem (Scene.Frame (Samples.frame Samples.fist 1000))
       = Done sys'
       /\ (-0.05 <= Scene.rotation (Scene.scene sys') <= 0.05)%Q.
Proof.
  pose proof (sample_hand 0.5 0.8 0.8 0.8 0.8 1000) as Hhand.
  assert (Hnorm : View.normalised Samples.fist).
  { unfold View.normalised. cbn. lra. }
  split; [exact Hhand|]. split; [exact Hnorm|].
  destruct (X7_rotation_bounds Scene.initialSystem
              (Samples.frame Samples.fist 1000) Samples.fist Hhand Hnorm)
    as (sys' & Hstep & Hrot & _).
  exists sys'. split; [exact Hstep | exact Hrot].
Defined.

(** One frame with a fist at the centre, the camera at its start
    distance. *)
Lemma X8_witness :
  let ds := [Samples.frame Samples.fist 1000] in
  Forall (fun d => exists landmarks,
            Gesture.hand d landmarks /\ View.normalised landmarks) ds
  /\ exists refs' outs z',
       Gesture.frames true HandController.initialRefs ds = Done (refs', outs)
       /\ View.zoomFrames (Some View.initialCameraZ) outs = Some z'
       /\ (8 <= z' <= 28)%Q.
Proof.
  intros ds.
  assert (Hall : Forall (fun d => exists landmarks,
                           Gesture.hand d landmarks /\ View.normalised landmarks)
                   ds).
  { repeat constructor. exists Samples.fist. split.
    - apply (sample_hand 0.5 0.8 0.8 0.8 0.8 1000).
    - unfold View.normalised. cbn. lra. }
  split; [exact Hall|].
  destruct (X8_camera_zoom_bounds true ds Hall HandController.initialRefs)
    as (refs' & outs & Hrun & _ & Hzoom).
  destruct (Hzoom View.initialCameraZ) as (z' & Hz & Hb).
  - unfold View.initialCameraZ. lra.
  - exists refs', outs, z'. split; [exact Hrun|]. split; [exact Hz | exact Hb].
Defined.

(** The first victory sign, one second after start-up. *)
Lemma X9_witness :
  Gesture.hand (Samples.frame (Samples.victory 0.5) 1000) (Samples.victory 0.5)
  /\ Gesture.victoryPose (Samples.victory 0.5)
  /\ exists sys',
       Scene.step Scene.initialSystem
         (Scene.Frame (Samples.frame (Samples.victory 0.5) 1000)) = Done sys'
       /\ Scene.focusMode (Scene.scene sys') = true.
Proof.
  pose proof (sample_hand 0.5 0.2 0.2 0.8 0.8 1000) as Hhand.
  pose proof (sample_victory 0.5) as Hpose.
  split; [exact Hhand|]. split; [exact Hpose|].
  destruct (X9_victory_opens_focus Scene.initialSystem
              (Samples.frame (Samples.victory 0.5) 1000) (Samples.victory 0.5)
              Hhand Hpose eq_refl)
    as (sys' & Hstep & _ & Hfocus & _).
  exists sys'. split; [exact Hstep | exact Hfocus].
Defined.

(** Closing the overlay opened by a victory sign. *)
Lemma X10_witness :
  Scene.focusMode (Scene.scene Samples.focused) = true
  /\ exists sys',
       Scene.step Samples.focused Scene.Close = Done sys'
       /\ Scene.focusMode (Scene.scene sys') = false
       /\ (Scene.Close = Scene.Close
           \/ exists d landmarks,
                Scene.Close = Scene.Frame d /\ Gesture.hand d landmarks
                /\ (Gesture.extendedFingers landmarks < 2)%nat).
Proof.
  split; [reflexivity|]. eexists. split; [reflexivity|].
  split; [reflexivity|].
  exact (X10_focus_cleared_only_by_fist_or_close Samples.focused _ Scene.Close
           eq_refl eq_refl eq_refl).
Defined.

(** The overlay at full size when the focus closes. *)
Lemma X11_witness :
  (0 <= 1 <= 1)%Q
  /\ View.overlayHidden false
       (Some (Nat.iter 44 (View.overlayScale false) 1)) = true.
Proof.
  assert (Hs : (0 <= 1 <= 1)%Q) by lra.
  split; [exact Hs|].
  exact (proj1 (proj2 (proj2 (proj2 (X11_overlay_scale 1 Hs)))) 44%nat
           (le_n 44)).
Defined.

(** A single uploaded photo: all twelve ornaments show it. *)
Lemma X12_witness :
  ["a.jpg"%string] <> []
  /\ exists ornaments,
       Tree.photoOrnaments ["a.jpg"%string] = Done ornaments
       /\ List.length ornaments = 12%nat.
Proof.
  assert (Hne : ["a.jpg"%string] <> []) by discriminate.
  split; [exact Hne|].
  destruct (X12_photo_ornaments ["a.jpg"%string] Hne)
    as (ornaments & urls & Hrun & _ & Hlen & _).
  exists ornaments. split; [exact Hrun | exact Hlen].
Defined.

(** ** The instance transforms of the ornaments *)

Section InstanceTransforms.
Import Atmosphere AtmosphereFrame.
Local Open Scope R_scope.

(** The [rotations] array after the loop body ran for instance [i]. *)
Lemma advanced_rotations (isLight : bool) (rots speeds : list R) (i : nat) :
  (i * 3 + 2 < List.length rots)%nat ->
  let rots' :=
    if isLight then rots
    else store (store rots (i * 3)
                  (Float32.fround (nth (i * 3) rots 0 + nth (i * 3) speeds 0)))
           (i * 3 + 1)
           (Float32.fround (nth (i * 3 + 1) rots 0 + nth (i * 3 + 1) speeds 0)) in
  List.length rots' = List.length rots
  /\ (forall k, (k < 3)%nat ->
        nth (i * 3 + k) rots' 0
        = if isLight then nth (i * 3 + k) rots 0
          else match k with
               | 2%nat => nth (i * 3 + k) rots 0
               | _ => Float32.fround
                        (nth (i * 3 + k) rots 0 + nth (i * 3 + k) speeds 0)
               end)
  /\ (forall j, (j < i * 3 \/ i * 3 + 3 <= j)%nat -> nth j rots' 0 = nth j rots 0).
Proof.
  intros Hlen rots'. subst rots'. destruct isLight.
  - split; [reflexivity|]. split; [intros k _; reflexivity | reflexivity].
  - split; [now rewrite !store_length|]. split.
    + intros k Hk. destruct k as [|[|[|k]]]; [| | |lia]; rewrite ?Nat.add_0_r.
      * rewrite store_nth_other by lia. now rewrite store_nth_same by lia.
      * now rewrite store_nth_same by (rewrite store_length; lia).
      * now rewrite !store_nth_other by lia.
    + intros j Hj. now rewrite !store_nth_other by lia.
Qed.

Lemma instanceBody_spec (isFormed : bool) (time : R) (fx : Fixed)
  (config : InstanceConfig) (isLight : bool) (s : Frame) (i : nat) :
  (i * 3 + 2 < List.length (formed (data fx)))%nat ->
  (i * 3 + 2 < List.length (chaos (data fx)))%nat ->
  (i * 3 + 2 < List.length (current s))%nat ->
  (i * 3 + 2 < List.length (rotations s))%nat ->
  (i * 3 + 2 < List.length (rotationSpeeds fx))%nat ->
  (i < List.length (scales fx))%nat ->
  exists c',
    animateBody isFormed (data fx) config (current s) i = Done c'
    /\ List.length c' = List.length (current s)
    /\ (forall j, (j < i * 3 \/ i * 3 + 3 <= j)%nat ->
          nth j c' 0 = nth j (current s) 0)
    /\ let rots' :=
         if isLight then rotations s
         else store (store (rotations s) (i * 3)
                       (Float32.fround
                          (nth (i * 3) (rotations s) 0
                           + nth (i * 3) (rotationSpeeds fx) 0)))
                (i * 3 + 1)
                (Float32.fround
                   (nth (i * 3 + 1) (rotations s) 0
                    + nth (i * 3 + 1) (rotationSpeeds fx) 0)) in
       let obj :=
         {| position := (let '(cx, cy, cz) := block c' i in
                         (cx, cy + hover isLight time i, cz));
            rotation := if isLight then rotation (tempObj s) else block rots' i;
            scale := setScalar
                       (if isLight
                        then size config * (0.8 + sin (time * 5 + INR i) * 0.3)
                        else nth i (scales fx) 0 * size config) |} in
       instanceBody isFormed time fx config isLight s i
       = Done {| current := c'; rotations := rots'; tempObj := obj;
                 matrices := store (matrices s) i obj |}.
Proof.
  intros Hf Hc Hk Hr Hs Hsc.
  assert (Hanim : exists target,
             animateBody isFormed (data fx) config (current s) i
             = blend3 (current s) i target (weight config)).
  { unfold animateBody. destruct isFormed;
      rewrite !(@at_nth _ _ _ 0) by lia; cbn [bind]; eexists; reflexivity. }
  destruct Hanim as (target & Hanim).
  destruct (blend3_spec (current s) i target (weight config) Hk)
    as (c' & Hb & Hlen & _ & Hold).
  exists c'. split; [now rewrite Hanim|]. split; [exact Hlen|].
  split; [exact Hold|]. cbv zeta.
  unfold instanceBody, Float32.write. rewrite Hanim, Hb. cbn [bind].
  rewrite !(@at_nth _ c' _ 0) by lia. cbn [bind].
  rewrite (@at_nth _ (scales fx) _ 0) by lia.
  destruct isLight; cbn [negb bind fst snd]; unfold block.
  - reflexivity.
  - rewrite !(@at_nth _ (rotations s) _ 0) by lia.
    rewrite !(@at_nth _ (rotationSpeeds fx) _ 0) by lia. cbn [bind].
    rewrite (@at_nth _ (store (rotations s) _ _) (i * 3 + 1) 0)
      by (rewrite store_length; lia).
    cbn [bind].
    rewrite !(@at_nth _ (store (store (rotations s) _ _) _ _) _ 0)
      by (rewrite !store_length; lia).
    cbn [bind fst snd].
    rewrite (store_nth_other (rotations s) (i:=i * 3) (j:=i * 3 + 1)) by lia.
    reflexivity.
Qed.

(** One run of [animateGroup] over a group whose arrays have the
    right sizes. *)
Lemma animateGroup_frame (mode : Mode) (time : R) (fx : Fixed)
  (config : InstanceConfig) (isLight : bool) (s : Frame) :
  fits config fx s ->
  exists s',
    AtmosphereFrame.animateGroup mode time fx config isLight s = Done s'
    /\ Atmosphere.animateGroup mode (data fx) config (current s)
       = Done (current s')
    /\ fits config fx s'
    /\ (forall i k, (i < count config)%nat -> (k < 3)%nat ->
          nth (i * 3 + k) (rotations s') 0
          = if isLight then nth (i * 3 + k) (rotations s) 0
            else match k with
                 | 2%nat => nth (i * 3 + k) (rotations s) 0
                 | _ => Float32.fround
                          (nth (i * 3 + k) (rotations s) 0
                           + nth (i * 3 + k) (rotationSpeeds fx) 0)
                 end)
    /\ (forall i, (i < count config)%nat ->
          nth i (matrices s') newObject3D
          = {| position := (let '(cx, cy, cz) := block (current s') i in
                            (cx, cy + hover isLight time i, cz));
               rotation := if isLight then rotation (tempObj s)
                           else block (rotations s') i;
               scale := setScalar
                          (if isLight
                           then size config
                                * (0.8 + sin (time * 5 + INR i) * 0.3)
                           else nth i (scales fx) 0 * size config) |})
    /\ ((0 < count config)%nat ->
        tempObj s' = nth (count config - 1) (matrices s') newObject3D).
Proof.
  intros (Hlf & Hlc & Hls & Hla & Hlk & Hlr & Hlm).
  unfold AtmosphereFrame.animateGroup, Atmosphere.animateGroup, forLoop.
  set (isFormed := Mode_eqb mode FORMED).
  set (body := instanceBody isFormed time fx config isLight).
  set (old := animateBody isFormed (data fx) config).
  assert (Hprefix : forall m, (m <= count config)%nat ->
    exists sm,
      forEach body (seq 0 m) s = Done sm
      /\ forEach old (seq 0 m) (current s) = Done (current sm)
      /\ List.length (current sm) = List.length (current s)
      /\ List.length (rotations sm) = List.length (rotations s)
      /\ List.length (matrices sm) = List.length (matrices s)
      /\ (forall i k, (i < m)%nat -> (k < 3)%nat ->
            nth (i * 3 + k) (rotations sm) 0
            = if isLight then nth (i * 3 + k) (rotations s) 0
              else match k with
                   | 2%nat => nth (i * 3 + k) (rotations s) 0
                   | _ => Float32.fround
                            (nth (i * 3 + k) (rotations s) 0
                             + nth (i * 3 + k) (rotationSpeeds fx) 0)
                   end)
      /\ (forall j, (m * 3 <= j)%nat ->
            nth j (rotations sm) 0 = nth j (rotations s) 0)
      /\ (forall i, (i < m)%nat ->
            nth i (matrices sm) newObject3D
            = {| position := (let '(cx, cy, cz) := block (current sm) i in
                              (cx, cy + hover isLight time i, cz));
                 rotation := if isLight then rotation (tempObj s)
                             else block (rotations sm) i;
                 scale := setScalar
                            (if isLight
                             then size config
                                  * (0.8 + sin (time * 5 + INR i) * 0.3)
                             else nth i (scales fx) 0 * size config) |})
      /\ rotation (tempObj sm)
         = (if isLight then rotation (tempObj s)
            else match m with
                 | O => rotation (tempObj s)
                 | S m' => block (rotations sm) m'
                 end)
      /\ ((0 < m)%nat -> tempObj sm = nth (m - 1) (matrices sm) newObject3D)).
  { induction m as [|m IH]; intros Hm.
    - exists s. repeat split; try reflexivity; try (intros; lia).
      now destruct isLight.
    - destruct IH as (sm & Hrun & Hold & Hck & Hcr & Hcm & Hrot & Hrest
                      & Hmat & Htemp & _); [lia|].
      destruct (instanceBody_spec isFormed time fx config isLight sm m)
        as (c' & Hanim & Hlen' & Hsame & Hbody); try lia.
      cbv zeta in Hbody.
      destruct (advanced_rotations isLight (rotations sm) (rotationSpeeds fx) m
                  ltac:(lia)) as (Hrl & Hrnew & Hrold).
      cbv zeta in Hrl, Hrnew, Hrold.
      set (rots' := if isLight then rotations sm
                    else store (store (rotations sm) (m * 3)
                                  (Float32.fround
                                     (nth (m * 3) (rotations sm) 0
                                      + nth (m * 3) (rotationSpeeds fx) 0)))
                           (m * 3 + 1)
                           (Float32.fround
                              (nth (m * 3 + 1) (rotations sm) 0
                               + nth (m * 3 + 1) (rotationSpeeds fx) 0))) in *.
      rewrite Htemp in Hbody.
      assert (Hrot0 : (if isLight
                       then if isLight then rotation (tempObj s)
                            else match m with
                                 | O => rotation (tempObj s)
                                 | S m' => block (rotations sm) m'
                                 end
                       else block rots' m)
                      = (if isLight then rotation (tempObj s) else block rots' m))
        by now destruct isLight.
      rewrite Hrot0 in Hbody.
      eexists. split.
      { rewrite seq_S, forEach_app, Hrun. cbn [bind forEach Nat.add].
        fold body in Hbody. rewrite Hbody. reflexivity. }
      cbn [current rotations tempObj matrices].
      split.
      { rewrite seq_S, forEach_app, Hold. cbn [bind forEach Nat.add].
        fold old in Hanim. now rewrite Hanim. }
      split; [lia|]. split; [lia|].
      split; [rewrite store_length; lia|].
      split.
      { intros i k Hi Hk. destruct (Nat.eq_dec i m) as [->|Hne].
        - rewrite (Hrnew k Hk). now rewrite Hrest by lia.
        - rewrite Hrold by lia. apply Hrot; lia. }
      split.
      { intros j Hj. rewrite Hrold by lia. apply Hrest. lia. }
      split.
      { intros i Hi. destruct (Nat.eq_dec i m) as [->|Hne].
        - now rewrite store_nth_same by lia.
        - rewrite store_nth_other by congruence. rewrite Hmat by lia.
          assert (Hbc : block c' i = block (current sm) i).
          { unfold block. now rewrite !Hsame by lia. }
          assert (Hbr : block rots' i = block (rotations sm) i).
          { unfold block. now rewrite !Hrold by lia. }
          now rewrite Hbc, Hbr. }
      split.
      { cbn [rotation]. reflexivity. }
      intros _. replace (S m - 1)%nat with m by lia.
      now rewrite store_nth_same by lia. }
  destruct (Hprefix (count config) (Nat.le_refl _))
    as (s' & Hrun & Hold & Hck & Hcr & Hcm & Hrot & _ & Hmat & _ & Htemp).
  exists s'. split; [exact Hrun|]. split; [exact Hold|].
  split; [unfold fits; repeat split; lia|].
  split; [exact Hrot|]. split; [exact Hmat | exact Htemp].
Qed.

End InstanceTransforms.

Section SharedObject.
Import Atmosphere AtmosphereFrame.
Local Open Scope R_scope.

Lemma fits_withTemp (config : InstanceConfig) (fx : Fixed) (obj : Object3D)
  (s : Frame) :
  fits config fx s -> fits config fx (withTemp obj s).
Proof. intros H. exact H. Qed.

Lemma fits_resting (config : InstanceConfig) :
  fits config (fst (restingGroup (count config)))
    (snd (restingGroup (count config))).
Proof.
  unfold fits, restingGroup.
  cbn [fst snd data formed chaos rotationSpeeds scales current rotations matrices].
  rewrite !repeat_length. tauto.
Qed.

End SharedObject.

(** X21: the gifts and the balls.  One run of [animateGroup] over a
    group of gifts or balls whose arrays have the sizes the generator
    gives them never reads out of range and keeps the sizes; it moves
    the positions exactly as the position part of the loop does; the
    transform stored for instance [i] has the new position raised by a
    hover of at most 0.01, up to rounding, the instance's three angles,
    and the scale [scales[i] * size] on all axes; the first two angles
    of every instance have become the float32 nearest to the angle
    plus its speed, and the third has not changed. *)
Theorem X21_ornament_transforms (mode : Mode) (time : R)
  (groupData : AtmosphereFrame.Fixed) (config : Atmosphere.InstanceConfig)
  (s : AtmosphereFrame.Frame)
  (Hfits : AtmosphereFrame.fits config groupData s) :
  exists s',
    AtmosphereFrame.animateGroup mode time groupData config false s = Done s'
    /\ Atmosphere.animateGroup mode (AtmosphereFrame.data groupData) config
         (AtmosphereFrame.current s)
       = Done (AtmosphereFrame.current s')
    /\ AtmosphereFrame.fits config groupData s'
    /\ forall i, (i < Atmosphere.count config)%nat ->
         let m := nth i (AtmosphereFrame.matrices s')
                    AtmosphereFrame.newObject3D in
         let '(cx, cy, cz) := block (AtmosphereFrame.current s') i in
         let '(r0, r1, r2) := block (AtmosphereFrame.rotations s) i in
         let '(v0, v1, _) := block (AtmosphereFrame.rotationSpeeds groupData) i in
         (exists h, AtmosphereFrame.position m = (cx, cy + h, cz)
                    /\ -0.010001 <= h <= 0.010001)%R
         /\ AtmosphereFrame.rotation m
            = (Float32.fround (r0 + v0), Float32.fround (r1 + v1), r2)
         /\ block (AtmosphereFrame.rotations s') i
            = (Float32.fround (r0 + v0), Float32.fround (r1 + v1), r2)
         /\ AtmosphereFrame.scale m
            = AtmosphereFrame.setScalar
                (nth i (AtmosphereFrame.scales groupData) 0
                 * Atmosphere.size config)%R.
Proof.
  destruct (animateGroup_frame mode time groupData config false s Hfits)
    as (s' & Hrun & Hold & Hfits' & Hrot & Hmat & _).
  exists s'. split; [exact Hrun|]. split; [exact Hold|]. split; [exact Hfits'|].
  intros i Hi. cbv zeta. rewrite (Hmat i Hi).
  assert (Hblock : block (AtmosphereFrame.rotations s') i
                   = (Float32.fround
                        (nth (i * 3) (AtmosphereFrame.rotations s) 0
                         + nth (i * 3)
                             (AtmosphereFrame.rotationSpeeds groupData) 0),
                      Float32.fround
                        (nth (i * 3 + 1) (AtmosphereFrame.rotations s) 0
                         + nth (i * 3 + 1)
                             (AtmosphereFrame.rotationSpeeds groupData) 0),
                      nth (i * 3 + 2) (AtmosphereFrame.rotations s) 0)%R).
  { unfold block.
    pose proof (Hrot i 0%nat Hi ltac:(lia)) as H0.
    pose proof (Hrot i 1%nat Hi ltac:(lia)) as H1.
    pose proof (Hrot i 2%nat Hi ltac:(lia)) as H2.
    rewrite Nat.add_0_r in H0. now rewrite H0, H1, H2. }
  unfold block in *.
  cbn [AtmosphereFrame.position AtmosphereFrame.rotation AtmosphereFrame.scale].
  split; [|split; [exact Hblock | split; [exact Hblock | reflexivity]]].
  eexists. split; [reflexivity|].
  unfold AtmosphereFrame.hover.
  pose proof (SIN_bound (time * 2 + INR i)) as Hsin. lra.
Qed.

(** The 45 gifts, all resting at the origin and turning by [2^-7] per
    frame. *)
Lemma X21_witness :
  AtmosphereFrame.fits Atmosphere.gifts
    (fst (AtmosphereFrame.restingGroup 45)) (snd (AtmosphereFrame.restingGroup 45))
  /\ exists s',
       AtmosphereFrame.animateGroup FORMED 0 (fst (AtmosphereFrame.restingGroup 45))
         Atmosphere.gifts false (snd (AtmosphereFrame.restingGroup 45))
       = Done s'
       /\ AtmosphereFrame.fits Atmosphere.gifts
            (fst (AtmosphereFrame.restingGroup 45)) s'.
Proof.
  pose proof (fits_resting Atmosphere.gifts) as Hfits.
  split; [exact Hfits|].
  destruct (X21_ornament_transforms FORMED 0 _ _ _ Hfits)
    as (s' & Hrun & _ & Hfits' & _).
  exists s'. split; [exact Hrun | exact Hfits'].
Defined.

(** X22: the lights and the shared object.  In every frame whose
    three groups have arrays of the right sizes the three loops never
    read out of range and keep the sizes.  The loop of the lights
    sets no rotation, and [tempObj] is one object used by all groups:
    every light is given the rotation that the last ball, instance
    89, got in the same frame.  The angles stored for the lights
    never change, and the scale of every light is between 0.04 and
    0.088 on all axes, up to rounding, whatever its entry in
    [scales]. *)
Theorem X22_lights_take_rotation_of_last_ball (mode : Mode) (time : R)
  (giftsData ballsData lightsData : AtmosphereFrame.Fixed)
  (obj : AtmosphereFrame.Object3D)
  (g b l : AtmosphereFrame.Frame)
  (Hg : AtmosphereFrame.fits Atmosphere.gifts giftsData g)
  (Hb : AtmosphereFrame.fits Atmosphere.balls ballsData b)
  (Hl : AtmosphereFrame.fits Atmosphere.lights lightsData l) :
  exists g' b' l',
    AtmosphereFrame.useFrame mode time giftsData ballsData lightsData obj (g, b, l)
    = Done (g', b', l')
    /\ AtmosphereFrame.fits Atmosphere.gifts giftsData g'
    /\ AtmosphereFrame.fits Atmosphere.balls ballsData b'
    /\ AtmosphereFrame.fits Atmosphere.lights lightsData l'
    /\ AtmosphereFrame.rotations l' = AtmosphereFrame.rotations l
    /\ forall i, (i < 150)%nat ->
         let m := nth i (AtmosphereFrame.matrices l')
                    AtmosphereFrame.newObject3D in
         AtmosphereFrame.rotation m
         = AtmosphereFrame.rotation
             (nth 89 (AtmosphereFrame.matrices b') AtmosphereFrame.newObject3D)
         /\ AtmosphereFrame.rotation m = block (AtmosphereFrame.rotations b') 89
         /\ exists v, AtmosphereFrame.scale m = AtmosphereFrame.setScalar v
                      /\ (0.039999 <= v <= 0.088001)%R.
Proof.
  destruct (animateGroup_frame mode time giftsData Atmosphere.gifts false
              (AtmosphereFrame.withTemp obj g)
              (fits_withTemp _ _ obj _ Hg))
    as (g' & Hgrun & _ & Hg' & _).
  destruct (animateGroup_frame mode time ballsData Atmosphere.balls false
              (AtmosphereFrame.withTemp (AtmosphereFrame.tempObj g') b)
              (fits_withTemp _ _ _ _ Hb))
    as (b' & Hbrun & _ & Hb' & _ & Hbmat & Hbtemp).
  destruct (animateGroup_frame mode time lightsData Atmosphere.lights true
              (AtmosphereFrame.withTemp (AtmosphereFrame.tempObj b') l)
              (fits_withTemp _ _ _ _ Hl))
    as (l' & Hlrun & _ & Hl' & Hlrot & Hlmat & _).
  exists g', b', l'. unfold AtmosphereFrame.useFrame.
  rewrite Hgrun. cbn [bind]. rewrite Hbrun. cbn [bind]. rewrite Hlrun.
  split; [reflexivity|]. split; [exact Hg'|]. split; [exact Hb'|].
  split; [exact Hl'|]. split.
  - destruct Hl' as (_ & _ & _ & _ & _ & Hlen' & _).
    destruct Hl as (_ & _ & _ & _ & _ & Hlen & _).
    apply (nth_ext _ _ 0%R 0%R); [lia|]. rewrite Hlen'.
    apply (@flat_index (Atmosphere.count Atmosphere.lights)
             (fun j => nth j (AtmosphereFrame.rotations l') 0%R
                       = nth j (AtmosphereFrame.rotations l) 0%R)).
    intros i k Hi Hk. rewrite (Hlrot i k Hi Hk).
    cbn [AtmosphereFrame.withTemp AtmosphereFrame.rotations]. reflexivity.
  - intros i Hi. cbv zeta. rewrite (Hlmat i Hi).
    cbn [AtmosphereFrame.rotation AtmosphereFrame.scale AtmosphereFrame.withTemp
         AtmosphereFrame.tempObj].
    assert (Hlast : AtmosphereFrame.tempObj b'
                    = nth 89 (AtmosphereFrame.matrices b')
                        AtmosphereFrame.newObject3D).
    { apply Hbtemp. cbn. lia. }
    split; [now rewrite Hlast|]. split.
    + rewrite Hlast, (Hbmat 89%nat) by (cbn; lia). reflexivity.
    + eexists. split; [reflexivity|].
      pose proof (SIN_bound (time * 5 + INR i)) as Hsin.
      cbn [Atmosphere.size Atmosphere.lights]. lra.
Qed.

(** The three groups resting at the origin, the shared object fresh. *)
Lemma X22_witness :
  exists g' b' l',
    AtmosphereFrame.useFrame FORMED 0
      (fst (AtmosphereFrame.restingGroup 45))
      (fst (AtmosphereFrame.restingGroup 90))
      (fst (AtmosphereFrame.restingGroup 150))
      AtmosphereFrame.newObject3D
      (snd (AtmosphereFrame.restingGroup 45),
       snd (AtmosphereFrame.restingGroup 90),
       snd (AtmosphereFrame.restingGroup 150))
    = Done (g', b', l')
    /\ AtmosphereFrame.rotation
         (nth 0 (AtmosphereFrame.matrices l') AtmosphereFrame.newObject3D)
       = block (AtmosphereFrame.rotations b') 89.
Proof.
  destruct (X22_lights_take_rotation_of_last_ball FORMED 0
              (fst (AtmosphereFrame.restingGroup 45))
              (fst (AtmosphereFrame.restingGroup 90))
              (fst (AtmosphereFrame.restingGroup 150))
              AtmosphereFrame.newObject3D
              (snd (AtmosphereFrame.restingGroup 45))
              (snd (AtmosphereFrame.restingGroup 90))
              (snd (AtmosphereFrame.restingGroup 150))
              (fits_resting Atmosphere.gifts) (fits_resting Atmosphere.balls)
              (fits_resting Atmosphere.lights))
    as (g' & b' & l' & Hrun & _ & _ & _ & _ & Hall).
  exists g', b', l'. split; [exact Hrun|].
  exact (proj1 (proj2 (Hall 0%nat ltac:(lia)))).
Defined.

(** ** The tree at start-up *)

Section StartUp.
Import Random Random_loops TreeGenerator.
Local Open Scope R_scope.

Lemma inBall_coordinates (radius B : R) (p : R * R * R) :
  0 <= radius <= B -> inBall radius p ->
  let '(x, y, z) := p in Rabs x <= B /\ Rabs y <= B /\ Rabs z <= B.
Proof.
  destruct p as [[x y] z]. unfold inBall. intros Hr H.
  repeat split; apply Rabs_le; nra.
Qed.

Lemma axisDistance_coordinates (x y z : R) :
  Rabs x <= axisDistance (x, y, z) /\ Rabs z <= axisDistance (x, y, z).
Proof.
  unfold axisDistance.
  split.
  - rewrite <- (sqrt_Rsqr_abs x). unfold Rsqr. apply sqrt_le_1_alt. nra.
  - rewrite <- (sqrt_Rsqr_abs z). unfold Rsqr. apply sqrt_le_1_alt. nra.
Qed.

Lemma inShell_coordinates (slack B : R) (lo hi : R -> R) (p : R * R * R) :
  7 <= B -> (forall py, -7 <= py <= 7 -> hi py + slack <= B) ->
  inShell slack lo hi p ->
  let '(x, y, z) := p in Rabs x <= B /\ Rabs y <= B /\ Rabs z <= B.
Proof.
  destruct p as [[x y] z]. unfold inShell, CONFIG.treeHeight.
  intros HB Hhi [Hy Hr].
  destruct (axisDistance_coordinates x y z) as [Hx Hz].
  specialize (Hhi y ltac:(lra)).
  repeat split; [lra | apply Rabs_le; lra | lra].
Qed.

(** A bound on every particle bounds every entry. *)
Lemma block_bounded (a : list R) (n : nat) (B : R) :
  (forall i, (i < n)%nat ->
     let '(x, y, z) := block a i in Rabs x <= B /\ Rabs y <= B /\ Rabs z <= B) ->
  Engine.bounded B (n * 3) (Engine.entry a).
Proof.
  intros H. unfold Engine.bounded, Engine.entry.
  apply (@flat_index n (fun j => Rabs (nth j a 0) <= B)).
  intros i k Hi Hk.
  apply (nth_block a i k (fun v => Rabs v <= B)); [apply (H i Hi) | exact Hk].
Qed.

Lemma array_float32s (a : list R) (size : nat) :
  Float32.array a -> Engine.float32s size (Engine.entry a).
Proof. intros Ha j _. apply Ha. Qed.

Lemma representable_16 : Float32.representable 16.
Proof. apply (representable_IZR 16). lia. Qed.

(** The floor of the rounding for values up to 16 and the factor
    0.03 is below one ten-thousandth. *)
Lemma rounding_floor_16 : Engine.rounding 16 / Tree.lerpSpeed < 0.0001.
Proof.
  unfold Engine.rounding, Float32.eps, Tree.lerpSpeed.
  pose proof tiny_small. lra.
Qed.

(** The needles and the trunk on generated data in FORMED mode. *)
Lemma formed_ticks (tick : nat -> list R -> Outcome (list R))
  (formed current : list R) (n : nat) :
  (forall k p, List.length p = (n * 3)%nat ->
     exists p', tick k p = Done p' /\ List.length p' = (n * 3)%nat
                /\ forall j, (j < n * 3)%nat ->
                     nth j p' 0
                     = Float32.fround
                         (MathUtils.lerp (nth j p 0) (nth j formed 0)
                            Tree.lerpSpeed)) ->
  List.length current = (n * 3)%nat ->
  Float32.array formed -> Float32.array current ->
  Engine.bounded 16 (n * 3) (Engine.entry formed) ->
  Engine.bounded 16 (n * 3) (Engine.entry current) ->
  Engine.neverRecedes (fun m => Engine.ticks tick m current)
    (Engine.entry formed) (n * 3)
  /\ Engine.closesIn (fun m => Engine.ticks tick m current)
       (Engine.entry formed) (n * 3) Tree.lerpSpeed
       (Engine.rounding 16 / Tree.lerpSpeed)
  /\ exists bound : nat, forall m, (bound <= m)%nat ->
       exists p, Engine.ticks tick m current = Done p
                 /\ forall j, (j < n * 3)%nat ->
                      Engine.dist p (Engine.entry formed) j < 0.0001.
Proof.
  intros Htick Hlen Haf Hac Hbf Hbc.
  destruct (@stored_ticks_close_in tick (Engine.entry formed) Tree.lerpSpeed 16
              (n * 3) (n * 3) current)
    as (Hclose & Hwithin & Hnever);
    [unfold Tree.lerpSpeed; lra | apply representable_16 | exact Htick
     | exact Hlen | exact Hbc | exact Hbf |].
  split; [apply Hnever; now apply array_float32s|].
  split; [exact Hclose|].
  exact (Hwithin 0.0001 rounding_floor_16).
Qed.

End StartUp.

(** X23: the tree forms at start-up.  [Scene] starts in the mode
    FORMED while the generator puts every needle at its chaos
    position and every trunk particle at a random point of a box.
    From the generated arrays, with the mode left at its start value
    and however the clock runs, the frame loop never reads out of
    range and the needles and the trunk go to their formed positions:
    from frame to frame no coordinate moves away from its formed
    value; after [m] frames its distance to that value is at most
    [(1 - 0.03)^m] times the distance at the start, plus the floor of
    the rounding of the float32 stores; and there is a number of
    frames after which all coordinates stay within 0.0001 of their
    formed values. *)
Theorem X23_tree_forms_at_startup (rand : nat -> R) (k0 : nat)
  (clock : nat -> R) (Hrand : Random.inUnit rand) :
  exists nData tData dData k,
    TreeGenerator.generate rand k0 = Done ((nData, tData, dData), k)
    /\ (Engine.neverRecedes
          (fun m =>
             Engine.ticks
               (fun j => Tree.updateNeedles
                           (Scene.treeState Scene.initialState) (clock j)
                           (TreeGenerator.needleData nData))
               m (TreeGenerator.n_current nData))
          (Engine.entry (TreeGenerator.n_formed nData))
          (CONFIG.particleCount * 3)
        /\ Engine.closesIn
             (fun m =>
                Engine.ticks
                  (fun j => Tree.updateNeedles
                              (Scene.treeState Scene.initialState) (clock j)
                              (TreeGenerator.needleData nData))
                  m (TreeGenerator.n_current nData))
             (Engine.entry (TreeGenerator.n_formed nData))
             (CONFIG.particleCount * 3)
             Tree.lerpSpeed (Engine.rounding 16 / Tree.lerpSpeed)
        /\ exists bound : nat, forall m, (bound <= m)%nat ->
             exists p,
               Engine.ticks
                 (fun j => Tree.updateNeedles
                             (Scene.treeState Scene.initialState) (clock j)
                             (TreeGenerator.needleData nData))
                 m (TreeGenerator.n_current nData) = Done p
               /\ forall j, (j < CONFIG.particleCount * 3)%nat ->
                    (Engine.dist p
                       (Engine.entry (TreeGenerator.n_formed nData)) j
                     < 0.0001)%R)
    /\ (Engine.neverRecedes
          (fun m =>
             Engine.ticks
               (fun _ => Tree.updateTrunk
                           (Scene.treeState Scene.initialState)
                           (TreeGenerator.trunkData tData))
               m (TreeGenerator.t_current tData))
          (Engine.entry (TreeGenerator.t_formed tData))
          (CONFIG.trunkCount * 3)
        /\ Engine.closesIn
             (fun m =>
                Engine.ticks
                  (fun _ => Tree.updateTrunk
                              (Scene.treeState Scene.initialState)
                              (TreeGenerator.trunkData tData))
                  m (TreeGenerator.t_current tData))
             (Engine.entry (TreeGenerator.t_formed tData))
             (CONFIG.trunkCount * 3)
             Tree.lerpSpeed (Engine.rounding 16 / Tree.lerpSpeed)
        /\ exists bound : nat, forall m, (bound <= m)%nat ->
             exists p,
               Engine.ticks
                 (fun _ => Tree.updateTrunk
                             (Scene.treeState Scene.initialState)
                             (TreeGenerator.trunkData tData))
                 m (TreeGenerator.t_current tData) = Done p
               /\ forall j, (j < CONFIG.trunkCount * 3)%nat ->
                    (Engine.dist p
                       (Engine.entry (TreeGenerator.t_formed tData)) j
                     < 0.0001)%R).
Proof.
  destruct (needles_spec CONFIG.particleCount rand k0)
    as (nData & Hn & Hnc & Hnf & Hnk & _ & Hncur & Hnac & Hnaf & Hnall).
  destruct (trunk_spec CONFIG.trunkCount rand (k0 + 7 * CONFIG.particleCount))
    as (tData & Ht & Htf & Htk & Htaf & Htak & Htall).
  destruct (dust_spec Tree.dustCount rand
              (k0 + 7 * CONFIG.particleCount + 5 * CONFIG.trunkCount))
    as (dData & Hd & _).
  specialize (Hnall Hrand). specialize (Htall Hrand).
  exists nData, tData, dData. eexists. split; [|split].
  - unfold TreeGenerator.generate.
    rewrite (bindG_Done _ _ _ _ _ _ Hn), (bindG_Done _ _ _ _ _ _ Ht),
      (bindG_Done _ _ _ _ _ _ Hd).
    reflexivity.
  - cbn [Scene.treeState Scene.initialState]. unfold Tree.updateNeedles.
    apply formed_ticks.
    + intros j p Hlen.
      destruct (@needleLoop_flat CONFIG.particleCount FORMED (clock j)
                  (TreeGenerator.needleData nData) (CONFIG.particleCount * 3) p)
        as (p' & Hrun & Hl & Hnew).
      * unfold Engine.needleTargets, TreeGenerator.needleData.
        cbn [Mode_eqb Tree.needle_formed]. lia.
      * lia.
      * exact Hlen.
      * exists p'. split; [exact Hrun|]. split; [exact Hl|].
        intros i Hi. rewrite (Hnew i Hi).
        cbn [Mode_eqb Tree.needleNoise Engine.needleTargets
             TreeGenerator.needleData Tree.needle_formed].
        now rewrite Rplus_0_r.
    + exact Hnk.
    + exact Hnaf.
    + rewrite Hncur. exact Hnac.
    + apply block_bounded. intros i Hi.
      destruct (Hnall i Hi) as (_ & Hshell & _).
      refine (inShell_coordinates 0.001 16 _ _ _ _ _ Hshell); [lra|].
      intros py Hpy. unfold TreeGenerator.coneRadius, CONFIG.treeHeight,
        CONFIG.treeRadius. lra.
    + rewrite Hncur. apply block_bounded. intros i Hi.
      destruct (Hnall i Hi) as (Hball & _).
      apply (inBall_coordinates 8.001 16 _ ltac:(lra) Hball).
  - cbn [Scene.treeState Scene.initialState]. unfold Tree.updateTrunk.
    apply formed_ticks.
    + intros j p Hlen.
      destruct (@trunkLoop_flat CONFIG.trunkCount FORMED
                  (TreeGenerator.trunkData tData) (CONFIG.trunkCount * 3) p)
        as (p' & Hrun & Hl & Hnew).
      * unfold TreeGenerator.trunkData. cbn [Tree.trunk_formed]. lia.
      * lia.
      * exact Hlen.
      * exists p'. split; [exact Hrun|]. split; [exact Hl|].
        intros i Hi. rewrite (Hnew i Hi).
        unfold Engine.trunkTarget, Engine.trunkScale, TreeGenerator.trunkData.
        cbn [Mode_eqb Tree.trunk_formed]. now rewrite Rmult_1_r.
    + exact Htk.
    + exact Htaf.
    + exact Htak.
    + apply block_bounded. intros i Hi.
      destruct (Htall i Hi) as (Hshell & _).
      refine (inShell_coordinates 0.001 16 _ _ _ _ _ Hshell); [lra|].
      intros py Hpy. lra.
    + apply block_bounded. intros i Hi.
      destruct (Htall i Hi) as (_ & Hbox).
      destruct (block (TreeGenerator.t_current tData) i) as [[x y] z].
      repeat split; apply Rabs_le; lra.
Qed.

(** A generator that always returns one half, the clock advancing by
    one per frame. *)
Lemma X23_witness :
  exists nData tData dData k,
    TreeGenerator.generate (fun _ => 0.5%R) 0%nat
    = Done ((nData, tData, dData), k)
    /\ Engine.neverRecedes
         (fun m =>
            Engine.ticks
              (fun j => Tree.updateNeedles
                          (Scene.treeState Scene.initialState) (INR j)
                          (TreeGenerator.needleData nData))
              m (TreeGenerator.n_current nData))
         (Engine.entry (TreeGenerator.n_formed nData))
         (CONFIG.particleCount * 3).
Proof.
  destruct (X23_tree_forms_at_startup (fun _ => 0.5%R) 0%nat INR)
    as (nData & tData & dData & k & Hrun & (Hnever & _) & _).
  - intros j. lra.
  - exists nData, tData, dData, k. split; [exact Hrun | exact Hnever].
Defined.
